(** * simscity: the sequencing-noise pipeline and the dose-response model

    A shallow embedding of [simscity/sequencing.py] and [simscity/drug.py].

    Conventions of the embedding.
    - A NumPy array is a shape together with its elements in C (row-major)
      order; a Python scalar is an array of shape [[]].
    - NumPy integers are mathematical integers ([Z]): overflow of int64 is
      outside the model.
    - Expression values, probabilities and PCR efficiencies are exact
      rationals ([Q]); the only non-finite float the code can produce from
      finite non-negative input, the NaN of a [0 / 0], is modelled by [None].
    - [library_size] and [response] exponentiate, so they live over the real
      numbers.
    - The process-wide generator [np.random] is an abstract state threaded
      through every sampling call.  The samplers are the operations of the
      class [RandomState]; what NumPy and SciPy document about the support
      of each distribution is the class [RandomStateLaws].  [Lcg] is one
      generator that satisfies it, used to run the functions.
    - [pcr_noise] works in place: arrays live in a store of objects, a sparse
      matrix refers to its [data] array, and [copy()] allocates.
    - Python exceptions are values of [exn]; a computation that raises keeps
      the state it had reached.

    The first part holds the definitions, the second the properties. *)

From Stdlib Require Import ZArith QArith Reals Psatz List String.
From stdpp Require Import gmap list.

Local Open Scope Z_scope.

(** ** Exceptions and the state-and-exception monad *)

Inductive exn : Type :=
| ValueError (msg : string)
| IndexError (msg : string)
| AttributeError (msg : string).

Definition M (S A : Type) : Type := S -> (exn + A) * S.

Definition ret {S A : Type} (a : A) : M S A := fun s => (inr a, s).

Definition raise {S A : Type} (e : exn) : M S A := fun s => (inl e, s).

Definition bind {S A B : Type} (m : M S A) (k : A -> M S B) : M S B :=
  fun s => match m s with
           | (inl e, s') => (inl e, s')
           | (inr a, s') => k a s'
           end.

Notation "'do' x <- m ; k" := (bind m (fun x => k))
  (at level 10, x name, m at level 100, k at level 200).
Notation "'do' ' p <- m ; k" := (bind m (fun x => match x with p => k end))
  (at level 10, p pattern, m at level 100, k at level 200).

Fixpoint mapM {S A B : Type} (f : A -> M S B) (l : list A) : M S (list B) :=
  match l with
  | [] => ret []
  | x :: l' => do y <- f x; do ys <- mapM f l'; ret (y :: ys)
  end.

(** A pure partial operation raising [e] where it is undefined. *)
Definition of_option {S A : Type} (e : exn) (o : option A) : M S A :=
  match o with
  | Some a => ret a
  | None => raise e
  end.

(** ** NumPy arrays *)

Module Np.

Record ndarray (A : Type) : Type := mk_ndarray { shape : list nat; flat : list A }.
Arguments mk_ndarray {A} _ _.
Arguments shape {A} _.
Arguments flat {A} _.

(** [np.prod(shape)]: the number of elements. *)
Definition size_of (s : list nat) : nat := foldr Nat.mul 1%nat s.

Definition wf {A : Type} (a : ndarray A) : Prop :=
  length (flat a) = size_of (shape a).

(** A Python scalar. *)
Definition scalar {A : Type} (x : A) : ndarray A := mk_ndarray [] [x].

(** The first [n] consecutive blocks of [k] elements. *)
Fixpoint chunks {A : Type} (k n : nat) (l : list A) : list (list A) :=
  match n with
  | O => []
  | S n' => take k l :: chunks k n' (drop k l)
  end.

(** [shape[:-1]] and [shape[-1]]. *)
Definition leading (s : list nat) : list nat := removelast s.
Definition trailing (s : list nat) : option nat := last s.

(** The rows along the last axis, in [np.ndindex] order of the leading axes. *)
Definition rows {A : Type} (a : ndarray A) (n_genes : nat) : list (list A) :=
  chunks n_genes (size_of (leading (shape a))) (flat a).

Fixpoint sequence {A : Type} (l : list (option A)) : option (list A) :=
  match l with
  | [] => Some []
  | Some x :: l' => match sequence l' with Some r => Some (x :: r) | None => None end
  | None :: _ => None
  end.

(** Broadcasting of data of shape [src] to [dst], both of one length: an
    axis of length one is repeated, any other axis has to agree. *)
Fixpoint broadcast_aligned {A : Type} (src dst : list nat) (l : list A)
  : option (list A) :=
  match src, dst with
  | [], [] => match l with [x] => Some [x] | _ => None end
  | s :: src', d :: dst' =>
      match sequence (map (broadcast_aligned src' dst') (chunks (size_of src') s l)) with
      | Some bs =>
          if Nat.eqb s d then Some (concat bs)
          else if Nat.eqb s 1 then Some (concat (concat (replicate d bs)))
          else None
      | None => None
      end
  | _, _ => None
  end.

(** [np.broadcast_to(a, dst)]: missing leading axes count as length one. *)
Definition broadcast_to {A : Type} (a : ndarray A) (dst : list nat)
  : option (list A) :=
  if Nat.leb (length (shape a)) (length dst)
  then broadcast_aligned
         (replicate (length dst - length (shape a)) 1%nat ++ shape a) dst (flat a)
  else None.

(** [np.repeat(row, repeats)] along the last axis of one row. *)
Definition repeat_row {A : Type} (row : list A) (repeats : list nat) : list A :=
  concat (zip_with (fun x k => replicate k x) row repeats).

End Np.

(** ** SciPy compressed-sparse-row matrices, as values *)

Module Sp.

Record csr_matrix : Type := mk_csr {
  nrows : nat;
  ncols : nat;
  data : list Z;
  indices : list nat;
  indptr : list nat
}.

(** The stored entries of a dense row that are not zero, with their columns. *)
Definition nonzero_entries (row : list Z) : list (nat * Z) :=
  List.filter (fun jv => negb (Z.eqb (snd jv) 0)) (imap pair row).

(** [sp.csr_matrix(row)] for a 1-D integer array: one row, zeros dropped. *)
Definition csr_of_row (row : list Z) : csr_matrix :=
  let nz := nonzero_entries row in
  mk_csr 1 (length row) (map snd nz) (map fst nz) [0%nat; length nz].

(** [sp.vstack(blocks)]: the blocks one above the other. *)
Fixpoint vstack_from (acc : csr_matrix) (blocks : list csr_matrix)
  : option csr_matrix :=
  match blocks with
  | [] => Some acc
  | b :: blocks' =>
      if Nat.eqb (ncols b) (ncols acc)
      then vstack_from
             (mk_csr (nrows acc + nrows b) (ncols acc)
                (data acc ++ data b) (indices acc ++ indices b)
                (indptr acc ++ map (Nat.add (length (data acc))) (tail (indptr b))))
             blocks'
      else None
  end.

Definition vstack (blocks : list csr_matrix) : option csr_matrix :=
  match blocks with
  | [] => None
  | b :: blocks' => vstack_from b blocks'
  end.

(** The row of every stored entry ([tocoo], expanding [indptr]). *)
Definition entry_rows (indptr : list nat) : list nat :=
  concat (imap (fun i lo_hi => replicate (snd lo_hi - fst lo_hi) i)
               (zip indptr (tail indptr))).

(** [m.nonzero()]: row and column of the stored entries that are not zero,
    in storage order. *)
Definition nonzero (indptr indices : list nat) (data : list Z)
  : list (nat * nat) :=
  map fst (List.filter (fun rcv => negb (Z.eqb (snd rcv) 0))
                  (zip (zip (entry_rows indptr) indices) data)).

End Sp.

(** ** The random generator *)

(** A truncation bound of [scipy.stats.truncnorm]: a float or an infinity. *)
Inductive ebound : Type :=
| NegInf
| Fin (r : R)
| PosInf.

(** [a < b] on bounds. *)
Definition eb_lt (a b : ebound) : Prop :=
  match a, b with
  | NegInf, NegInf => False
  | NegInf, _ => True
  | Fin x, Fin y => (x < y)%R
  | Fin _, PosInf => True
  | Fin _, NegInf => False
  | PosInf, _ => False
  end.

(** [loc + a * scale <= x], and [x <= loc + b * scale]. *)
Definition above (a : ebound) (loc scale x : R) : Prop :=
  match a with
  | NegInf => True
  | Fin r => (loc + r * scale <= x)%R
  | PosInf => False
  end.

Definition below (b : ebound) (loc scale x : R) : Prop :=
  match b with
  | NegInf => False
  | Fin r => (x <= loc + r * scale)%R
  | PosInf => True
  end.

Definition sumQ (l : list Q) : Q := foldr Qplus 0%Q l.
Definition sumZ (l : list Z) : Z := foldr Z.add 0 l.

(** The tolerance of NumPy's check on [sum(pvals[:-1])]. *)
Definition pvals_tolerance : Q := 1 # 1000000000000.

(** One draw of each distribution the package samples from, on parameters
    the library accepts; each takes the generator state and returns the next. *)
Class RandomState (G : Type) : Type := {
  draw_binomial : Z -> Q -> G -> Z * G;
  draw_poisson : Q -> G -> Z * G;
  draw_multinomial : Z -> list Q -> G -> list Z * G;
  draw_truncnorm : ebound -> ebound -> R -> R -> G -> R * G
}.

(** The support of each distribution. *)
Class RandomStateLaws (G : Type) `{RandomState G} : Prop := {
  binomial_support : forall n p g,
    0 <= n -> (0 <= p)%Q -> (p <= 1)%Q ->
    0 <= fst (draw_binomial n p g) <= n;
  poisson_support : forall lam g,
    (0 <= lam)%Q -> 0 <= fst (draw_poisson lam g);
  poisson_zero : forall lam g,
    (lam == 0)%Q -> fst (draw_poisson lam g) = 0;
  multinomial_support : forall n pvals g,
    0 <= n -> pvals <> [] ->
    Forall (fun p => (0 <= p)%Q /\ (p <= 1)%Q) pvals ->
    (sumQ (removelast pvals) <= 1 + pvals_tolerance)%Q ->
    length (fst (draw_multinomial n pvals g)) = length pvals /\
    Forall (Z.le 0) (fst (draw_multinomial n pvals g)) /\
    sumZ (fst (draw_multinomial n pvals g)) = n;
  truncnorm_support : forall a b loc scale g,
    eb_lt a b -> (0 < scale)%R ->
    above a loc scale (fst (draw_truncnorm a b loc scale g)) /\
    below b loc scale (fst (draw_truncnorm a b loc scale g))
}.

(** A random draw as a computation on the generator. *)
Definition sample {G A : Type} (f : G -> A * G) : M G A :=
  fun g => (inr (fst (f g)), snd (f g)).

Module NpRandom.
Section Samplers.
Context {G : Type} `{RandomState G}.

Definition is_probability (p : Q) : bool := Qle_bool 0 p && Qle_bool p 1.

(** NumPy's largest [lam]: [np.iinfo('l').max - np.sqrt(np.iinfo('l').max) * 10]
    as a float, [9.223372006484771e+18]. *)
Definition poisson_lam_max : Q := 9223372006484770816 # 1.

(** [np.random.poisson(lam, size=n)]. *)
Definition poisson (lam : Q) (n : nat) : M G (list Z) :=
  if negb (Qle_bool 0 lam)
  then raise (ValueError "lam < 0 or lam is NaN")
  else if negb (Qle_bool lam poisson_lam_max)
  then raise (ValueError "lam value too large")
  else mapM (fun _ : unit => sample (draw_poisson lam)) (replicate n tt).

(** [np.random.multinomial(n, pvals)]; a NaN among [pvals] is [None]. *)
Definition multinomial (n : Z) (pvals : list (option Q)) : M G (list Z) :=
  match Np.sequence pvals with
  | None => raise (ValueError "pvals < 0, pvals > 1 or pvals contains NaNs")
  | Some ps =>
      if negb (forallb is_probability ps)
      then raise (ValueError "pvals < 0, pvals > 1 or pvals contains NaNs")
      else if negb (Qle_bool (sumQ (removelast ps)) (1 + pvals_tolerance))
      then raise (ValueError "sum(pvals[:-1]) > 1.0")
      else if Z.ltb n 0
      then raise (ValueError "n < 0")
      else sample (draw_multinomial n ps)
  end.

(** [np.random.binomial(n, p, size)] on arrays: the parameters are checked
    where they are given, then broadcast to [size] and drawn entry by entry. *)
Definition binomial (n : Np.ndarray Z) (p : Np.ndarray Q) (size : list nat)
  : M G (list Z) :=
  if negb (forallb is_probability (Np.flat p))
  then raise (ValueError "p < 0, p > 1 or p contains NaNs")
  else if existsb (fun x => Z.ltb x 0) (Np.flat n)
  then raise (ValueError "n < 0")
  else
    match Np.broadcast_to n size, Np.broadcast_to p size with
    | Some ns, Some ps =>
        mapM (fun np => sample (draw_binomial (fst np) (snd np))) (zip ns ps)
    | _, _ =>
        raise (ValueError "shape mismatch: objects cannot be broadcast to a single shape")
    end.

End Samplers.
End NpRandom.

(** ** simscity/sequencing.py: the sampling functions *)

Definition eb_lt_dec (a b : ebound) : {eb_lt a b} + {~ eb_lt a b}.
Proof.
  destruct a, b; simpl; try (left; exact I); try (right; intros []).
  apply Rlt_dec.
Defined.

(** [astype(int)] on a float: truncation toward zero.  This is NumPy's cast
    for floats below [2^63] in absolute value; the properties of
    [library_size] that depend on the cast carry that bound, or hold where
    the draws cannot reach it. *)
Definition astype_int (r : R) : Z :=
  if Rle_dec 0 r then Int_part r else - Int_part (- r).

(** [x + k] in place on an [int64] array, for a count [x] and a draw
    [0 <= k <= x]: counts are below [2^63], and a sum that reaches [2^63]
    wraps around to [x + k - 2^64], a negative number. *)
Definition add_int64 (x k : Z) : Z :=
  if (x <? 2 ^ 63) && (2 ^ 63 <=? x + k) then x + k - 2 ^ 64 else x + k.

(** What [umi_counts] returns: a dense array or a CSR matrix. *)
Inductive counts : Type :=
| Dense (a : Np.ndarray Z)
| Sparse (m : Sp.csr_matrix).

Module Sequencing.
Section WithGenerator.
Context {G : Type} `{RandomState G}.

(** [st.truncnorm.rvs(a, b, loc=loc, scale=scale, size=size)]: SciPy wants
    [a < b] and [scale >= 0], and returns [loc] everywhere for [scale = 0]. *)
Definition truncnorm_rvs (a b : ebound) (loc scale : R) (size : list nat)
  : M G (list R) :=
  if eb_lt_dec a b
  then if Rlt_dec scale 0
       then raise (ValueError "Domain error in arguments.")
       else if Req_dec_T scale 0
       then ret (replicate (Np.size_of size) loc)
       else mapM (fun _ : unit => sample (draw_truncnorm a b loc scale))
                 (replicate (Np.size_of size) tt)
  else raise (ValueError "Domain error in arguments.").

Definition library_size (n_cells : list nat) (loc scale : R)
  (lower_bound upper_bound : ebound) : M G (Np.ndarray Z) :=
  do xs <- truncnorm_rvs lower_bound upper_bound loc scale n_cells;
  ret (Np.mk_ndarray n_cells (map (fun x => astype_int (exp x)) xs)).

(** The defaults of [library_size]: [loc=7.5, scale=0.5, lower_bound=-1.0,
    upper_bound=np.inf]. *)
Definition library_size_default (n_cells : list nat) : M G (Np.ndarray Z) :=
  library_size n_cells (15 / 2)%R (1 / 2)%R (Fin (-1)%R) PosInf.

Definition fragment_genes (n_genes : nat) (lam : Q) : M G (list Z) :=
  do extra <- NpRandom.poisson lam n_genes;
  ret (map (Z.add 1) extra).

(** [np.any(raw_expression < 0)]. *)
Definition any_negative (l : list Q) : bool :=
  existsb (fun x => negb (Qle_bool 0 x)) l.

(** [np.repeat(raw_expression, fragments_per_gene, axis=-1)], row by row. *)
Definition np_repeat (rows : list (list Q)) (repeats : list Z)
  : M G (list (list Q)) :=
  if existsb (fun k => Z.ltb k 0) repeats
  then raise (ValueError "repeats may not contain negative values.")
  else ret (map (fun row => Np.repeat_row row (map Z.to_nat repeats)) rows).

(** [row / row.sum(-1, keepdims=True)]: a row of total zero gives NaNs. *)
Definition normalize (row : list Q) : list (option Q) :=
  map (fun x => if Qeq_bool (sumQ row) 0 then None else Some (x / sumQ row)%Q) row.

(** [np.vstack(rows)] reshaped to the cell axes followed by one inferred
    axis. *)
Definition vstack_dense (n_cells : list nat) (rows : list (list Z)) : M G counts :=
  match rows with
  | [] => raise (ValueError "need at least one array to concatenate")
  | r :: _ => ret (Dense (Np.mk_ndarray (n_cells ++ [length r]) (concat rows)))
  end.

(** [sp.vstack([sp.csr_matrix(row) for row in rows])]. *)
Definition vstack_sparse (rows : list (list Z)) : M G counts :=
  match Sp.vstack (map Sp.csr_of_row rows) with
  | None => raise (ValueError "blocks must be 2-D")
  | Some m => ret (Sparse m)
  end.

Definition umi_counts (raw_expression : Np.ndarray Q)
  (lib_size : option (Np.ndarray Z)) (fragments_per_gene : Np.ndarray Z)
  (sparse : bool) : M G counts :=
  if any_negative (Np.flat raw_expression)
  then raise (ValueError "raw_expression must be non-negative")
  else if Nat.eqb (length (Np.shape raw_expression)) 1
  then raise (ValueError "raw_expression should be >= 2 dimensions")
  else
    (* the warning on [sparse] with more than two axes changes nothing *)
    let n_cells := Np.leading (Np.shape raw_expression) in
    do n_genes <- of_option (IndexError "tuple index out of range")
                    (Np.trailing (Np.shape raw_expression));
    do lib_size <-
      match lib_size with
      | None => do sizes <- library_size_default n_cells; ret (Np.flat sizes)
      | Some l => of_option (ValueError "operands could not be broadcast together")
                    (Np.broadcast_to l n_cells)
      end;
    do fragments_per_gene <-
      of_option (ValueError "operands could not be broadcast together")
        (Np.broadcast_to fragments_per_gene [n_genes]);
    do fragment_expression <-
      np_repeat (Np.rows raw_expression n_genes) fragments_per_gene;
    let gene_p := map normalize fragment_expression in
    do cell_gene_umis <-
      mapM (fun np => NpRandom.multinomial (fst np) (snd np)) (zip lib_size gene_p);
    if sparse then vstack_sparse cell_gene_umis
    else vstack_dense n_cells cell_gene_umis.

(** *** The store of array objects

    [pcr_noise] works in place, so the arrays it is given live in a store.
    A dense array owns its buffer; a CSR matrix refers to the array that is
    its [data] attribute ([indices] and [indptr] are never written). *)

Inductive obj : Type :=
| Ndarray (a : Np.ndarray Z)
| Csr (nrows ncols : nat) (data : nat) (indices indptr : list nat).

Definition world : Type := gmap nat obj * G.

Definition with_generator {A : Type} (m : M G A) : M world A :=
  fun w => (fst (m (snd w)), (fst w, snd (m (snd w)))).

Definition load (l : nat) : M world obj :=
  fun w => match fst w !! l with
           | Some o => (inr o, w)
           | None => (inl (AttributeError "not an array"), w)
           end.

Definition load_array (l : nat) : M world (Np.ndarray Z) :=
  do o <- load l;
  match o with
  | Ndarray a => ret a
  | Csr _ _ _ _ _ => raise (AttributeError "not an array")
  end.

Definition store (l : nat) (o : obj) : M world unit :=
  fun w => (inr tt, (<[l:=o]> (fst w), snd w)).

Definition alloc (o : obj) : M world nat :=
  fun w => let l := fresh (dom (fst w)) in (inr l, (<[l:=o]> (fst w), snd w)).

(** [read_counts.copy()]: a new object on a new buffer. *)
Definition copy_obj (l : nat) : M world nat :=
  do o <- load l;
  match o with
  | Ndarray a => alloc (Ndarray a)
  | Csr nr nc dl indices indptr =>
      do a <- load_array dl;
      do dl' <- alloc (Ndarray a);
      alloc (Csr nr nc dl' indices indptr)
  end.

(** [read_counts.shape[1]]. *)
Definition shape1 (o : obj) : M world nat :=
  match o with
  | Ndarray a => of_option (IndexError "tuple index out of range") (Np.shape a !! 1%nat)
  | Csr _ nc _ _ _ => ret nc
  end.

(** One round of PCR on the array at [d], seen under [view_shape]:
    [d += np.random.binomial(n=d, p=pcr_betas, size=d.shape)]. *)
Definition pcr_cycle (d : nat) (view_shape : list nat) (p : Np.ndarray Q)
  : M world unit :=
  do a <- load_array d;
  do extra <- with_generator
                (NpRandom.binomial (Np.mk_ndarray view_shape (Np.flat a)) p view_shape);
  store d (Ndarray (Np.mk_ndarray (Np.shape a) (zip_with add_int64 (Np.flat a) extra))).

Fixpoint pcr_cycles (n : nat) (d : nat) (view_shape : list nat) (p : Np.ndarray Q)
  : M world unit :=
  match n with
  | O => ret tt
  | S n' => do _ <- pcr_cycle d view_shape p; pcr_cycles n' d view_shape p
  end.

Definition pcr_noise (read_counts : nat) (pcr_betas : Np.ndarray Q)
  (n_cycles : Z) (copy : bool) : M world nat :=
  if any_negative (Np.flat pcr_betas)
  then raise (ValueError "pcr_betas must be non-negative")
  else
    do read_counts <- (if copy then copy_obj read_counts else ret read_counts);
    do o <- load read_counts;
    do n_features <- shape1 o;
    do betas <- of_option (ValueError "operands could not be broadcast together")
                  (Np.broadcast_to pcr_betas [1%nat; n_features]);
    match o with
    | Csr nr nc dl indices indptr =>
        do a <- load_array dl;
        (* d = read_counts.data[None, :] is a view of the data array *)
        let view_shape := 1%nat :: Np.shape a in
        let columns := map snd (Sp.nonzero indptr indices (Np.flat a)) in
        do p <- of_option (IndexError "index is out of bounds for axis 1")
                  (Np.sequence (map (fun j => betas !! j) columns));
        do _ <- pcr_cycles (Z.to_nat n_cycles) dl view_shape
                  (Np.mk_ndarray [1%nat; length p] p);
        (* read_counts.data = d.flatten() *)
        do a' <- load_array dl;
        do dl' <- alloc (Ndarray (Np.mk_ndarray [length (Np.flat a')] (Np.flat a')));
        do _ <- store read_counts (Csr nr nc dl' indices indptr);
        ret read_counts
    | Ndarray a =>
        do _ <- pcr_cycles (Z.to_nat n_cycles) read_counts (Np.shape a)
                  (Np.mk_ndarray [1%nat; n_features] betas);
        ret read_counts
    end.

End WithGenerator.
End Sequencing.

(** ** simscity/drug.py in exact arithmetic

    [response] squashes with [scipy.special.expit].  Over the reals the
    logistic function stays strictly between 0 and 1; in binary64 it rounds
    to exactly 1.0 from about 37 upwards and to 0.0 far enough below zero, so
    this module and what is proved of it are about the idealised function
    only. *)

Module Drug.

Definition expit (x : R) : R := (1 / (1 + exp (- x)))%R.

(** [np.dot(row, z_weights)] for one sample. *)
Definition dot (row z_weights : list R) : R :=
  foldr Rplus 0%R (zip_with Rmult row z_weights).

(** [expit(np.dot(latent_exp, z_weights)[..., None] + doses)]: one row per
    sample, one column per dose; [np.dot] wants rows as long as [z_weights]. *)
Definition response (latent_exp : list (list R)) (z_weights doses : list R)
  : exn + list (list R) :=
  if forallb (fun row => Nat.eqb (length row) (length z_weights)) latent_exp
  then inr (map (fun row => map (fun d => expit (dot row z_weights + d)%R) doses)
                latent_exp)
  else inl (ValueError "shapes not aligned").

End Drug.

(** ** A concrete generator

    A linear congruential generator whose samplers stay inside the support of
    each distribution; [draw_multinomial] splits [n] by conditional binomial
    draws, the last category taking what remains. *)

Module Lcg.

Definition next (g : Z) : Z :=
  (g * 6364136223846793005 + 1442695040888963407) mod 2 ^ 64.

Definition binomial (n : Z) (p : Q) (g : Z) : Z * Z :=
  (if Qeq_bool p 0 then 0 else if Qeq_bool p 1 then n else g mod (n + 1), next g).

Definition poisson (lam : Q) (g : Z) : Z * Z :=
  (if Qeq_bool lam 0 then 0 else g mod 4, next g).

Fixpoint multinomial_loop (dn : Z) (remaining_p : Q) (pvals : list Q) (g : Z)
  : list Z * Z :=
  match pvals with
  | [] => ([], g)
  | p :: rest =>
      match rest with
      | [] => ([dn], g)
      | _ :: _ =>
          let kg := binomial dn (p / remaining_p) g in
          let r := multinomial_loop (dn - fst kg) (remaining_p - p) rest (snd kg) in
          (fst kg :: fst r, snd r)
      end
  end.

Definition multinomial (n : Z) (pvals : list Q) (g : Z) : list Z * Z :=
  multinomial_loop n 1 pvals g.

Definition truncnorm (a b : ebound) (loc scale : R) (g : Z) : R * Z :=
  (match a, b with
   | Fin r, _ => loc + r * scale
   | _, Fin r => loc + r * scale
   | _, _ => loc
   end%R, next g).

#[global] Instance random_state : RandomState Z := {
  draw_binomial := binomial;
  draw_poisson := poisson;
  draw_multinomial := multinomial;
  draw_truncnorm := truncnorm
}.

End Lcg.

(** ** The vocabulary of the statements *)



(** The library size [umi_counts] assigns to every cell: an explicit
    [lib_size] broadcast to the cell shape, or the draws of [library_size]. *)
Definition assigned_sizes {G : Type} `{RandomState G} (n_cells : list nat)
  (lib_size : option (Np.ndarray Z)) (g : G) (sizes : list Z) : Prop :=
  match lib_size with
  | Some l => Np.broadcast_to l n_cells = Some sizes
  | None => exists g', Sequencing.library_size_default n_cells g
                       = (inr (Np.mk_ndarray n_cells sizes), g')
  end.

(** What [n] rounds of PCR do to one count: it is zero afterwards exactly
    when it was zero before, and a non-negative count that stays below [2^63]
    when doubled [n] times does not shrink and at most doubles in every
    round. *)
Definition grown (n : nat) (x y : Z) : Prop :=
  (x = 0 <-> y = 0) /\
  (0 <= x -> 2 ^ Z.of_nat n * x < 2 ^ 63 -> x <= y <= 2 ^ Z.of_nat n * x).

(** Counts that [n] doublings keep below [2^63], the end of [int64]. *)
Definition doubles_in_int64 (n : nat) (x : Z) : Prop :=
  2 ^ Z.of_nat n * x < 2 ^ 63.

(** The count matrix an object of the store stands for. *)
Definition view (h : gmap nat Sequencing.obj) (l : nat) : option counts :=
  match h !! l with
  | Some (Sequencing.Ndarray a) => Some (Dense a)
  | Some (Sequencing.Csr nr nc dl indices indptr) =>
      match h !! dl with
      | Some (Sequencing.Ndarray a) =>
          Some (Sparse (Sp.mk_csr nr nc (Np.flat a) indices indptr))
      | _ => None
      end
  | None => None
  end.

(** A dense array at [l] has as many elements as its shape says; the [data]
    array of a sparse matrix at [l] is one-dimensional. *)
Definition well_formed (h : gmap nat Sequencing.obj) (l : nat) : Prop :=
  match h !! l with
  | Some (Sequencing.Ndarray a) => Np.wf a
  | Some (Sequencing.Csr _ _ dl _ _) =>
      match h !! dl with
      | Some (Sequencing.Ndarray a) => Np.shape a = [length (Np.flat a)]
      | _ => False
      end
  | None => False
  end.

(** Two count matrices of one layout whose entries are related by [R]. *)
Definition entrywise (R : Z -> Z -> Prop) (c c' : counts) : Prop :=
  match c, c' with
  | Dense a, Dense a' =>
      Np.shape a' = Np.shape a /\ Forall2 R (Np.flat a) (Np.flat a')
  | Sparse m, Sparse m' =>
      Sp.nrows m' = Sp.nrows m /\ Sp.ncols m' = Sp.ncols m /\
      Sp.indices m' = Sp.indices m /\ Sp.indptr m' = Sp.indptr m /\
      Forall2 R (Sp.data m) (Sp.data m')
  | _, _ => False
  end.

(** The counts a matrix holds: every element of a dense array, the stored
    entries of a sparse matrix. *)
Definition entries (c : counts) : list Z :=
  match c with
  | Dense a => Np.flat a
  | Sparse m => Sp.data m
  end.

(** The number of columns [pcr_noise] reads off its argument. *)
Definition n_features (c : counts) : option nat :=
  match c with
  | Dense a => Np.shape a !! 1%nat
  | Sparse m => Some (Sp.ncols m)
  end.

(** Counts [pcr_noise] can amplify: a two-dimensional array of non-negative
    counts, or a CSR matrix whose stored entries are positive and have each a
    row and a column below the number of columns. *)
Definition amplifiable (c : counts) : Prop :=
  match c with
  | Dense a => length (Np.shape a) = 2%nat /\ Forall (Z.le 0) (Np.flat a)
  | Sparse m =>
      length (Sp.indices m) = length (Sp.data m) /\
      length (Sp.entry_rows (Sp.indptr m)) = length (Sp.data m) /\
      Forall (fun j => (j < Sp.ncols m)%nat) (Sp.indices m) /\
      Forall (Z.lt 0) (Sp.data m)
  end.

(** ** Further vocabulary: dense rows of a sparse matrix, growth per round *)

(** One row of [m.toarray()]: the stored values of a row, each at its
    column; values stored at one column add up. *)
Definition todense_row (ncols : nat) (entries : list (nat * Z)) : list Z :=
  map (fun j => sumZ (map snd (List.filter (fun e => Nat.eqb (fst e) j) entries)))
      (seq 0 ncols).

(** [m.toarray()], row by row: row [i] holds the stored entries from
    [indptr[i]] up to [indptr[i+1]]. *)
Definition todense (m : Sp.csr_matrix) : list (list Z) :=
  map (fun lo_hi => todense_row (Sp.ncols m)
                      (take (snd lo_hi - fst lo_hi)
                            (drop (fst lo_hi) (zip (Sp.indices m) (Sp.data m)))))
      (zip (Sp.indptr m) (tail (Sp.indptr m))).


(** The two degenerate binomial distributions: with probability 0 nothing
    is drawn, with probability 1 everything is. *)
Class BinomialDegenerate (G : Type) `{RandomState G} : Prop := {
  binomial_never : forall n p g, (p == 0)%Q -> fst (draw_binomial n p g) = 0;
  binomial_always : forall n p g, (p == 1)%Q -> fst (draw_binomial n p g) = n
}.

(** A CSR matrix that stores the dense [rows] the way [sp.vstack] of
    [sp.csr_matrix(row)] builds it: one stored entry per count that is not
    zero, row after row, [indptr] running up to the number of entries. *)
Definition stacked (m : Sp.csr_matrix) (rows : list (list Z)) : Prop :=
  Sp.nrows m = length rows /\
  length (Sp.indices m) = length (Sp.data m) /\
  last (Sp.indptr m) = Some (length (Sp.data m)) /\
  Forall (fun p => (p <= length (Sp.data m))%nat) (Sp.indptr m) /\
  length (Sp.entry_rows (Sp.indptr m)) = length (Sp.data m) /\
  Forall (fun j => (j < Sp.ncols m)%nat) (Sp.indices m) /\
  Forall (Z.lt 0) (Sp.data m) /\
  todense m = rows.

(** The number of fragment columns [np.repeat] makes of the genes. *)
Definition n_fragments_of (repeats : list Z) : nat :=
  sum_list (map Z.to_nat repeats).

(** ** simscity/drug.py: the dose thresholds *)

(** [np.random.normal(loc, scale)], one draw. *)
Class NormalState (G : Type) : Type := {
  draw_normal : R -> R -> G -> R * G
}.

(** What a call of [doses] ends in besides a value: Python's own
    [ZeroDivisionError], or an error raised inside NumPy. *)
Inductive py_exn : Type :=
| ZeroDivisionError
| NumPyError (e : exn).

Module Doses.
Section WithGenerator.
Context {G : Type} `{NormalState G}.

(** [np.linspace(start, stop, num)] for [num >= 0]: [num] evenly spaced
    values from [start] to [stop]; a single value is [start]. *)
Definition linspace (start stop : R) (num : nat) : list R :=
  match num with
  | O => []
  | S O => [start]
  | S (S _) =>
      map (fun i => (start + INR i * ((stop - start) / INR (num - 1)))%R) (seq 0 num)
  end.

(** [x / y] on a Python float and a Python int. *)
Definition float_div (x : R) (y : Z) : py_exn + R :=
  if Z.eqb y 0 then inl ZeroDivisionError else inr (x / IZR y)%R.

(** [np.random.normal(size=size, scale=scale)]. *)
Definition normal (size : nat) (scale : R) : M G (list R) :=
  if Rlt_dec scale 0
  then raise (ValueError "scale < 0")
  else mapM (fun _ : unit => sample (draw_normal 0 scale)) (replicate size tt).

(** [doses(scale, n_conditions)] for [n_conditions >= 0]: the operands of
    [+] are evaluated from left to right, the arguments of
    [np.random.normal] before its call. *)
Definition doses (scale : R) (n_conditions : nat) (g : G) : (py_exn + list R) * G :=
  let base := linspace (-3 * scale) (3 * scale) n_conditions in
  match float_div 1 (Z.of_nat n_conditions ^ 2) with
  | inl e => (inl e, g)
  | inr noise_scale =>
      match normal n_conditions noise_scale g with
      | (inl e, g') => (inl (NumPyError e), g')
      | (inr noise, g') => (inr (zip_with Rplus base noise), g')
      end
  end.

End WithGenerator.
End Doses.

(** The draws of [np.random.normal(size=size, loc=loc, scale=scale)], one
    after the other from the generator [g], and the generator after them. *)
Fixpoint normal_draws {G : Type} `{NormalState G} (size : nat) (loc scale : R) (g : G)
  : list R * G :=
  match size with
  | O => ([], g)
  | S n =>
      let xs := normal_draws n loc scale (snd (draw_normal loc scale g)) in
      (fst (draw_normal loc scale g) :: fst xs, snd xs)
  end.

(** Normal draws of the concrete generator: one of [loc - scale], [loc],
    [loc + scale]. *)
#[global] Instance lcg_normal_state : NormalState Z := {
  draw_normal := fun loc scale g =>
    ((loc + scale * (IZR (g mod 3) - 1))%R, Lcg.next g)
}.

(** * Properties *)

(** ** The monad *)

Lemma bind_ok {S A B : Type} (m : M S A) (k : A -> M S B) s a s' :
  m s = (inr a, s') -> bind m k s = k a s'.
Proof. intros E. unfold bind. rewrite E. reflexivity. Qed.

Lemma bind_raise {S A B : Type} (m : M S A) (k : A -> M S B) s e s' :
  m s = (inl e, s') -> bind m k s = (inl e, s').
Proof. intros E. unfold bind. rewrite E. reflexivity. Qed.

Lemma bind_ext {S A B : Type} (m : M S A) (k k' : A -> M S B) s :
  (forall a s1, k a s1 = k' a s1) -> bind m k s = bind m k' s.
Proof.
  intros Hk. unfold bind. destruct (m s) as [[e|a] s1]; [reflexivity|apply Hk].
Qed.

(** A traversal all of whose steps return, returns; the results are related
    to the arguments as each step relates them. *)
Lemma mapM_ok {S A B : Type} (f : A -> M S B) (P : A -> B -> Prop) (l : list A) :
  forall s,
  (forall a, In a l -> forall s0, exists b s1, f a s0 = (inr b, s1) /\ P a b) ->
  exists out s', mapM f l s = (inr out, s') /\ Forall2 P l out.
Proof.
  induction l as [|x l IH]; intros s Hf.
  - exists [], s. split; [reflexivity|constructor].
  - destruct (Hf x (or_introl eq_refl) s) as (b & s1 & Eb & Pb).
    destruct (IH s1) as (out & s2 & Eo & Po).
    { intros a Ha. apply Hf. right. exact Ha. }
    exists (b :: out), s2. split.
    + cbn [mapM]. rewrite (bind_ok _ _ _ _ _ Eb), (bind_ok _ _ _ _ _ Eo). reflexivity.
    + constructor; assumption.
Qed.

Lemma any_negative_true (l : list Q) :
  Exists (fun x => (x < 0)%Q) l -> Sequencing.any_negative l = true.
Proof.
  intros Hex. unfold Sequencing.any_negative. apply existsb_exists.
  apply Exists_exists in Hex. destruct Hex as (x & Hin & Hx).
  exists x. split; [apply list_elem_of_In, Hin|].
  destruct (Qle_bool 0 x) eqn:E; [|reflexivity].
  apply Qle_bool_iff in E. exfalso. apply (Qlt_not_le _ _ Hx E).
Qed.

Lemma any_negative_false (l : list Q) :
  Forall (fun x => (0 <= x)%Q) l -> Sequencing.any_negative l = false.
Proof.
  intros Hall. unfold Sequencing.any_negative.
  induction Hall as [|x l Hx _ IH]; [reflexivity|].
  cbn [existsb]. rewrite IH.
  apply Qle_bool_iff in Hx. rewrite Hx. reflexivity.
Qed.

(** ** The concrete generator stays inside the supports *)

Lemma lcg_binomial_range n p g : 0 <= n -> 0 <= fst (Lcg.binomial n p g) <= n.
Proof.
  intros Hn. unfold Lcg.binomial. simpl.
  destruct (Qeq_bool p 0); [lia|].
  destruct (Qeq_bool p 1); [lia|].
  pose proof (Z.mod_pos_bound g (n + 1)). lia.
Qed.

Lemma lcg_multinomial_loop_spec pvals : forall dn q g,
  0 <= dn -> pvals <> [] ->
  length (fst (Lcg.multinomial_loop dn q pvals g)) = length pvals /\
  Forall (Z.le 0) (fst (Lcg.multinomial_loop dn q pvals g)) /\
  sumZ (fst (Lcg.multinomial_loop dn q pvals g)) = dn.
Proof.
  induction pvals as [|p rest IH]; intros dn q g Hdn Hne; [congruence|].
  destruct rest as [|p' rest'].
  - simpl. repeat split; [|lia]. constructor; [exact Hdn|constructor].
  - change (Lcg.multinomial_loop dn q (p :: p' :: rest') g)
      with (let kg := Lcg.binomial dn (p / q) g in
            let r := Lcg.multinomial_loop (dn - fst kg) (q - p) (p' :: rest') (snd kg) in
            (fst kg :: fst r, snd r)).
    cbv zeta. cbn [fst].
    pose proof (lcg_binomial_range dn (p / q) g Hdn) as Hk.
    destruct (IH (dn - fst (Lcg.binomial dn (p / q) g)) (q - p)%Q
                 (snd (Lcg.binomial dn (p / q) g))) as (Hl & Hf & Hs);
      [lia|congruence|].
    repeat split.
    + cbn [length]. rewrite Hl. reflexivity.
    + constructor; [lia|exact Hf].
    + cbn [sumZ foldr]. fold (sumZ (fst (Lcg.multinomial_loop
        (dn - fst (Lcg.binomial dn (p / q) g)) (q - p) (p' :: rest')
        (snd (Lcg.binomial dn (p / q) g))))). rewrite Hs. lia.
Qed.

#[global] Instance lcg_laws : RandomStateLaws Z.
Proof.
  split.
  - intros n p g Hn _ _. apply lcg_binomial_range, Hn.
  - intros lam g _. cbn. destruct (Qeq_bool lam 0); [lia|].
    pose proof (Z.mod_pos_bound g 4). lia.
  - intros lam g Hlam. cbn. apply Qeq_bool_iff in Hlam. rewrite Hlam. reflexivity.
  - intros n pvals g Hn Hne _ _. apply lcg_multinomial_loop_spec; assumption.
  - intros a b loc scale g Hab Hs. cbn.
    destruct a, b; cbn in *; try tauto; try lra; nra.
Qed.

(** ** Validation in [umi_counts] *)

Section Validation.
Context {G : Type} `{RandomState G}.

(** C10: the sign check comes first, so on a 1-D [raw_expression] holding a
    negative value [umi_counts] raises "raw_expression must be non-negative"
    and not the dimensionality error. *)
Theorem umi_counts_sign_check_first
  (raw_expression : Np.ndarray Q) (lib_size : option (Np.ndarray Z))
  (fragments_per_gene : Np.ndarray Z) (sparse : bool) (g : G) :
  length (Np.shape raw_expression) = 1%nat ->
  Exists (fun x => (x < 0)%Q) (Np.flat raw_expression) ->
  Sequencing.umi_counts raw_expression lib_size fragments_per_gene sparse g
  = (inl (ValueError "raw_expression must be non-negative"), g).
Proof.
  intros _ Hneg. unfold Sequencing.umi_counts.
  rewrite (any_negative_true _ Hneg). reflexivity.
Qed.

(** C4, as the code has it: on a 1-D [raw_expression] without negative
    values [umi_counts] raises the dimensionality error, and the generator
    is left where it was: nothing has been sampled. *)
Theorem umi_counts_rejects_one_axis
  (raw_expression : Np.ndarray Q) (lib_size : option (Np.ndarray Z))
  (fragments_per_gene : Np.ndarray Z) (sparse : bool) (g : G) :
  length (Np.shape raw_expression) = 1%nat ->
  Forall (fun x => (0 <= x)%Q) (Np.flat raw_expression) ->
  Sequencing.umi_counts raw_expression lib_size fragments_per_gene sparse g
  = (inl (ValueError "raw_expression should be >= 2 dimensions"), g).
Proof.
  intros Hdim Hpos. unfold Sequencing.umi_counts.
  rewrite (any_negative_false _ Hpos), Hdim. reflexivity.
Qed.

(** C5: a negative efficiency is rejected before anything is copied or
    written: store and generator are those of the call. *)
Theorem pcr_noise_rejects_negative_betas
  (h : gmap nat Sequencing.obj) (g : G) (read_counts : nat)
  (pcr_betas : Np.ndarray Q) (n_cycles : Z) (copy : bool) :
  Exists (fun b => (b < 0)%Q) (Np.flat pcr_betas) ->
  Sequencing.pcr_noise read_counts pcr_betas n_cycles copy (h, g)
  = (inl (ValueError "pcr_betas must be non-negative"), (h, g)).
Proof.
  intros Hneg. unfold Sequencing.pcr_noise.
  rewrite (any_negative_true _ Hneg). reflexivity.
Qed.

End Validation.

Lemma umi_counts_sign_check_first_witness :
  Sequencing.umi_counts (Np.mk_ndarray [4%nat] [1; -1; 2; 3]%Q)
    (Some (Np.scalar 5)) (Np.scalar 1) false (0 : Z)
  = (inl (ValueError "raw_expression must be non-negative"), 0).
Proof.
  apply umi_counts_sign_check_first; [reflexivity|].
  apply Exists_cons_tl, Exists_cons_hd. reflexivity.
Defined.

Lemma umi_counts_rejects_one_axis_witness :
  Sequencing.umi_counts (Np.mk_ndarray [4%nat] [1; 0; 2; 3]%Q)
    (Some (Np.scalar 5)) (Np.scalar 1) false (0 : Z)
  = (inl (ValueError "raw_expression should be >= 2 dimensions"), 0).
Proof.
  apply umi_counts_rejects_one_axis; [reflexivity|].
  repeat constructor; discriminate.
Defined.

(** C4 as stated fails: a 1-D array holding a negative value is rejected by
    the sign check, not by the dimensionality check. *)
Lemma umi_counts_one_axis_negative_counterexample :
  fst (Sequencing.umi_counts (Np.mk_ndarray [4%nat] [1; -1; 2; 3]%Q)
         (Some (Np.scalar 5)) (Np.scalar 1) false (0 : Z))
  <> inl (ValueError "raw_expression should be >= 2 dimensions").
Proof. vm_compute. discriminate. Qed.

(** A 0-D array passes both checks and fails at [shape[-1]]. *)
Example umi_counts_zero_axes :
  fst (Sequencing.umi_counts (Np.scalar (3 # 1)%Q)
         (Some (Np.scalar 5)) (Np.scalar 1) false (0 : Z))
  = inl (IndexError "tuple index out of range").
Proof. vm_compute. reflexivity. Qed.

Lemma pcr_noise_rejects_negative_betas_witness :
  Sequencing.pcr_noise 0%nat (Np.mk_ndarray [2%nat] [1 # 2; - (1 # 4)]%Q) 3 false
    ({[ 0%nat := Sequencing.Ndarray (Np.mk_ndarray [1%nat; 2%nat] [2; 3]) ]}, 0 : Z)
  = (inl (ValueError "pcr_betas must be non-negative"),
     ({[ 0%nat := Sequencing.Ndarray (Np.mk_ndarray [1%nat; 2%nat] [2; 3]) ]}, 0)).
Proof.
  apply pcr_noise_rejects_negative_betas.
  apply Exists_cons_tl, Exists_cons_hd. reflexivity.
Defined.

(** ** The samplers of the pipeline *)

Lemma Forall2_replicate_r {A B : Type} (P : B -> Prop) (x : A) (n : nat) (out : list B) :
  Forall2 (fun _ b => P b) (replicate n x) out -> length out = n /\ Forall P out.
Proof.
  revert out. induction n as [|n IH]; intros out Hf;
    inversion Hf as [|? ? ? ? Hhd Htl]; subst.
  - split; [reflexivity|constructor].
  - destruct (IH _ Htl) as [Hl Ha]. split; [cbn; congruence|constructor; assumption].
Qed.

Lemma Int_part_nonneg (r : R) : (0 <= r)%R -> 0 <= Int_part r.
Proof.
  intros Hr. destruct (base_Int_part r) as [_ Hlo].
  assert (Hlt : (IZR (-1) < IZR (Int_part r))%R) by (simpl; lra).
  apply lt_IZR in Hlt. lia.
Qed.

Lemma exp_le (x y : R) : (x <= y)%R -> (exp x <= exp y)%R.
Proof.
  intros [Hlt | ->]; [left; apply exp_increasing, Hlt | right; reflexivity].
Qed.

(** The cast of an exponential is its integer part. *)
Lemma astype_int_exp (x : R) : astype_int (exp x) = Int_part (exp x).
Proof.
  unfold astype_int. pose proof (exp_pos x) as Hpos.
  destruct (Rle_dec 0 (exp x)) as [_|Hn]; [reflexivity|lra].
Qed.

Section Samplers.
Context {G : Type} `{RandomStateLaws G}.


(** [truncnorm.rvs] returns for [a < b] and a non-negative [scale], one draw
    per cell, each inside the truncation interval. *)
Lemma truncnorm_rvs_returns (a b : ebound) (loc scale : R) (size : list nat) (g : G) :
  eb_lt a b -> (0 <= scale)%R ->
  exists xs g',
    Sequencing.truncnorm_rvs a b loc scale size g = (inr xs, g') /\
    length xs = Np.size_of size /\
    Forall (fun x => above a loc scale x /\ below b loc scale x) xs.
Proof.
  intros Hab Hs. unfold Sequencing.truncnorm_rvs.
  destruct (eb_lt_dec a b) as [_|Hn]; [|contradiction].
  destruct (Rlt_dec scale 0) as [Hn|_]; [lra|].
  destruct (Req_dec_T scale 0) as [->|Hne].
  - eexists _, g. split; [reflexivity|]. split; [apply length_replicate|].
    apply Forall_replicate.
    destruct a, b; cbn in *; try tauto; split; lra.
  - destruct (mapM_ok
                (fun _ : unit => sample (draw_truncnorm a b loc scale))
                (fun _ x => above a loc scale x /\ below b loc scale x)
                (replicate (Np.size_of size) tt) g) as (xs & g' & E & Hall).
    { intros _ _ s0. eexists _, _. split; [reflexivity|].
      apply truncnorm_support; [assumption|lra]. }
    apply Forall2_replicate_r in Hall. exists xs, g'. tauto.
Qed.


End Samplers.


(** C8 as stated fails: NumPy's Poisson sampler refuses a [lam] above
    [9.223372006484771e+18], so [fragment_genes(3, 1e19)] has no output. *)
Lemma fragment_genes_lam_too_large_counterexample :
  (0 <= 10000000000000000000 # 1)%Q /\
  Sequencing.fragment_genes 3 (10000000000000000000 # 1) (0 : Z)
  = (inl (ValueError "lam value too large"), 0 : Z).
Proof. split; [discriminate|vm_compute; reflexivity]. Qed.

(** The scenario of the specification: [fragment_genes(5, 0)] is all ones. *)
Example fragment_genes_lam_zero :
  fst (Sequencing.fragment_genes 5 0 (0 : Z)) = inr [1; 1; 1; 1; 1].
Proof. vm_compute. reflexivity. Qed.






(** ** Shapes, rows and broadcasting *)

Lemma sequence_Some {A : Type} (os : list (option A)) (l : list A) :
  Np.sequence os = Some l -> Forall2 (fun o x => o = Some x) os l.
Proof.
  revert l. induction os as [|[x|] os IH]; intros l E; cbn in E.
  - injection E as <-. constructor.
  - destruct (Np.sequence os) as [r|]; [|discriminate].
    injection E as <-. constructor; [reflexivity|apply IH; reflexivity].
  - discriminate.
Qed.

Lemma sequence_map_Some {A : Type} (l : list A) : Np.sequence (map Some l) = Some l.
Proof. induction l as [|x l IH]; cbn; [|rewrite IH]; reflexivity. Qed.

Lemma sequence_map_inv {A B : Type} (f : A -> option B) (P : B -> Prop)
  (l : list A) (r : list B) :
  Np.sequence (map f l) = Some r -> (forall a b, f a = Some b -> P b) ->
  length r = length l /\ Forall P r.
Proof.
  intros E Hf. apply sequence_Some in E. revert r E.
  induction l as [|a l IH]; intros r E;
    inversion E as [|? ? ? ? Hhd Htl]; subst.
  - split; [reflexivity|constructor].
  - destruct (IH _ Htl) as [Hl Hall].
    split; [cbn; rewrite Hl; reflexivity|].
    constructor; [eapply Hf; eassumption|exact Hall].
Qed.

Lemma length_chunks {A : Type} (k n : nat) (l : list A) : length (Np.chunks k n l) = n.
Proof. revert l. induction n as [|n IH]; intros l; cbn; [|rewrite IH]; reflexivity. Qed.

Lemma chunks_full {A : Type} (k n : nat) (l : list A) :
  length l = (n * k)%nat -> Forall (fun c => length c = k) (Np.chunks k n l).
Proof.
  revert l. induction n as [|n IH]; intros l Hl; cbn; constructor.
  - rewrite length_take. lia.
  - apply IH. rewrite length_drop. lia.
Qed.

Lemma chunks_concat {A : Type} (k : nat) (ls : list (list A)) :
  Forall (fun c => length c = k) ls -> Np.chunks k (length ls) (concat ls) = ls.
Proof.
  induction 1 as [|c ls Hc _ IH]; [reflexivity|].
  cbn. rewrite take_app_length' by (symmetry; exact Hc).
  rewrite drop_app_length' by (symmetry; exact Hc). rewrite IH. reflexivity.
Qed.

Lemma length_concat_uniform {A : Type} (k : nat) (ls : list (list A)) :
  Forall (fun c => length c = k) ls -> length (concat ls) = (length ls * k)%nat.
Proof.
  induction 1 as [|c ls Hc _ IH]; [reflexivity|].
  cbn. rewrite length_app, IH, Hc. reflexivity.
Qed.

Lemma broadcast_aligned_length {A : Type} (src : list nat) :
  forall (dst : list nat) (l r : list A),
  Np.broadcast_aligned src dst l = Some r -> length r = Np.size_of dst.
Proof.
  induction src as [|s src IH]; intros [|d dst] l r E; cbn in E; try discriminate.
  - destruct l as [|x [|]]; try discriminate. injection E as <-. reflexivity.
  - destruct (Np.sequence _) as [bs|] eqn:Es; [|discriminate].
    destruct (sequence_map_inv (Np.broadcast_aligned src dst)
                (fun b => length b = Np.size_of dst) _ _ Es (IH dst)) as [Hlen Hall].
    rewrite length_chunks in Hlen.
    cbn [Np.size_of foldr].
    fold (Np.size_of dst).
    destruct (Nat.eqb_spec s d) as [->|Hsd].
    + injection E as <-. rewrite (length_concat_uniform _ _ Hall), Hlen. reflexivity.
    + destruct (Nat.eqb_spec s 1) as [->|]; [|discriminate].
      injection E as <-.
      rewrite (length_concat_uniform (Np.size_of dst)).
      * rewrite (length_concat_uniform 1%nat), length_replicate; [lia|].
        apply Forall_replicate. exact Hlen.
      * apply Forall_concat, Forall_replicate. exact Hall.
Qed.

Lemma broadcast_to_length {A : Type} (a : Np.ndarray A) (dst : list nat) (r : list A) :
  Np.broadcast_to a dst = Some r -> length r = Np.size_of dst.
Proof.
  unfold Np.broadcast_to. destruct (Nat.leb _ _); [|discriminate].
  apply broadcast_aligned_length.
Qed.

Lemma size_of_app (s t : list nat) :
  Np.size_of (s ++ t) = (Np.size_of s * Np.size_of t)%nat.
Proof.
  unfold Np.size_of. induction s as [|n s IH]; cbn [foldr app]; [lia|].
  rewrite IH. lia.
Qed.

(** A shape with at least one axis is its leading axes followed by the
    trailing one. *)
Lemma shape_split (s : list nat) :
  s <> [] -> exists n, Np.trailing s = Some n /\ s = Np.leading s ++ [n].
Proof.
  intros Hs. destruct (exists_last Hs) as (s' & n & ->).
  exists n. unfold Np.trailing, Np.leading.
  rewrite last_snoc, removelast_last. split; reflexivity.
Qed.

(** The rows of a well-formed array all have the length of the last axis. *)
Lemma rows_full {A : Type} (a : Np.ndarray A) (n : nat) :
  Np.wf a -> Np.shape a = Np.leading (Np.shape a) ++ [n] ->
  Forall (fun row => length row = n) (Np.rows a n).
Proof.
  intros Hwf Hs. unfold Np.rows. apply chunks_full.
  unfold Np.wf in Hwf. rewrite Hwf. rewrite Hs at 1.
  rewrite size_of_app. cbn. lia.
Qed.

(** ** Sums of expression values *)

Lemma sumQ_app (a b : list Q) : (sumQ (a ++ b) == sumQ a + sumQ b)%Q.
Proof.
  unfold sumQ. induction a as [|x a IH]; cbn [foldr app]; [ring|].
  rewrite IH. ring.
Qed.

Lemma sumQ_nonneg (l : list Q) :
  Forall (fun x => (0 <= x)%Q) l -> (0 <= sumQ l)%Q.
Proof.
  unfold sumQ. induction 1 as [|x l Hx _ IH]; cbn [foldr]; [apply Qle_refl|].
  lra.
Qed.

Lemma sumQ_elem_le (l : list Q) (x : Q) :
  Forall (fun x => (0 <= x)%Q) l -> In x l -> (x <= sumQ l)%Q.
Proof.
  intros Hall. induction Hall as [|y l Hy Hl IH]; intros Hin; [destruct Hin|].
  pose proof (sumQ_nonneg l Hl) as Hs. unfold sumQ in *. cbn [foldr].
  destruct Hin as [->|Hin]; [|specialize (IH Hin)]; lra.
Qed.

Lemma sumQ_removelast_le (l : list Q) :
  Forall (fun x => (0 <= x)%Q) l -> (sumQ (removelast l) <= sumQ l)%Q.
Proof.
  induction 1 as [|x l Hx Hl IH]; [apply Qle_refl|].
  destruct l as [|y l]; [cbn; lra|].
  change (removelast (x :: y :: l)) with (x :: removelast (y :: l)).
  unfold sumQ in *. cbn [foldr] in *. lra.
Qed.

Lemma sumQ_map_div (l : list Q) (s : Q) :
  (sumQ (map (fun x => x / s) l) == sumQ l / s)%Q.
Proof.
  unfold sumQ, Qdiv. induction l as [|x l IH]; cbn [foldr map]; [ring|].
  rewrite IH. ring.
Qed.

Lemma sumQ_replicate_ge (x : Q) (k : nat) :
  (0 <= x)%Q -> (1 <= k)%nat -> (x <= sumQ (replicate k x))%Q.
Proof.
  intros Hx Hk. destruct k as [|k]; [lia|].
  pose proof (sumQ_nonneg (replicate k x)) as Hs.
  unfold sumQ in *. cbn [replicate foldr].
  assert (0 <= foldr Qplus 0 (replicate k x))%Q
    by (apply Hs, Forall_replicate, Hx).
  lra.
Qed.

Lemma repeat_row_nonneg (row : list Q) (repeats : list nat) :
  Forall (fun x => (0 <= x)%Q) row ->
  Forall (fun x => (0 <= x)%Q) (Np.repeat_row row repeats).
Proof.
  intros Hrow. revert repeats. unfold Np.repeat_row.
  induction Hrow as [|x row Hx _ IH]; intros [|k repeats]; cbn; try constructor.
  apply Forall_app. split; [apply Forall_replicate, Hx|apply IH].
Qed.

(** Repeating every gene at least once does not lower the total of a row. *)
Lemma repeat_row_sum_ge (row : list Q) (repeats : list nat) :
  Forall (fun x => (0 <= x)%Q) row ->
  Forall (fun k => (1 <= k)%nat) repeats ->
  (length row <= length repeats)%nat ->
  (sumQ row <= sumQ (Np.repeat_row row repeats))%Q.
Proof.
  intros Hrow. revert repeats. unfold Np.repeat_row.
  induction Hrow as [|x row Hx _ IH]; intros repeats Hrep Hlen.
  - cbn. apply Qle_refl.
  - destruct Hrep as [|k repeats Hk Hrep]; [cbn in Hlen; lia|].
    cbn [zip_with concat]. rewrite sumQ_app.
    pose proof (sumQ_replicate_ge x k Hx Hk) as H1.
    assert (H2 : (sumQ row <= sumQ (concat (zip_with (fun x k => replicate k x) row repeats)))%Q)
      by (apply IH; [exact Hrep|cbn in Hlen; lia]).
    change (sumQ (x :: row)) with (x + sumQ row)%Q. lra.
Qed.

Lemma Forall_chunks {A : Type} (P : A -> Prop) (k n : nat) (l : list A) :
  Forall P l -> Forall (Forall P) (Np.chunks k n l).
Proof.
  revert l. induction n as [|n IH]; intros l Hl; cbn; constructor.
  - apply Forall_take, Hl.
  - apply IH, Forall_drop, Hl.
Qed.

Lemma repeat_row_length {A : Type} (row : list A) (repeats : list nat) :
  length (Np.repeat_row row repeats) = sum_list (take (length row) repeats).
Proof.
  revert repeats. unfold Np.repeat_row.
  induction row as [|x row IH]; intros [|k repeats]; cbn; try reflexivity.
  rewrite length_app, length_replicate, IH. reflexivity.
Qed.

Lemma is_probability_all (ps : list Q) :
  Forall (fun p => (0 <= p)%Q /\ (p <= 1)%Q) ps ->
  forallb NpRandom.is_probability ps = true.
Proof.
  induction 1 as [|p ps [Hlo Hhi] _ IH]; [reflexivity|].
  cbn [forallb]. rewrite IH. unfold NpRandom.is_probability.
  apply Qle_bool_iff in Hlo, Hhi. rewrite Hlo, Hhi. reflexivity.
Qed.

(** Normalising a row of total above zero gives probabilities NumPy accepts. *)
Lemma normalize_probabilities (row : list Q) :
  Forall (fun x => (0 <= x)%Q) row -> (0 < sumQ row)%Q ->
  Sequencing.normalize row = map Some (map (fun x => x / sumQ row)%Q row) /\
  Forall (fun p => (0 <= p)%Q /\ (p <= 1)%Q) (map (fun x => x / sumQ row)%Q row) /\
  (sumQ (removelast (map (fun x => x / sumQ row)%Q row)) <= 1 + pvals_tolerance)%Q.
Proof.
  intros Hrow Hs. split; [|split].
  - unfold Sequencing.normalize. rewrite map_map.
    destruct (Qeq_bool (sumQ row) 0) eqn:E; [|reflexivity].
    apply Qeq_bool_iff in E. lra.
  - apply Forall_map, Forall_forall. intros x Hx. apply list_elem_of_In in Hx.
    pose proof (sumQ_elem_le row x Hrow Hx) as Hle.
    rewrite Forall_forall in Hrow. apply list_elem_of_In in Hx.
    specialize (Hrow x Hx). cbn. split.
    + apply Qle_shift_div_l; [exact Hs|lra].
    + apply Qle_shift_div_r; [exact Hs|lra].
  - assert (Hps : Forall (fun p => (0 <= p)%Q) (map (fun x => x / sumQ row)%Q row)).
    { apply Forall_map. eapply Forall_impl; [exact Hrow|].
      cbn. intros x Hx. apply Qle_shift_div_l; [exact Hs|lra]. }
    apply sumQ_removelast_le in Hps.
    assert (Hone : (sumQ (map (fun x => x / sumQ row) row) == 1)%Q).
    { rewrite sumQ_map_div. unfold Qdiv. apply Qmult_inv_r. lra. }
    unfold pvals_tolerance. rewrite Hone in Hps.
    eapply Qle_trans; [exact Hps|]. unfold Qle. cbn. lia.
Qed.

Section Cells.
Context {G : Type} `{RandomStateLaws G}.

(** One cell: the multinomial draw over the normalised row returns, with one
    count per fragment and the library size as total. *)
Lemma cell_draw (n : Z) (row : list Q) (g : G) :
  0 <= n -> Forall (fun x => (0 <= x)%Q) row -> (0 < sumQ row)%Q ->
  exists out g',
    NpRandom.multinomial n (Sequencing.normalize row) g = (inr out, g') /\
    length out = length row /\ sumZ out = n.
Proof.
  intros Hn Hrow Hs.
  destruct (normalize_probabilities row Hrow Hs) as (-> & Hp & Hsum).
  set (ps := map (fun x => (x / sumQ row)%Q) row) in *.
  assert (Hne : ps <> []).
  { subst ps. destruct row; [cbn in Hs; lra|discriminate]. }
  destruct (multinomial_support n ps g Hn Hne Hp Hsum) as (Hlen & _ & Htot).
  exists (fst (draw_multinomial n ps g)), (snd (draw_multinomial n ps g)).
  split; [|split; [rewrite Hlen; subst ps; apply length_map|exact Htot]].
  unfold NpRandom.multinomial. rewrite sequence_map_Some.
  rewrite (is_probability_all ps Hp). cbn [negb].
  apply Qle_bool_iff in Hsum. rewrite Hsum. cbn [negb].
  destruct (Z.ltb_spec n 0); [lia|]. reflexivity.
Qed.

End Cells.

(** ** [umi_counts] *)

(** The outputs of a traversal over paired arguments, read against the
    first components when no argument was dropped by the pairing. *)
Lemma Forall2_zip_fst {A B C : Type} (P : A -> C -> Prop) (Q : C -> Prop)
  (xs : list A) (ys : list B) (outs : list C) :
  Forall2 (fun xy out => Q out /\ P (fst xy) out) (zip xs ys) outs ->
  length xs = length ys ->
  Forall Q outs /\ Forall2 (fun out x => P x out) outs xs.
Proof.
  revert ys outs. induction xs as [|x xs IH]; intros [|y ys] outs Hf Hlen;
    cbn in Hlen; try discriminate;
    inversion Hf as [|? ? ? ? Hhd Htl]; subst.
  - split; constructor.
  - destruct Hhd as [Hq Hp]. destruct (IH ys _ Htl) as [Hqs Hps]; [lia|].
    split; constructor; assumption.
Qed.

Section UmiCounts.
Context {G : Type} `{RandomStateLaws G}.

(** C1, as the code has it: on a non-negative [raw_expression] with at least
    two axes and at least one cell, every cell of positive total expression,
    [fragments_per_gene] at least 1 and every explicit library size at least
    0, the dense output of [umi_counts] has the cell shape followed by the
    fragment axis, and each of its rows sums to the library size assigned to
    its cell. *)
Theorem umi_counts_rows_sum_to_lib_size
  (raw_expression : Np.ndarray Q) (lib_size : option (Np.ndarray Z))
  (fragments_per_gene : Np.ndarray Z) (n_genes : nat) (repeats : list Z) (g : G) :
  Np.wf raw_expression ->
  (2 <= length (Np.shape raw_expression))%nat ->
  Np.trailing (Np.shape raw_expression) = Some n_genes ->
  Forall (fun x => (0 <= x)%Q) (Np.flat raw_expression) ->
  (0 < Np.size_of (Np.leading (Np.shape raw_expression)))%nat ->
  Forall (fun row => (0 < sumQ row)%Q) (Np.rows raw_expression n_genes) ->
  Np.broadcast_to fragments_per_gene [n_genes] = Some repeats ->
  Forall (Z.le 1) repeats ->
  (forall l, lib_size = Some l ->
     exists sizes, Np.broadcast_to l (Np.leading (Np.shape raw_expression)) = Some sizes /\
                   Forall (Z.le 0) sizes) ->
  exists sizes n_fragments out g',
    assigned_sizes (Np.leading (Np.shape raw_expression)) lib_size g sizes /\
    Sequencing.umi_counts raw_expression lib_size fragments_per_gene false g
      = (inr (Dense out), g') /\
    Np.shape out = Np.leading (Np.shape raw_expression) ++ [n_fragments] /\
    Forall2 (fun row n => sumZ row = n) (Np.rows out n_fragments) sizes.
Proof.
  intros Hwf Hdim Hlast Hpos Hcells Hrows Hrep Hrep1 Hlib.
  set (n_cells := Np.leading (Np.shape raw_expression)) in *.
  (* the library sizes *)
  assert (Hsizes : exists sizes g1,
    assigned_sizes n_cells lib_size g sizes /\
    match lib_size with
    | None => do s <- Sequencing.library_size_default n_cells; ret (Np.flat s)
    | Some l => of_option (ValueError "operands could not be broadcast together")
                  (Np.broadcast_to l n_cells)
    end g = (inr sizes, g1) /\
    length sizes = Np.size_of n_cells /\ Forall (Z.le 0) sizes).
  { destruct lib_size as [l|].
    - destruct (Hlib l eq_refl) as (sizes & Hb & Hs0).
      exists sizes, g. cbn. rewrite Hb. repeat split; try assumption.
      eapply broadcast_to_length, Hb.
    - destruct (truncnorm_rvs_returns (Fin (-1)) PosInf (15 / 2) (1 / 2) n_cells g)
        as (xs & g1 & E & Hl & _); [exact I|lra|].
      assert (El : Sequencing.library_size_default n_cells g
                   = (inr (Np.mk_ndarray n_cells
                             (map (fun x => astype_int (exp x)) xs)), g1)).
      { unfold Sequencing.library_size_default, Sequencing.library_size.
        rewrite (bind_ok _ _ _ _ _ E). reflexivity. }
      exists (map (fun x => astype_int (exp x)) xs), g1.
      split; [exists g1; exact El|]. split; [|split].
      + rewrite (bind_ok _ _ _ _ _ El). reflexivity.
      + rewrite length_map. exact Hl.
      + apply Forall_map, Forall_forall. intros x _. cbn.
        rewrite astype_int_exp. apply Int_part_nonneg.
        pose proof (exp_pos x). lra. }
  destruct Hsizes as (sizes & g1 & Hassigned & Esizes & Hlen & Hs0).
  (* the rows of the expression array and their expansion *)
  destruct (shape_split (Np.shape raw_expression)) as (n & Hn & Hshape).
  { intros E. rewrite E in Hdim. cbn in Hdim. lia. }
  rewrite Hlast in Hn. injection Hn as <-.
  pose proof (rows_full raw_expression n_genes Hwf Hshape) as Hfull.
  pose proof (Forall_chunks _ n_genes (Np.size_of n_cells) _ Hpos) as Hnonneg.
  fold (Np.rows raw_expression n_genes) in Hnonneg.
  pose proof (broadcast_to_length _ _ _ Hrep) as Hreplen. cbn in Hreplen.
  set (reps := map Z.to_nat repeats).
  set (n_fragments := sum_list (take n_genes reps)).
  set (expanded := map (fun row => Np.repeat_row row reps) (Np.rows raw_expression n_genes)).
  assert (Hexp : Forall (fun row => length row = n_fragments /\
                                    Forall (fun x => (0 <= x)%Q) row /\
                                    (0 < sumQ row)%Q) expanded).
  { subst expanded. apply Forall_map.
    assert (Hall : Forall (fun row => length row = n_genes /\
                                      Forall (fun x => (0 <= x)%Q) row /\
                                      (0 < sumQ row)%Q) (Np.rows raw_expression n_genes))
      by (repeat (apply Forall_and; split); assumption).
    eapply Forall_impl; [exact Hall|]. cbn. intros row (Hl & Hr & Hs).
    split; [|split].
    - rewrite repeat_row_length, Hl. reflexivity.
    - apply repeat_row_nonneg, Hr.
    - eapply Qlt_le_trans; [exact Hs|]. apply repeat_row_sum_ge; [exact Hr| |].
      + subst reps. apply Forall_map. eapply Forall_impl; [exact Hrep1|].
        cbn. intros k Hk. lia.
      + subst reps. rewrite length_map, Hl. lia. }
  (* one multinomial draw per cell *)
  destruct (mapM_ok (fun np => NpRandom.multinomial (fst np) (snd np))
              (fun np out => length out = n_fragments /\ sumZ out = fst np)
              (zip sizes (map Sequencing.normalize expanded)) g1)
    as (outs & g2 & Eouts & Hf).
  { intros [n p] Hin s0. apply list_elem_of_In in Hin.
    pose proof (elem_of_zip_l _ _ _ _ Hin) as Hn.
    pose proof (elem_of_zip_r _ _ _ _ Hin) as Hp.
    apply list_elem_of_fmap in Hp. destruct Hp as (row & -> & Hrow).
    rewrite Forall_forall in Hs0. rewrite Forall_forall in Hexp.
    destruct (Hexp row Hrow) as (Hl & Hr & Hs).
    destruct (cell_draw n row s0 (Hs0 n Hn) Hr Hs) as (out & s1 & E & Hlo & Hso).
    exists out, s1. cbn [fst snd]. repeat split; [exact E|congruence|exact Hso]. }
  apply (Forall2_zip_fst (fun n out => sumZ out = n)
           (fun out => length out = n_fragments)) in Hf as [Hlens Hsums].
  2:{ subst expanded. rewrite !length_map. unfold Np.rows.
      rewrite length_chunks. exact Hlen. }
  assert (Houts : length outs = Np.size_of n_cells)
    by (rewrite (Forall2_length _ _ _ Hsums); exact Hlen).
  destruct outs as [|r outs]; [cbn in Houts; lia|].
  exists sizes, n_fragments, (Np.mk_ndarray (n_cells ++ [length r]) (concat (r :: outs))), g2.
  assert (Hr : length r = n_fragments) by (inversion Hlens; assumption).
  split; [exact Hassigned|]. split; [|split].
  - unfold Sequencing.umi_counts.
    rewrite (any_negative_false _ Hpos).
    destruct (Nat.eqb_spec (length (Np.shape raw_expression)) 1) as [E1|_]; [lia|].
    fold n_cells. rewrite Hlast. cbn [of_option].
    unfold bind at 1. cbn [ret].
    rewrite (bind_ok _ _ _ _ _ Esizes).
    rewrite Hrep. cbn [of_option]. unfold bind at 1. cbn [ret].
    unfold Sequencing.np_repeat.
    assert (Hneg : existsb (fun k => k <? 0) repeats = false).
    { clear -Hrep1. induction Hrep1 as [|k l Hk _ IH]; [reflexivity|].
      cbn [existsb]. rewrite IH. destruct (Z.ltb_spec k 0); [lia|reflexivity]. }
    rewrite Hneg. unfold bind at 1. cbn [ret].
    fold reps. fold expanded. rewrite (bind_ok _ _ _ _ _ Eouts).
    reflexivity.
  - cbn [Np.shape]. rewrite Hr. reflexivity.
  - unfold Np.rows. cbn [Np.shape Np.flat]. unfold Np.leading.
    rewrite removelast_last. fold n_cells. rewrite <- Houts.
    rewrite (chunks_concat _ _ Hlens). exact Hsums.
Qed.

End UmiCounts.

Lemma umi_counts_rows_sum_to_lib_size_witness :
  exists sizes n_fragments out g',
    assigned_sizes [2%nat] (Some (Np.scalar 5)) (0 : Z) sizes /\
    Sequencing.umi_counts (Np.mk_ndarray [2%nat; 2%nat] [1; 3; 2; 2]%Q)
      (Some (Np.scalar 5)) (Np.scalar 1) false (0 : Z) = (inr (Dense out), g') /\
    Np.shape out = [2%nat] ++ [n_fragments] /\
    Forall2 (fun row n => sumZ row = n) (Np.rows out n_fragments) sizes.
Proof.
  apply (umi_counts_rows_sum_to_lib_size
           (Np.mk_ndarray [2%nat; 2%nat] [1; 3; 2; 2]%Q)
           (Some (Np.scalar 5)) (Np.scalar 1) 2 [1; 1] (0 : Z)).
  - reflexivity.
  - simpl. lia.
  - reflexivity.
  - repeat constructor; discriminate.
  - simpl. lia.
  - repeat constructor.
  - reflexivity.
  - repeat constructor; lia.
  - intros l [= <-]. exists [5; 5]. split; [reflexivity|repeat constructor; lia].
Defined.

(** The same call evaluated: two fragments per cell, five molecules each. *)
Example umi_counts_two_cells :
  exists a, fst (Sequencing.umi_counts (Np.mk_ndarray [2%nat; 2%nat] [1; 3; 2; 2]%Q)
                   (Some (Np.scalar 5)) (Np.scalar 1) false (0 : Z)) = inr (Dense a) /\
            map sumZ (Np.rows a 2) = [5; 5].
Proof. eexists. split; vm_compute; reflexivity. Qed.

(** C1 as stated fails: a cell without expression has NaN probabilities,
    which [np.random.multinomial] rejects, so there is no output at all. *)
Lemma umi_counts_zero_row_counterexample :
  fst (Sequencing.umi_counts (Np.mk_ndarray [1%nat; 2%nat] [0; 0]%Q)
         (Some (Np.scalar 5)) (Np.scalar 1) false (0 : Z))
  = inl (ValueError "pvals < 0, pvals > 1 or pvals contains NaNs").
Proof. vm_compute. reflexivity. Qed.

(** ** Broadcasting for the binomial draws *)

Lemma concat_chunks {A : Type} (k n : nat) (l : list A) :
  length l = (n * k)%nat -> concat (Np.chunks k n l) = l.
Proof.
  revert l. induction n as [|n IH]; intros l Hl; cbn.
  - destruct l; [reflexivity|discriminate].
  - rewrite IH by (rewrite length_drop; lia). apply take_drop.
Qed.

Lemma sequence_all_Some {A B : Type} (f : A -> option B) (l : list A) (r : list B) :
  Forall2 (fun a b => f a = Some b) l r -> Np.sequence (map f l) = Some r.
Proof.
  induction 1 as [|a b l r E _ IH]; cbn; [reflexivity|].
  rewrite E, IH. reflexivity.
Qed.

(** Broadcasting to the shape the data already has changes nothing. *)
Lemma broadcast_aligned_id {A : Type} (s : list nat) :
  forall l : list A, length l = Np.size_of s -> Np.broadcast_aligned s s l = Some l.
Proof.
  induction s as [|n s IH]; intros l Hl.
  - destruct l as [|x [|]]; try discriminate. reflexivity.
  - cbn [Np.broadcast_aligned].
    change (Np.size_of (n :: s)) with (n * Np.size_of s)%nat in Hl.
    rewrite (sequence_all_Some _ _ (Np.chunks (Np.size_of s) n l)).
    + rewrite Nat.eqb_refl, concat_chunks by exact Hl. reflexivity.
    + apply Forall2_same_length_lookup_2; [reflexivity|].
      intros i c c' Hc Hc'. rewrite Hc in Hc'. injection Hc' as <-.
      apply IH. pose proof (chunks_full _ _ _ Hl) as Hfull.
      rewrite Forall_forall in Hfull. apply Hfull.
      eapply list_elem_of_lookup_2, Hc.
Qed.

(** A row vector against a matrix of as many columns: one copy per row. *)
Lemma broadcast_aligned_row {A : Type} (s : list nat) (d : nat) (l : list A) :
  length l = Np.size_of s ->
  Np.broadcast_aligned (1%nat :: s) (d :: s) l = Some (concat (replicate d l)).
Proof.
  intros Hl. cbn [Np.broadcast_aligned Np.chunks map].
  rewrite <- Hl, firstn_all. rewrite (broadcast_aligned_id s l Hl).
  cbn [Np.sequence]. destruct (Nat.eqb_spec 1 d) as [<-|_].
  - reflexivity.
  - cbn [Nat.eqb]. f_equal. f_equal.
    induction d as [|d IH]; cbn; [reflexivity|]. rewrite IH. reflexivity.
Qed.

Lemma sequence_map_Forall {A B : Type} (f : A -> option B)
  (P : A -> Prop) (Q : B -> Prop) (l : list A) (r : list B) :
  Np.sequence (map f l) = Some r -> Forall P l ->
  (forall a b, P a -> f a = Some b -> Q b) -> Forall Q r.
Proof.
  intros E Hl Hf. apply sequence_Some in E. revert r E.
  induction Hl as [|a l Ha _ IH]; intros r E;
    inversion E as [|? ? ? ? Hhd Htl]; subst; constructor.
  - eapply Hf; eassumption.
  - apply IH, Htl.
Qed.

(** Broadcasting only repeats elements. *)
Lemma broadcast_aligned_Forall {A : Type} (P : A -> Prop) (src : list nat) :
  forall (dst : list nat) (l r : list A),
  Np.broadcast_aligned src dst l = Some r -> Forall P l -> Forall P r.
Proof.
  induction src as [|s src IH]; intros [|d dst] l r E Hl; cbn in E; try discriminate.
  - destruct l as [|x [|]]; try discriminate. injection E as <-. exact Hl.
  - destruct (Np.sequence _) as [bs|] eqn:Es; [|discriminate].
    assert (Hbs : Forall (Forall P) bs).
    { eapply sequence_map_Forall; [exact Es|apply Forall_chunks, Hl|].
      intros c b Hc Eb. eapply IH; eassumption. }
    destruct (Nat.eqb s d).
    + injection E as <-. apply Forall_concat, Hbs.
    + destruct (Nat.eqb s 1); [|discriminate]. injection E as <-.
      apply Forall_concat, Forall_concat, Forall_replicate, Hbs.
Qed.

Lemma broadcast_to_Forall {A : Type} (P : A -> Prop) (a : Np.ndarray A)
  (dst : list nat) (r : list A) :
  Np.broadcast_to a dst = Some r -> Forall P (Np.flat a) -> Forall P r.
Proof.
  unfold Np.broadcast_to. destruct (Nat.leb _ _); [|discriminate].
  apply broadcast_aligned_Forall.
Qed.

Lemma broadcast_to_id {A : Type} (s : list nat) (l : list A) :
  length l = Np.size_of s -> Np.broadcast_to (Np.mk_ndarray s l) s = Some l.
Proof.
  intros Hl. unfold Np.broadcast_to. cbn [Np.shape Np.flat].
  rewrite Nat.leb_refl, Nat.sub_diag. apply broadcast_aligned_id, Hl.
Qed.

(** ** The PCR rounds *)

Lemma add_int64_zero (x : Z) : add_int64 x 0 = x.
Proof.
  unfold add_int64. rewrite Z.add_0_r.
  destruct (Z.ltb_spec x (2 ^ 63)), (Z.leb_spec (2 ^ 63) x); cbn [andb];
    try reflexivity; lia.
Qed.

(** Below [2^62] a count and its draw add up as integers. *)
Lemma add_int64_small (x k : Z) :
  0 <= k <= x -> 2 * x < 2 ^ 63 -> add_int64 x k = x + k.
Proof.
  intros Hk Hx. unfold add_int64.
  destruct (Z.leb_spec (2 ^ 63) (x + k)); [lia|]. rewrite andb_false_r. reflexivity.
Qed.

(** One round on one count. *)
Lemma add_int64_grown (x k : Z) : 0 <= k <= x -> grown 1 x (add_int64 x k).
Proof.
  intros Hk. split.
  - unfold add_int64.
    change (2 ^ 64) with (2 * 2 ^ 63). pose proof (eq_refl : (0 <? 2 ^ 63) = true) as Hp.
    apply Z.ltb_lt in Hp.
    destruct (Z.ltb_spec x (2 ^ 63)), (Z.leb_spec (2 ^ 63) (x + k)); cbn [andb]; lia.
  - intros Hx Hb. change (2 ^ Z.of_nat 1) with 2 in *.
    rewrite add_int64_small by lia. lia.
Qed.

Lemma grown_refl (l : list Z) : Forall2 (grown 0) l l.
Proof.
  induction l; constructor; [|assumption].
  split; [reflexivity|]. change (2 ^ Z.of_nat 0) with 1. lia.
Qed.

Lemma grown_step (x y z : Z) (n : nat) :
  grown 1 x y -> grown n y z -> grown (S n) x z.
Proof.
  intros [Hz1 H1] [Hz2 H2]. split; [tauto|].
  intros Hx Hb. rewrite Nat2Z.inj_succ, Z.pow_succ_r in * by lia.
  change (2 ^ Z.of_nat 1) with 2 in H1.
  assert (Hp : 0 < 2 ^ Z.of_nat n) by (apply Z.pow_pos_nonneg; lia).
  assert (H1' : x <= y <= 2 * x) by (apply H1; nia).
  assert (H2' : y <= z <= 2 ^ Z.of_nat n * y) by (apply H2; nia).
  nia.
Qed.

Lemma grown_trans (n : nat) (l1 l2 l3 : list Z) :
  Forall2 (grown 1) l1 l2 -> Forall2 (grown n) l2 l3 -> Forall2 (grown (S n)) l1 l3.
Proof.
  intros H12. revert l3. induction H12 as [|x y l1 l2 Hxy _ IH]; intros l3 H23;
    inversion H23 as [|? z ? l3' Hyz Htl]; subst; constructor.
  - eapply grown_step; eassumption.
  - apply IH, Htl.
Qed.

(** Counts that stay in range for one more round are in range for the
    rounds that follow it. *)
Lemma grown_in_range (n : nat) (l1 l2 : list Z) :
  Forall2 (grown 1) l1 l2 ->
  Forall (fun x => 0 <= x /\ doubles_in_int64 (S n) x) l1 ->
  Forall (fun x => 0 <= x /\ doubles_in_int64 n x) l2.
Proof.
  unfold doubles_in_int64.
  induction 1 as [|x y l1 l2 [_ Hxy] _ IH]; intros Hl; [constructor|].
  inversion Hl as [|? ? [Hx Hb] Htl]; subst. constructor; [|apply IH, Htl].
  rewrite Nat2Z.inj_succ, Z.pow_succ_r in Hb by lia.
  change (2 ^ Z.of_nat 1) with 2 in Hxy.
  assert (Hp : 0 < 2 ^ Z.of_nat n) by (apply Z.pow_pos_nonneg; lia).
  assert (H1 : x <= y <= 2 * x) by (apply Hxy; nia). nia.
Qed.

Lemma bind_inr_inv {S A B : Type} (m : M S A) (k : A -> M S B) s b s' :
  bind m k s = (inr b, s') ->
  exists a s1, m s = (inr a, s1) /\ k a s1 = (inr b, s').
Proof.
  unfold bind. destruct (m s) as [[e|a] s1]; intros E; [discriminate|].
  exists a, s1. split; [reflexivity|exact E].
Qed.

Lemma forallb_Forall {A : Type} (f : A -> bool) (l : list A) :
  forallb f l = true -> Forall (fun x => f x = true) l.
Proof.
  induction l as [|x l IH]; cbn; intros E; constructor;
    apply andb_true_iff in E; [apply E|apply IH, E].
Qed.

Lemma is_probability_spec (p : Q) :
  NpRandom.is_probability p = true -> (0 <= p)%Q /\ (p <= 1)%Q.
Proof.
  unfold NpRandom.is_probability. intros E. apply andb_true_iff in E.
  destruct E as [E0 E1]. split; apply Qle_bool_iff; assumption.
Qed.

Lemma no_negative_counts (l : list Z) :
  existsb (fun x => x <? 0) l = false <-> Forall (Z.le 0) l.
Proof.
  induction l as [|x l IH]; cbn; [split; [constructor|reflexivity]|].
  rewrite orb_false_iff, IH, Forall_cons. destruct (Z.ltb_spec x 0); split;
    intros [? ?]; split; try assumption; try reflexivity; try lia; discriminate.
Qed.

(** Adding the draws of one round to the counts they were drawn from. *)
Lemma add_draws_grown (xs : list Z) (ps : list Q) (extra : list Z) :
  length xs = length ps ->
  Forall2 (fun np k => 0 <= k <= fst np) (zip xs ps) extra ->
  length (zip_with add_int64 xs extra) = length xs /\
  Forall2 (grown 1) xs (zip_with add_int64 xs extra).
Proof.
  revert ps extra. induction xs as [|x xs IH]; intros [|p ps] extra Hlen Hf;
    cbn in Hlen; try discriminate; inversion Hf as [|? k ? extra' Hk Htl]; subst.
  - split; [reflexivity|constructor].
  - destruct (IH ps extra') as [Hl Ha]; [lia|exact Htl|].
    cbn in Hk. cbn [zip_with length]. split; [rewrite Hl; reflexivity|].
    constructor; [apply add_int64_grown, Hk|exact Ha].
Qed.

Section Binomial.
Context {G : Type} `{RandomStateLaws G}.

(** Binomial draws on counts and probabilities stay between zero and the
    count. *)
Lemma binomial_draws (ns : list Z) (ps : list Q) (g : G) :
  Forall (Z.le 0) ns -> Forall (fun p => (0 <= p)%Q /\ (p <= 1)%Q) ps ->
  exists extra g',
    mapM (fun np => sample (draw_binomial (fst np) (snd np))) (zip ns ps) g
      = (inr extra, g') /\
    Forall2 (fun np k => 0 <= k <= fst np) (zip ns ps) extra.
Proof.
  intros Hns Hps. apply mapM_ok. intros [n p] Hin s0.
  apply list_elem_of_In in Hin.
  pose proof (elem_of_zip_l _ _ _ _ Hin) as Hn.
  pose proof (elem_of_zip_r _ _ _ _ Hin) as Hp.
  rewrite Forall_forall in Hns. rewrite Forall_forall in Hps.
  destruct (Hps p Hp) as [Hp0 Hp1].
  eexists _, _. split; [reflexivity|].
  cbn [fst snd]. apply binomial_support; [apply Hns, Hn|exact Hp0|exact Hp1].
Qed.

(** [np.random.binomial] returns exactly when its parameters are valid and
    broadcast to [size]. *)
Lemma binomial_returns (n : Np.ndarray Z) (p : Np.ndarray Q) (size : list nat)
  (ns : list Z) (ps : list Q) (g : G) :
  Forall (fun q => (0 <= q)%Q /\ (q <= 1)%Q) (Np.flat p) ->
  Forall (Z.le 0) (Np.flat n) ->
  Np.broadcast_to n size = Some ns -> Np.broadcast_to p size = Some ps ->
  exists extra g',
    NpRandom.binomial n p size g = (inr extra, g') /\
    Forall2 (fun np k => 0 <= k <= fst np) (zip ns ps) extra.
Proof.
  intros Hp Hn En Ep. unfold NpRandom.binomial.
  rewrite (is_probability_all _ Hp). cbn [negb].
  apply no_negative_counts in Hn as Hb. rewrite Hb, En, Ep.
  apply binomial_draws.
  - eapply broadcast_to_Forall; eassumption.
  - eapply broadcast_to_Forall; eassumption.
Qed.

Lemma binomial_inv (n : Np.ndarray Z) (p : Np.ndarray Q) (size : list nat)
  (extra : list Z) (g g' : G) :
  NpRandom.binomial n p size g = (inr extra, g') ->
  exists ns ps,
    Np.broadcast_to n size = Some ns /\ Np.broadcast_to p size = Some ps /\
    Forall (Z.le 0) (Np.flat n) /\
    Forall2 (fun np k => 0 <= k <= fst np) (zip ns ps) extra.
Proof.
  intros E. unfold NpRandom.binomial in E.
  destruct (forallb NpRandom.is_probability (Np.flat p)) eqn:Ep; [|discriminate].
  cbn [negb] in E.
  destruct (existsb (fun x => x <? 0) (Np.flat n)) eqn:En; [discriminate|].
  destruct (Np.broadcast_to n size) as [ns|] eqn:Bn; [|discriminate].
  destruct (Np.broadcast_to p size) as [ps|] eqn:Bp; [|discriminate].
  apply no_negative_counts in En. apply forallb_Forall in Ep.
  assert (Hp : Forall (fun q => (0 <= q)%Q /\ (q <= 1)%Q) (Np.flat p))
    by (eapply Forall_impl; [exact Ep|apply is_probability_spec]).
  destruct (binomial_draws ns ps g) as (extra' & g1 & E' & Hf).
  { eapply broadcast_to_Forall; eassumption. }
  { eapply broadcast_to_Forall; eassumption. }
  rewrite E' in E. injection E as <- <-.
  exists ns, ps. repeat split; assumption.
Qed.

End Binomial.

Section Cycles.
Context {G : Type} `{RandomStateLaws G}.
Implicit Types (h : gmap nat Sequencing.obj) (g : G) (a : Np.ndarray Z).

Lemma load_array_ok h g d a :
  h !! d = Some (Sequencing.Ndarray a) ->
  Sequencing.load_array d (h, g) = (inr a, (h, g)).
Proof.
  intros E. unfold Sequencing.load_array, Sequencing.load, bind. cbn [fst].
  rewrite E. reflexivity.
Qed.

(** One round that returns has amplified the array at [d] and nothing else. *)
Lemma pcr_cycle_inv d view_shape p h g a w' :
  Sequencing.pcr_cycle d view_shape p (h, g) = (inr tt, w') ->
  h !! d = Some (Sequencing.Ndarray a) ->
  length (Np.flat a) = Np.size_of view_shape ->
  exists a' g',
    w' = (<[d:=Sequencing.Ndarray a']> h, g') /\
    Np.shape a' = Np.shape a /\
    length (Np.flat a') = length (Np.flat a) /\
    Forall (Z.le 0) (Np.flat a) /\
    Forall2 (grown 1) (Np.flat a) (Np.flat a').
Proof.
  intros E Hd Hlen. unfold Sequencing.pcr_cycle in E.
  rewrite (bind_ok _ _ _ _ _ (load_array_ok h g d a Hd)) in E.
  apply bind_inr_inv in E. destruct E as (extra & [h1 g1] & Eb & Es).
  unfold Sequencing.with_generator in Eb. cbn [fst snd] in Eb.
  destruct (NpRandom.binomial (Np.mk_ndarray view_shape (Np.flat a)) p view_shape g)
    as [[e|extra'] g2] eqn:Ebin; cbn [fst snd] in Eb; [discriminate|].
  injection Eb as -> <- <-.
  apply binomial_inv in Ebin. destruct Ebin as (ns & ps & Bn & Bp & Hn & Hf).
  rewrite (broadcast_to_id view_shape (Np.flat a) Hlen) in Bn. injection Bn as <-.
  apply broadcast_to_length in Bp.
  destruct (add_draws_grown (Np.flat a) ps extra) as [Hl Ha];
    [congruence|exact Hf|].
  unfold Sequencing.store in Es. cbn [fst snd] in Es. injection Es as <-.
  eexists _, g2. split; [reflexivity|]. cbn [Np.shape Np.flat].
  split; [reflexivity|]. split; [exact Hl|]. split; assumption.
Qed.

(** One round returns on non-negative counts and efficiencies in [0, 1]
    that broadcast to the counts. *)
Lemma pcr_cycle_returns d view_shape p ps h g a :
  h !! d = Some (Sequencing.Ndarray a) ->
  length (Np.flat a) = Np.size_of view_shape ->
  Forall (Z.le 0) (Np.flat a) ->
  Forall (fun q => (0 <= q)%Q /\ (q <= 1)%Q) (Np.flat p) ->
  Np.broadcast_to p view_shape = Some ps ->
  exists w', Sequencing.pcr_cycle d view_shape p (h, g) = (inr tt, w').
Proof.
  intros Hd Hlen Hn Hp Bp. unfold Sequencing.pcr_cycle.
  rewrite (bind_ok _ _ _ _ _ (load_array_ok h g d a Hd)).
  destruct (binomial_returns (Np.mk_ndarray view_shape (Np.flat a)) p view_shape
              (Np.flat a) ps g Hp Hn (broadcast_to_id _ _ Hlen) Bp)
    as (extra & g1 & E & _).
  unfold bind, Sequencing.with_generator. cbn [fst snd]. rewrite E. cbn [fst snd].
  eexists. reflexivity.
Qed.

Lemma pcr_cycles_inv n d view_shape p : forall h g a w',
  Sequencing.pcr_cycles n d view_shape p (h, g) = (inr tt, w') ->
  h !! d = Some (Sequencing.Ndarray a) ->
  length (Np.flat a) = Np.size_of view_shape ->
  exists a' g',
    w' = (<[d:=Sequencing.Ndarray a']> h, g') /\
    Np.shape a' = Np.shape a /\
    length (Np.flat a') = length (Np.flat a) /\
    Forall2 (grown n) (Np.flat a) (Np.flat a') /\
    (n = 0%nat -> a' = a /\ g' = g).
Proof.
  induction n as [|n IH]; intros h g a w' E Hd Hlen.
  - cbn in E. injection E as <-. exists a, g.
    rewrite (insert_id h d _ Hd).
    split; [reflexivity|]. split; [reflexivity|]. split; [reflexivity|].
    split; [apply grown_refl|]. split; reflexivity.
  - cbn [Sequencing.pcr_cycles] in E. apply bind_inr_inv in E.
    destruct E as ([] & w1 & E1 & E2).
    destruct (pcr_cycle_inv _ _ _ _ _ _ _ E1 Hd Hlen)
      as (a1 & g1 & -> & Hs1 & Hl1 & _ & Ha1).
    destruct (IH _ _ a1 _ E2) as (a2 & g2 & -> & Hs2 & Hl2 & Ha2 & _).
    { apply lookup_insert_eq. }
    { congruence. }
    exists a2, g2. rewrite insert_insert_eq.
    split; [reflexivity|]. split; [congruence|]. split; [congruence|].
    split; [eapply grown_trans; eassumption|discriminate].
Qed.

(** The rounds return on non-negative counts that [n] doublings keep below
    [2^63]: no sum wraps around, so no round meets a negative count. *)
Lemma pcr_cycles_returns n d view_shape p ps : forall h g a,
  h !! d = Some (Sequencing.Ndarray a) ->
  length (Np.flat a) = Np.size_of view_shape ->
  Forall (fun x => 0 <= x /\ doubles_in_int64 n x) (Np.flat a) ->
  Forall (fun q => (0 <= q)%Q /\ (q <= 1)%Q) (Np.flat p) ->
  Np.broadcast_to p view_shape = Some ps ->
  exists w', Sequencing.pcr_cycles n d view_shape p (h, g) = (inr tt, w').
Proof.
  induction n as [|n IH]; intros h g a Hd Hlen Hn Hp Bp.
  - eexists. reflexivity.
  - assert (Hn0 : Forall (Z.le 0) (Np.flat a))
      by (eapply Forall_impl; [exact Hn|]; cbn; tauto).
    destruct (pcr_cycle_returns d view_shape p ps h g a Hd Hlen Hn0 Hp Bp) as (w1 & E1).
    destruct (pcr_cycle_inv _ _ _ _ _ _ _ E1 Hd Hlen)
      as (a1 & g1 & -> & Hs1 & Hl1 & _ & Ha1).
    destruct (IH (<[d:=Sequencing.Ndarray a1]> h) g1 a1) as (w2 & E2);
      [apply lookup_insert_eq|congruence| |exact Hp|exact Bp|].
    { eapply grown_in_range; eassumption. }
    exists w2. cbn [Sequencing.pcr_cycles]. rewrite (bind_ok _ _ _ _ _ E1). exact E2.
Qed.

End Cycles.

(** ** [pcr_noise] *)

Section StoreSteps.
Context {G : Type} `{RandomState G}.
Implicit Types (h : gmap nat Sequencing.obj) (g : G).

Lemma load_inv l h g o w :
  Sequencing.load l (h, g) = (inr o, w) -> w = (h, g) /\ h !! l = Some o.
Proof.
  unfold Sequencing.load. cbn [fst]. destruct (h !! l); intros E; [|discriminate].
  injection E as <- <-. split; reflexivity.
Qed.

Lemma load_array_inv l h g a w :
  Sequencing.load_array l (h, g) = (inr a, w) ->
  w = (h, g) /\ h !! l = Some (Sequencing.Ndarray a).
Proof.
  unfold Sequencing.load_array. intros E. apply bind_inr_inv in E.
  destruct E as (o & w1 & E1 & E2). apply load_inv in E1. destruct E1 as [-> Hl].
  destruct o; [|discriminate]. injection E2 as <- <-. split; [reflexivity|exact Hl].
Qed.

Lemma of_option_inv {S A : Type} (e : exn) (o : option A) (s s' : S) (a : A) :
  of_option e o s = (inr a, s') -> o = Some a /\ s' = s.
Proof.
  destruct o; cbn; intros E; [|discriminate]. injection E as <- <-.
  split; reflexivity.
Qed.

Lemma shape1_inv (o : Sequencing.obj) (w w' : gmap nat Sequencing.obj * G) (n : nat) :
  Sequencing.shape1 o w = (inr n, w') -> w' = w.
Proof.
  destruct o; cbn; intros E.
  - apply of_option_inv in E. apply E.
  - injection E as _ <-. reflexivity.
Qed.

End StoreSteps.

Section InPlace.
Context {G : Type} `{RandomStateLaws G}.
Implicit Types (h : gmap nat Sequencing.obj) (g : G).

(** Whenever [pcr_noise] returns from working in place, it returns the
    object it was given, now standing for the amplified matrix. *)
Lemma pcr_noise_in_place_inv r pcr_betas n_cycles h g r' h' g' c :
  Sequencing.pcr_noise r pcr_betas n_cycles false (h, g) = (inr r', (h', g')) ->
  view h r = Some c -> well_formed h r ->
  r' = r /\
  exists c', view h' r = Some c' /\
             entrywise (grown (Z.to_nat n_cycles)) c c' /\
             (Z.to_nat n_cycles = 0%nat -> c' = c).
Proof.
  intros E Hview Hwf. unfold Sequencing.pcr_noise in E.
  destruct (Sequencing.any_negative (Np.flat pcr_betas)); [discriminate|].
  apply bind_inr_inv in E. destruct E as (r0 & w0 & E0 & E).
  injection E0 as <- <-.
  apply bind_inr_inv in E. destruct E as (o & w1 & E1 & E).
  apply load_inv in E1. destruct E1 as [-> Ho].
  apply bind_inr_inv in E. destruct E as (n_features & w2 & E2 & E).
  apply shape1_inv in E2. subst w2.
  apply bind_inr_inv in E. destruct E as (betas & w3 & E3 & E).
  apply of_option_inv in E3. destruct E3 as [Hbetas ->].
  unfold view in Hview. unfold well_formed in Hwf. rewrite Ho in Hview, Hwf.
  destruct o as [a|nr nc dl indices indptr].
  - injection Hview as <-.
    apply bind_inr_inv in E. destruct E as ([] & w4 & E4 & E).
    injection E as <- ->.
    destruct (pcr_cycles_inv _ _ _ _ _ _ _ _ E4 Ho Hwf)
      as (a' & g1 & [= -> ->] & Hs & Hl & Ha & Hzero).
    split; [reflexivity|]. exists (Dense a').
    unfold view. rewrite lookup_insert_eq. split; [reflexivity|].
    split; [split; assumption|].
    intros Hn. destruct (Hzero Hn) as [-> _]. reflexivity.
  - destruct (h !! dl) as [[a|]|] eqn:Hdl; try discriminate.
    injection Hview as <-.
    apply bind_inr_inv in E. destruct E as (a0 & w4 & E4 & E).
    apply load_array_inv in E4. destruct E4 as [-> Ha0].
    rewrite Hdl in Ha0. injection Ha0 as <-.
    apply bind_inr_inv in E. destruct E as (p & w5 & E5 & E).
    apply of_option_inv in E5. destruct E5 as [Hp ->].
    apply bind_inr_inv in E. destruct E as ([] & w6 & E6 & E).
    assert (Hlen : length (Np.flat a) = Np.size_of (1%nat :: Np.shape a)).
    { rewrite Hwf. cbn. lia. }
    destruct (pcr_cycles_inv _ _ _ _ _ _ _ _ E6 Hdl Hlen)
      as (a' & g1 & -> & Hs & Hl & Ha & Hzero).
    apply bind_inr_inv in E. destruct E as (a1 & w7 & E7 & E).
    apply load_array_inv in E7. destruct E7 as [-> Ha1].
    rewrite lookup_insert_eq in Ha1. injection Ha1 as <-.
    cbn in E. injection E as <- <- <-.
    split; [reflexivity|].
    exists (Sparse (Sp.mk_csr nr nc (Np.flat a') indices indptr)).
    unfold view. rewrite lookup_insert_eq.
    assert (Hfresh : fresh (dom (<[dl:=Sequencing.Ndarray a']> h)) <> r).
    { intros Heq. pose proof (is_fresh (dom (<[dl:=Sequencing.Ndarray a']> h))) as Hf.
      rewrite Heq in Hf. apply Hf. rewrite dom_insert_L.
      apply elem_of_union_r, elem_of_dom. rewrite Ho. eexists. reflexivity. }
    rewrite lookup_insert_ne by (intros Heq; apply Hfresh; symmetry; exact Heq).
    rewrite lookup_insert_eq. cbn [Np.flat].
    split; [reflexivity|]. split; [repeat split; exact Ha|].
    intros Hn. destruct (Hzero Hn) as [-> _]. reflexivity.
Qed.

End InPlace.

Section Copy.
Context {G : Type} `{RandomState G}.
Implicit Types (h : gmap nat Sequencing.obj) (g : G).

Lemma fresh_lookup h : h !! fresh (dom h) = None.
Proof. apply not_elem_of_dom, is_fresh. Qed.

(** [copy()] builds a new object standing for the same matrix, on new
    buffers, and leaves every object of the store as it was. *)
Lemma copy_obj_spec r h g c :
  view h r = Some c -> well_formed h r ->
  exists r1 h1,
    Sequencing.copy_obj r (h, g) = (inr r1, (h1, g)) /\
    view h1 r1 = Some c /\ well_formed h1 r1 /\ h ⊆ h1 /\ h !! r1 = None.
Proof.
  unfold view, well_formed. intros Hview Hwf.
  destruct (h !! r) as [[a|nr nc dl indices indptr]|] eqn:Ho; [| |discriminate].
  - injection Hview as <-.
    exists (fresh (dom h)), (<[fresh (dom h):=Sequencing.Ndarray a]> h).
    split; [|split; [|split; [|split]]].
    + unfold Sequencing.copy_obj, bind, Sequencing.load. cbn [fst].
      rewrite Ho. reflexivity.
    + rewrite lookup_insert_eq. reflexivity.
    + rewrite lookup_insert_eq. exact Hwf.
    + apply insert_subseteq, fresh_lookup.
    + apply fresh_lookup.
  - destruct (h !! dl) as [[a|]|] eqn:Hdl; try discriminate.
    injection Hview as <-.
    set (l1 := fresh (dom h)).
    set (h1 := <[l1:=Sequencing.Ndarray a]> h).
    set (l2 := fresh (dom h1)).
    assert (Hne : l2 <> l1).
    { intros Heq. pose proof (fresh_lookup h1) as Hf. fold l2 in Hf.
      rewrite Heq in Hf. subst h1. rewrite lookup_insert_eq in Hf. discriminate. }
    assert (Hsub : h ⊆ h1) by apply insert_subseteq, fresh_lookup.
    exists l2, (<[l2:=Sequencing.Csr nr nc l1 indices indptr]> h1).
    split; [|split; [|split; [|split]]].
    + unfold Sequencing.copy_obj.
      assert (El : Sequencing.load r (h, g)
                   = (inr (Sequencing.Csr nr nc dl indices indptr), (h, g)))
        by (unfold Sequencing.load; cbn [fst]; rewrite Ho; reflexivity).
      rewrite (bind_ok _ _ _ _ _ El).
      rewrite (bind_ok _ _ _ _ _ (load_array_ok h g dl a Hdl)).
      reflexivity.
    + rewrite lookup_insert_eq, lookup_insert_ne by exact Hne.
      subst h1. rewrite lookup_insert_eq. reflexivity.
    + rewrite lookup_insert_eq, lookup_insert_ne by exact Hne.
      subst h1. rewrite lookup_insert_eq. exact Hwf.
    + etransitivity; [exact Hsub|]. apply insert_subseteq, fresh_lookup.
    + pose proof (fresh_lookup h1) as Hf. fold l2 in Hf.
      destruct (h !! l2) as [o|] eqn:Hl2; [|reflexivity].
      rewrite (lookup_weaken _ _ _ _ Hl2 Hsub) in Hf. discriminate.
Qed.

(** With [copy=True], [pcr_noise] is [pcr_noise] in place on the copy. *)
Lemma pcr_noise_on_copy r pcr_betas n_cycles (w : gmap nat Sequencing.obj * G) :
  Sequencing.pcr_noise r pcr_betas n_cycles true w
  = if Sequencing.any_negative (Np.flat pcr_betas)
    then (inl (ValueError "pcr_betas must be non-negative"), w)
    else bind (Sequencing.copy_obj r)
           (fun r1 => Sequencing.pcr_noise r1 pcr_betas n_cycles false) w.
Proof.
  unfold Sequencing.pcr_noise.
  destruct (Sequencing.any_negative (Np.flat pcr_betas)); [reflexivity|].
  apply bind_ext. intros r1 w1. reflexivity.
Qed.

End Copy.

(** ** The stored entries of a sparse matrix *)

Lemma filter_all {A : Type} (f : A -> bool) (l : list A) :
  Forall (fun x => f x = true) l -> List.filter f l = l.
Proof.
  induction 1 as [|x l Hx _ IH]; cbn; [reflexivity|]. rewrite Hx, IH. reflexivity.
Qed.

(** Without stored zeros, [nonzero()] lists the column of every stored entry. *)
Lemma nonzero_columns_all (indptr indices : list nat) (data : list Z) :
  Forall (Z.lt 0) data ->
  length indices = length data ->
  length (Sp.entry_rows indptr) = length data ->
  map snd (Sp.nonzero indptr indices data) = indices.
Proof.
  intros Hpos Hi Hr. unfold Sp.nonzero. rewrite filter_all.
  - rewrite fst_zip by (rewrite length_zip_with; lia).
    apply snd_zip. lia.
  - apply Forall_forall. intros [rc v] Hin.
    apply elem_of_zip_r in Hin. rewrite Forall_forall in Hpos.
    specialize (Hpos v Hin). cbn. destruct (Z.eqb_spec v 0); [lia|reflexivity].
Qed.

(** Amplification keeps the positions of the entries that are not zero. *)
Lemma nonzero_grown (n : nat) (indptr indices : list nat) (data data' : list Z) :
  Forall2 (grown n) data data' ->
  Sp.nonzero indptr indices data' = Sp.nonzero indptr indices data.
Proof.
  unfold Sp.nonzero. generalize (zip (Sp.entry_rows indptr) indices).
  intros xs Ha. revert xs.
  induction Ha as [|v v' data data' [Hz _] _ IH]; intros [|x xs]; try reflexivity.
  cbn [zip_with List.filter snd].
  destruct (Z.eqb_spec v 0) as [Hv|Hv], (Z.eqb_spec v' 0) as [Hv'|Hv'];
    try (exfalso; tauto); cbn [negb map fst]; rewrite IH; reflexivity.
Qed.

(** [betas[columns]] when every column is below the number of features. *)
Lemma select_columns (betas : list Q) (columns : list nat) :
  Forall (fun j => (j < length betas)%nat) columns ->
  exists p, Np.sequence (map (fun j => betas !! j) columns) = Some p /\
            length p = length columns /\
            forall P : Q -> Prop, Forall P betas -> Forall P p.
Proof.
  induction 1 as [|j columns Hj _ (p & Ep & Hl & HP)].
  - exists []. repeat split. constructor.
  - destruct (lookup_lt_is_Some_2 betas j Hj) as [b Hb].
    exists (b :: p). cbn [map Np.sequence]. rewrite Hb, Ep.
    split; [reflexivity|]. split; [cbn; rewrite Hl; reflexivity|].
    intros P Hall. constructor; [|apply HP, Hall].
    rewrite Forall_forall in Hall. eapply Hall, list_elem_of_lookup_2, Hb.
Qed.

Section Returns.
Context {G : Type} `{RandomStateLaws G}.
Implicit Types (h : gmap nat Sequencing.obj) (g : G).

Lemma pcr_cycles_return n d view_shape p ps h g a :
  h !! d = Some (Sequencing.Ndarray a) ->
  length (Np.flat a) = Np.size_of view_shape ->
  Forall (Z.le 0) (Np.flat a) ->
  n = 0%nat \/ (Forall (fun q => (0 <= q)%Q /\ (q <= 1)%Q) (Np.flat p) /\
               Forall (doubles_in_int64 n) (Np.flat a)) ->
  Np.broadcast_to p view_shape = Some ps ->
  exists a' g',
    Sequencing.pcr_cycles n d view_shape p (h, g)
      = (inr tt, (<[d:=Sequencing.Ndarray a']> h, g')).
Proof.
  intros Hd Hlen Hn Hp Bp.
  assert (Hret : exists w', Sequencing.pcr_cycles n d view_shape p (h, g) = (inr tt, w')).
  { destruct Hp as [->|[Hp Hb]]; [eexists; reflexivity|].
    eapply pcr_cycles_returns; try eassumption.
    apply Forall_and. split; assumption. }
  destruct Hret as (w' & E).
  destruct (pcr_cycles_inv _ _ _ _ _ _ _ _ E Hd Hlen) as (a' & g' & -> & _).
  exists a', g'. exact E.
Qed.

(** In place, [pcr_noise] returns as soon as its rounds do, on the counts
    and with the efficiencies it hands them. *)
Lemma pcr_noise_in_place_returns_when r pcr_betas betas n_cycles h g c nf :
  view h r = Some c -> well_formed h r -> amplifiable c ->
  n_features c = Some nf ->
  Np.broadcast_to pcr_betas [1%nat; nf] = Some betas ->
  Forall (fun b => (0 <= b)%Q) (Np.flat pcr_betas) ->
  (forall d view_shape p ps a,
     h !! d = Some (Sequencing.Ndarray a) ->
     Np.flat a = entries c ->
     length (Np.flat a) = Np.size_of view_shape ->
     (forall P : Q -> Prop, Forall P (Np.flat pcr_betas) -> Forall P (Np.flat p)) ->
     Np.broadcast_to p view_shape = Some ps ->
     exists a' g',
       Sequencing.pcr_cycles (Z.to_nat n_cycles) d view_shape p (h, g)
         = (inr tt, (<[d:=Sequencing.Ndarray a']> h, g'))) ->
  exists h' g',
    Sequencing.pcr_noise r pcr_betas n_cycles false (h, g) = (inr r, (h', g')).
Proof.
  intros Hview Hwf Hamp Hnf Hbetas Hpos Hrun.
  pose proof (broadcast_to_length _ _ _ Hbetas) as Hblen. cbn in Hblen.
  unfold Sequencing.pcr_noise. rewrite (any_negative_false _ Hpos).
  unfold view in Hview. unfold well_formed in Hwf.
  destruct (h !! r) as [[a|nr nc dl indices indptr]|] eqn:Ho; [| |discriminate].
  - injection Hview as <-. destruct Hamp as [Hdim Hn]. cbn in Hnf.
    destruct (Np.shape a) as [|n_samples [|n_feat [|]]] eqn:Hshape;
      try discriminate. injection Hnf as ->.
    destruct (Hrun r (Np.shape a) (Np.mk_ndarray [1%nat; nf] betas)
                (concat (replicate n_samples betas)) a Ho eq_refl Hwf)
      as (a' & g' & E).
    { intros P HP. cbn [Np.flat]. eapply broadcast_to_Forall; eassumption. }
    { rewrite Hshape. unfold Np.broadcast_to. cbn [Np.shape Np.flat length].
      cbn [Nat.leb Nat.sub replicate app].
      apply broadcast_aligned_row. cbn. lia. }
    exists (<[r:=Sequencing.Ndarray a']> h), g'.
    unfold bind at 1. cbn [ret].
    unfold bind at 1, Sequencing.load. cbn [fst]. rewrite Ho.
    unfold bind at 1. cbn [Sequencing.shape1]. rewrite Hshape.
    cbn [lookup list_lookup of_option ret].
    rewrite Hbetas. unfold bind at 1. cbn [of_option ret].
    rewrite <- Hshape. rewrite (bind_ok _ _ _ _ _ E). reflexivity.
  - destruct (h !! dl) as [[a|]|] eqn:Hdl; try contradiction.
    injection Hview as <-. cbn in Hnf. injection Hnf as ->.
    destruct Hamp as (Hi & Hr & Hcols & Hdata). cbn [Sp.indices Sp.data Sp.indptr Sp.ncols] in *.
    pose proof (nonzero_columns_all indptr indices (Np.flat a) Hdata Hi Hr) as Hnz.
    destruct (select_columns betas indices) as (p & Ep & Hpl & HpP).
    { eapply Forall_impl; [exact Hcols|]. cbn. intros j Hj. lia. }
    destruct (Hrun dl (1%nat :: Np.shape a) (Np.mk_ndarray [1%nat; length p] p) p a
                Hdl eq_refl)
      as (a' & g' & E).
    { rewrite Hwf. cbn. lia. }
    { intros P HP. cbn [Np.flat]. apply HpP.
      eapply broadcast_to_Forall; eassumption. }
    { rewrite Hwf, Hpl, Hi. apply broadcast_to_id. cbn. lia. }
    eexists _, g'.
    unfold bind at 1. cbn [ret].
    unfold bind at 1, Sequencing.load. cbn [fst]. rewrite Ho.
    unfold bind at 1. cbn [Sequencing.shape1 ret].
    rewrite Hbetas. unfold bind at 1. cbn [of_option ret].
    rewrite (bind_ok _ _ _ _ _ (load_array_ok h g dl a Hdl)).
    rewrite Hnz, Ep. unfold bind at 1. cbn [of_option ret].
    rewrite (bind_ok _ _ _ _ _ E).
    rewrite (bind_ok _ _ _ _ _ (load_array_ok _ g' dl a' (lookup_insert_eq _ _ _))).
    reflexivity.
Qed.

Lemma amplifiable_entries (c : counts) : amplifiable c -> Forall (Z.le 0) (entries c).
Proof.
  destruct c as [a|m]; cbn.
  - intros [_ Hn]. exact Hn.
  - intros (_ & _ & _ & Hd). eapply Forall_impl; [exact Hd|]. cbn. lia.
Qed.


End Returns.

Lemma entrywise_impl (R R' : Z -> Z -> Prop) (c c' : counts) :
  (forall x y, R x y -> R' x y) -> entrywise R c c' -> entrywise R' c c'.
Proof.
  intros HR. destruct c as [a|m], c' as [a'|m']; cbn; try tauto.
  - intros [Hs Hf]. split; [exact Hs|]. eapply Forall2_impl; eassumption.
  - intros (? & ? & ? & ? & Hf). repeat split; try assumption.
    eapply Forall2_impl; eassumption.
Qed.

Section PcrNoise.
Context {G : Type} `{RandomStateLaws G}.
Implicit Types (h : gmap nat Sequencing.obj) (g : G).

(** Whenever [pcr_noise] returns, what it returns stands for the amplified
    matrix, whether it worked in place or on a copy. *)
Lemma pcr_noise_inv r pcr_betas n_cycles copy h g r' h' g' c :
  Sequencing.pcr_noise r pcr_betas n_cycles copy (h, g) = (inr r', (h', g')) ->
  view h r = Some c -> well_formed h r ->
  exists c', view h' r' = Some c' /\
             entrywise (grown (Z.to_nat n_cycles)) c c' /\
             (Z.to_nat n_cycles = 0%nat -> c' = c).
Proof.
  intros E Hview Hwf. destruct copy.
  - rewrite pcr_noise_on_copy in E.
    destruct (Sequencing.any_negative (Np.flat pcr_betas)); [discriminate|].
    destruct (copy_obj_spec r h g c Hview Hwf) as (r1 & h1 & Ec & Hv1 & Hwf1 & _ & _).
    rewrite (bind_ok _ _ _ _ _ Ec) in E.
    destruct (pcr_noise_in_place_inv _ _ _ _ _ _ _ _ _ E Hv1 Hwf1) as [-> Hc'].
    exact Hc'.
  - destruct (pcr_noise_in_place_inv _ _ _ _ _ _ _ _ _ E Hview Hwf) as [-> Hc'].
    exact Hc'.
Qed.





(** [pcr_noise] returns as soon as its rounds do, in place or on a copy. *)
Lemma pcr_noise_returns_when r pcr_betas betas n_cycles copy h g c nf :
  view h r = Some c -> well_formed h r -> amplifiable c ->
  n_features c = Some nf ->
  Np.broadcast_to pcr_betas [1%nat; nf] = Some betas ->
  Forall (fun b => (0 <= b)%Q) (Np.flat pcr_betas) ->
  (forall h0 d view_shape p ps a,
     h0 !! d = Some (Sequencing.Ndarray a) ->
     Np.flat a = entries c ->
     length (Np.flat a) = Np.size_of view_shape ->
     (forall P : Q -> Prop, Forall P (Np.flat pcr_betas) -> Forall P (Np.flat p)) ->
     Np.broadcast_to p view_shape = Some ps ->
     exists a' g',
       Sequencing.pcr_cycles (Z.to_nat n_cycles) d view_shape p (h0, g)
         = (inr tt, (<[d:=Sequencing.Ndarray a']> h0, g'))) ->
  exists r' h' g',
    Sequencing.pcr_noise r pcr_betas n_cycles copy (h, g) = (inr r', (h', g')).
Proof.
  intros Hview Hwf Hamp Hnf Hbetas Hpos Hrun. destruct copy.
  - destruct (copy_obj_spec r h g c Hview Hwf) as (r1 & h1 & Ec & Hv1 & Hwf1 & _ & _).
    destruct (pcr_noise_in_place_returns_when r1 pcr_betas betas n_cycles h1 g c nf
                Hv1 Hwf1 Hamp Hnf Hbetas Hpos (Hrun h1)) as (h' & g' & E).
    exists r1, h', g'. rewrite pcr_noise_on_copy, (any_negative_false _ Hpos).
    rewrite (bind_ok _ _ _ _ _ Ec). exact E.
  - destruct (pcr_noise_in_place_returns_when r pcr_betas betas n_cycles h g c nf
                Hview Hwf Hamp Hnf Hbetas Hpos (Hrun h)) as (h' & g' & E).
    exists r, h', g'. exact E.
Qed.

(** [pcr_noise] returns on counts it can amplify when there is no round to
    run, or when the efficiencies are probabilities and the counts stay
    below [2^63] through all the rounds. *)
Lemma pcr_noise_returns r pcr_betas betas n_cycles copy h g c nf :
  view h r = Some c -> well_formed h r -> amplifiable c ->
  n_features c = Some nf ->
  Np.broadcast_to pcr_betas [1%nat; nf] = Some betas ->
  Forall (fun b => (0 <= b)%Q) (Np.flat pcr_betas) ->
  Z.to_nat n_cycles = 0%nat \/
  (Forall (fun b => (b <= 1)%Q) (Np.flat pcr_betas) /\
   Forall (doubles_in_int64 (Z.to_nat n_cycles)) (entries c)) ->
  exists r' h' g',
    Sequencing.pcr_noise r pcr_betas n_cycles copy (h, g) = (inr r', (h', g')).
Proof.
  intros Hview Hwf Hamp Hnf Hbetas Hpos Hone.
  eapply pcr_noise_returns_when; try eassumption.
  intros h0 d view_shape p ps a Hd Hflat Hlen Hsel Bp.
  eapply pcr_cycles_return; try eassumption.
  - rewrite Hflat. apply amplifiable_entries, Hamp.
  - destruct Hone as [Hz|[Hone Hb]]; [left; exact Hz|right]. split.
    + apply Hsel. apply Forall_and. split; assumption.
    + rewrite Hflat. exact Hb.
Qed.


(** C3: on a sparse input, whenever [pcr_noise] returns, the matrix it
    returns has the shape, [indices] and [indptr] of the input, as many
    stored entries, and the same positions of entries that are not zero
    (also when a stored count has wrapped around); and it does return on
    positive stored counts that the rounds keep below [2^63] and
    efficiencies that are probabilities. *)
Theorem pcr_noise_keeps_sparsity r pcr_betas n_cycles copy h g m :
  view h r = Some (Sparse m) -> well_formed h r ->
  (forall r' h' g',
     Sequencing.pcr_noise r pcr_betas n_cycles copy (h, g) = (inr r', (h', g')) ->
     exists m',
       view h' r' = Some (Sparse m') /\
       Sp.nrows m' = Sp.nrows m /\ Sp.ncols m' = Sp.ncols m /\
       Sp.indices m' = Sp.indices m /\ Sp.indptr m' = Sp.indptr m /\
       length (Sp.data m') = length (Sp.data m) /\
       Sp.nonzero (Sp.indptr m') (Sp.indices m') (Sp.data m')
       = Sp.nonzero (Sp.indptr m) (Sp.indices m) (Sp.data m)) /\
  (forall betas,
     amplifiable (Sparse m) ->
     Np.broadcast_to pcr_betas [1%nat; Sp.ncols m] = Some betas ->
     Forall (fun b => (0 <= b)%Q /\ (b <= 1)%Q) (Np.flat pcr_betas) ->
     Forall (doubles_in_int64 (Z.to_nat n_cycles)) (Sp.data m) ->
     exists r' h' g',
       Sequencing.pcr_noise r pcr_betas n_cycles copy (h, g) = (inr r', (h', g'))).
Proof.
  intros Hview Hwf. split.
  - intros r' h' g' E.
    destruct (pcr_noise_inv _ _ _ _ _ _ _ _ _ _ E Hview Hwf) as (c' & Hv' & Ha & _).
    destruct c' as [a'|m']; [contradiction|].
    destruct Ha as (Hnr & Hnc & Hi & Hp & Hd).
    exists m'. repeat split; try assumption.
    + symmetry. eapply Forall2_length, Hd.
    + rewrite Hi, Hp. eapply nonzero_grown, Hd.
  - intros betas Hamp Hbetas Hprob Hrange. apply Forall_and in Hprob as [Hpos Hone].
    eapply pcr_noise_returns; try eassumption; [reflexivity|right].
    split; [exact Hone|exact Hrange].
Qed.

End PcrNoise.


(** The same call evaluated: [[2, 3]] is returned as [[3, 8]] on a copy. *)
Example pcr_noise_dense_run :
  let h : gmap nat Sequencing.obj :=
    {[ 0%nat := Sequencing.Ndarray (Np.mk_ndarray [1%nat; 2%nat] [2; 3]) ]} in
  let r := Sequencing.pcr_noise 0%nat (Np.scalar (1 # 2)%Q) 2 true (h, 0 : Z) in
  exists r', fst r = inr r' /\
             view (fst (snd r)) r' = Some (Dense (Np.mk_ndarray [1%nat; 2%nat] [3; 8])) /\
             view (fst (snd r)) 0 = Some (Dense (Np.mk_ndarray [1%nat; 2%nat] [2; 3])).
Proof. eexists. repeat split; vm_compute; reflexivity. Qed.


(** The scenario of the specification: with efficiency 0 and the concrete
    generator, five rounds on [[2]] return [[2]]. *)
Example pcr_noise_zero_efficiency :
  let r := Sequencing.pcr_noise 0%nat (Np.mk_ndarray [1%nat] [0]%Q) 5 true
             ({[ 0%nat := Sequencing.Ndarray (Np.mk_ndarray [1%nat; 1%nat] [2]) ]}, 0 : Z) in
  exists r', fst r = inr r' /\
             view (fst (snd r)) r' = Some (Dense (Np.mk_ndarray [1%nat; 1%nat] [2])).
Proof. eexists. split; vm_compute; reflexivity. Qed.

Lemma pcr_noise_keeps_sparsity_witness :
  let h : gmap nat Sequencing.obj :=
    <[ 0%nat := Sequencing.Csr 2 3 1 [0; 2; 1]%nat [0; 2; 3]%nat ]>
      {[ 1%nat := Sequencing.Ndarray (Np.mk_ndarray [3%nat] [2; 3; 1]) ]} in
  let m := Sp.mk_csr 2 3 [2; 3; 1] [0; 2; 1]%nat [0; 2; 3]%nat in
  (forall r' h' g',
     Sequencing.pcr_noise 0%nat (Np.scalar (1 # 2)%Q) 2 false (h, 0 : Z)
       = (inr r', (h', g')) ->
     exists m',
       view h' r' = Some (Sparse m') /\
       Sp.nrows m' = Sp.nrows m /\ Sp.ncols m' = Sp.ncols m /\
       Sp.indices m' = Sp.indices m /\ Sp.indptr m' = Sp.indptr m /\
       length (Sp.data m') = length (Sp.data m) /\
       Sp.nonzero (Sp.indptr m') (Sp.indices m') (Sp.data m')
       = Sp.nonzero (Sp.indptr m) (Sp.indices m) (Sp.data m)) /\
  (forall betas,
     amplifiable (Sparse m) ->
     Np.broadcast_to (Np.scalar (1 # 2)%Q) [1%nat; Sp.ncols m] = Some betas ->
     Forall (fun b => (0 <= b)%Q /\ (b <= 1)%Q) (Np.flat (Np.scalar (1 # 2)%Q)) ->
     Forall (doubles_in_int64 (Z.to_nat 2)) (Sp.data m) ->
     exists r' h' g',
       Sequencing.pcr_noise 0%nat (Np.scalar (1 # 2)%Q) 2 false (h, 0 : Z)
         = (inr r', (h', g'))).
Proof.
  intros h m.
  apply (pcr_noise_keeps_sparsity 0%nat (Np.scalar (1 # 2)%Q) 2 false h (0 : Z) m).
  - reflexivity.
  - vm_compute. reflexivity.
Defined.

(** The same sparse call evaluated: the stored counts grow in place and the
    positions that are not zero stay [(0,0); (0,2); (1,1)]. *)
Example pcr_noise_sparse_run :
  let h : gmap nat Sequencing.obj :=
    <[ 0%nat := Sequencing.Csr 2 3 1 [0; 2; 1]%nat [0; 2; 3]%nat ]>
      {[ 1%nat := Sequencing.Ndarray (Np.mk_ndarray [3%nat] [2; 3; 1]) ]} in
  let r := Sequencing.pcr_noise 0%nat (Np.scalar (1 # 2)%Q) 2 false (h, 0 : Z) in
  fst r = inr 0%nat /\
  exists m', view (fst (snd r)) 0 = Some (Sparse m') /\
             Sp.nonzero (Sp.indptr m') (Sp.indices m') (Sp.data m')
             = [(0, 0); (0, 2); (1, 1)]%nat.
Proof. split; [vm_compute; reflexivity|]. eexists. split; vm_compute; reflexivity. Qed.

(** A CSR matrix that stores a zero: [data] has three entries and
    [nonzero()] two columns, and the binomial draw cannot pair them. *)
Example pcr_noise_stored_zero :
  let h : gmap nat Sequencing.obj :=
    <[ 0%nat := Sequencing.Csr 1 3 1 [0; 1; 2]%nat [0; 3]%nat ]>
      {[ 1%nat := Sequencing.Ndarray (Np.mk_ndarray [3%nat] [0; 3; 4]) ]} in
  fst (Sequencing.pcr_noise 0%nat (Np.scalar (1 # 2)%Q) 1 false (h, 0 : Z))
  = inl (ValueError "shape mismatch: objects cannot be broadcast to a single shape").
Proof. vm_compute. reflexivity. Qed.

(** ** What [pcr_noise] writes *)

Lemma bind_inv {S A B : Type} (m : M S A) (k : A -> M S B) s res s' :
  bind m k s = (res, s') ->
  (exists e, m s = (inl e, s') /\ res = inl e) \/
  (exists a s1, m s = (inr a, s1) /\ k a s1 = (res, s')).
Proof.
  unfold bind. destruct (m s) as [[e|a] s1]; intros E.
  - left. injection E as <- <-. exists e. split; reflexivity.
  - right. exists a, s1. split; [reflexivity|exact E].
Qed.

Section Frame.
Context {G : Type} `{RandomState G}.
Implicit Types (h : gmap nat Sequencing.obj) (g : G)
  (w : gmap nat Sequencing.obj * G).

Lemma load_state l w res w' : Sequencing.load l w = (res, w') -> w' = w.
Proof.
  unfold Sequencing.load. destruct (w.1 !! l); intros [= _ <-]; reflexivity.
Qed.

Lemma load_array_state l w res w' : Sequencing.load_array l w = (res, w') -> w' = w.
Proof.
  unfold Sequencing.load_array. intros E.
  apply bind_inv in E as [(e & E1 & _)|(o & w1 & E1 & E)];
    apply load_state in E1; subst; [reflexivity|].
  destruct o; injection E as _ <-; reflexivity.
Qed.

Lemma of_option_state {S A : Type} (e : exn) (o : option A) (s s' : S) res :
  of_option e o s = (res, s') -> s' = s.
Proof. destruct o; intros [= _ <-]; reflexivity. Qed.

Lemma shape1_state (o : Sequencing.obj) w res w' :
  Sequencing.shape1 o w = (res, w') -> w' = w.
Proof.
  destruct o; cbn; intros E; [eapply of_option_state, E|].
  injection E as _ <-. reflexivity.
Qed.

(** A round writes the array at [d] or nothing. *)
Lemma pcr_cycle_touch d view_shape p h g res h' g' :
  Sequencing.pcr_cycle d view_shape p (h, g) = (res, (h', g')) ->
  h' = h \/ exists a', h' = <[d:=Sequencing.Ndarray a']> h.
Proof.
  unfold Sequencing.pcr_cycle. intros E.
  apply bind_inv in E as [(e & E1 & _)|(a & w1 & E1 & E)];
    apply load_array_state in E1; [left; congruence|subst w1].
  apply bind_inv in E as [(e & E1 & _)|(extra & w1 & E1 & E)].
  - left. unfold Sequencing.with_generator in E1. cbn in E1. congruence.
  - unfold Sequencing.with_generator in E1. cbn [fst snd] in E1.
    injection E1 as _ <-. cbn in E. injection E as _ <- _.
    right. eexists. reflexivity.
Qed.

Lemma pcr_cycles_touch n d view_shape p : forall h g res h' g',
  Sequencing.pcr_cycles n d view_shape p (h, g) = (res, (h', g')) ->
  h' = h \/ exists a', h' = <[d:=Sequencing.Ndarray a']> h.
Proof.
  induction n as [|n IH]; intros h g res h' g' E.
  - left. injection E as _ <- _. reflexivity.
  - cbn [Sequencing.pcr_cycles] in E.
    apply bind_inv in E as [(e & E1 & _)|([] & [h1 g1] & E1 & E)].
    + eapply pcr_cycle_touch, E1.
    + apply pcr_cycle_touch in E1. apply IH in E.
      destruct E1 as [->|[a1 ->]]; [exact E|]. right.
      destruct E as [->|[a2 ->]]; eexists; [reflexivity|].
      rewrite insert_insert_eq. reflexivity.
Qed.

(** Writing outside the objects of [h] keeps them. *)
Lemma insert_outside h h1 l (o : Sequencing.obj) :
  h ⊆ h1 -> h !! l = None -> h ⊆ <[l:=o]> h1.
Proof. intros Hsub Hl. apply insert_subseteq_r; assumption. Qed.

Lemma fresh_outside h h1 : h ⊆ h1 -> h !! fresh (dom h1) = None.
Proof.
  intros Hsub. destruct (h !! fresh (dom h1)) as [o|] eqn:E; [|reflexivity].
  pose proof (lookup_weaken _ _ _ _ E Hsub) as E1.
  rewrite fresh_lookup in E1. discriminate.
Qed.

(** [copy()] keeps every object of the store; its result and the [data]
    array of a sparse result are new. *)
Lemma copy_obj_frame r h g res h1 g1 :
  Sequencing.copy_obj r (h, g) = (res, (h1, g1)) ->
  h ⊆ h1 /\
  forall r1, res = inr r1 ->
    h !! r1 = None /\
    forall nr nc dl indices indptr,
      h1 !! r1 = Some (Sequencing.Csr nr nc dl indices indptr) -> h !! dl = None.
Proof.
  unfold Sequencing.copy_obj. intros E.
  apply bind_inv in E as [(e & E1 & ->)|(o & w1 & E1 & E)].
  { apply load_state in E1. injection E1 as -> _. split; [reflexivity|discriminate]. }
  apply load_state in E1. subst w1. destruct o as [a|nr nc dl indices indptr].
  - cbn in E. injection E as <- <- _. split; [apply insert_subseteq, fresh_lookup|].
    intros r1 [= <-]. split; [apply fresh_lookup|].
    intros nr nc dl indices indptr. rewrite lookup_insert_eq. discriminate.
  - apply bind_inv in E as [(e & E1 & ->)|(a & w1 & E1 & E)].
    { apply load_array_state in E1. injection E1 as -> _. split; [reflexivity|discriminate]. }
    apply load_array_state in E1. subst w1. cbn in E. injection E as <- <- _.
    assert (Hsub : h ⊆ <[fresh (dom h):=Sequencing.Ndarray a]> h)
      by apply insert_subseteq, fresh_lookup.
    split; [apply insert_outside; [exact Hsub|apply fresh_outside, Hsub]|].
    intros r1 [= <-]. split; [apply fresh_outside, Hsub|].
    intros nr' nc' dl' indices' indptr'. rewrite lookup_insert_eq.
    intros [= _ _ <- _ _]. apply fresh_lookup.
Qed.

(** In place on an object outside [h], with its [data] array outside [h] when
    it is sparse, [pcr_noise] keeps every object of [h]; what it returns is
    that object, its [data] array again outside [h]. *)
Lemma pcr_noise_in_place_frame h h1 g r1 pcr_betas n_cycles res h' g' :
  Sequencing.pcr_noise r1 pcr_betas n_cycles false (h1, g) = (res, (h', g')) ->
  h ⊆ h1 -> h !! r1 = None ->
  (forall nr nc dl indices indptr,
     h1 !! r1 = Some (Sequencing.Csr nr nc dl indices indptr) -> h !! dl = None) ->
  h ⊆ h' /\
  forall r', res = inr r' ->
    r' = r1 /\
    forall nr nc dl indices indptr,
      h' !! r1 = Some (Sequencing.Csr nr nc dl indices indptr) -> h !! dl = None.
Proof.
  intros E Hsub Hr1 Hdl. unfold Sequencing.pcr_noise in E.
  destruct (Sequencing.any_negative (Np.flat pcr_betas)).
  { injection E as <- <- _. split; [exact Hsub|discriminate]. }
  apply bind_inv in E as [(e & E1 & ->)|(r0 & w0 & E0 & E)]; [discriminate|].
  injection E0 as <- <-.
  apply bind_inv in E as [(e & E1 & ->)|(o & w1 & E1 & E)].
  { apply load_state in E1. injection E1 as <- _. split; [exact Hsub|discriminate]. }
  apply load_inv in E1. destruct E1 as [-> Ho].
  apply bind_inv in E as [(e & E1 & ->)|(n_features & w1 & E1 & E)].
  { apply shape1_state in E1. injection E1 as <- _. split; [exact Hsub|discriminate]. }
  apply shape1_state in E1. subst w1.
  apply bind_inv in E as [(e & E1 & ->)|(betas & w1 & E1 & E)].
  { apply of_option_state in E1. injection E1 as <- _. split; [exact Hsub|discriminate]. }
  apply of_option_state in E1. subst w1.
  destruct o as [a|nr nc dl indices indptr].
  - assert (Hcycles : forall res0 h0 g0,
      Sequencing.pcr_cycles (Z.to_nat n_cycles) r1 (Np.shape a)
        (Np.mk_ndarray [1%nat; n_features] betas) (h1, g) = (res0, (h0, g0)) ->
      h ⊆ h0 /\ exists a0, h0 !! r1 = Some (Sequencing.Ndarray a0)).
    { intros res0 h0 g0 E0. apply pcr_cycles_touch in E0 as [->|[a' ->]].
      - split; [exact Hsub|]. exists a. exact Ho.
      - split; [apply insert_outside; assumption|].
        exists a'. apply lookup_insert_eq. }
    apply bind_inv in E as [(e & E1 & ->)|([] & [h2 g2] & E1 & E)].
    + apply Hcycles in E1 as [Hsub' _]. split; [exact Hsub'|discriminate].
    + apply Hcycles in E1 as [Hsub' [a0 Ha0]]. injection E as <- <- _.
      split; [exact Hsub'|]. intros r' [= <-]. split; [reflexivity|].
      intros nr nc dl indices indptr. rewrite Ha0. discriminate.
  - specialize (Hdl _ _ _ _ _ Ho).
    apply bind_inv in E as [(e & E1 & ->)|(a & w1 & E1 & E)].
    { apply load_array_state in E1. injection E1 as <- _. split; [exact Hsub|discriminate]. }
    apply load_array_state in E1. subst w1.
    apply bind_inv in E as [(e & E1 & ->)|(p & w1 & E1 & E)].
    { apply of_option_state in E1. injection E1 as <- _. split; [exact Hsub|discriminate]. }
    apply of_option_state in E1. subst w1.
    assert (Hcycles : forall res0 h0 g0,
      Sequencing.pcr_cycles (Z.to_nat n_cycles) dl (1%nat :: Np.shape a)
        (Np.mk_ndarray [1%nat; length p] p) (h1, g) = (res0, (h0, g0)) -> h ⊆ h0).
    { intros res0 h0 g0 E0. apply pcr_cycles_touch in E0 as [->|[a' ->]];
        [exact Hsub|apply insert_outside; assumption]. }
    apply bind_inv in E as [(e & E1 & ->)|([] & [h2 g2] & E1 & E)].
    { apply Hcycles in E1. split; [exact E1|discriminate]. }
    apply Hcycles in E1.
    apply bind_inv in E as [(e & E2 & ->)|(a1 & w1 & E2 & E)].
    { apply load_array_state in E2. injection E2 as <- _. split; [exact E1|discriminate]. }
    apply load_array_state in E2. subst w1. cbn in E. injection E as <- <- _.
    pose proof (fresh_outside h h2 E1) as Hfresh.
    split; [apply insert_outside; [apply insert_outside|]; assumption|].
    intros r' [= <-]. split; [reflexivity|].
    intros nr' nc' dl' indices' indptr'. rewrite lookup_insert_eq.
    intros [= _ _ <- _ _]. exact Hfresh.
Qed.

(** C6: with [copy=True], whatever [pcr_noise] does (return or raise),
    every object of the store it was called in, the caller's [read_counts]
    and the [data] of a sparse one among them, is as it was; and what it
    returns is a new object, on a new [data] array when it is sparse. *)
Theorem pcr_noise_copy_keeps_input r pcr_betas n_cycles h g res h' g' :
  Sequencing.pcr_noise r pcr_betas n_cycles true (h, g) = (res, (h', g')) ->
  (forall l o, h !! l = Some o -> h' !! l = Some o) /\
  forall r', res = inr r' ->
    h !! r' = None /\
    forall nr nc dl indices indptr,
      h' !! r' = Some (Sequencing.Csr nr nc dl indices indptr) -> h !! dl = None.
Proof.
  intros E. rewrite pcr_noise_on_copy in E.
  destruct (Sequencing.any_negative (Np.flat pcr_betas)).
  { injection E as <- <- _. split; [tauto|discriminate]. }
  apply bind_inv in E as [(e & E1 & ->)|(r1 & [h1 g1] & E1 & E)].
  { apply copy_obj_frame in E1 as [Hsub _].
    split; [|discriminate]. intros l o Hl. eapply lookup_weaken; eassumption. }
  apply copy_obj_frame in E1 as [Hsub Hnew].
  destruct (Hnew r1 eq_refl) as [Hr1 Hdl].
  destruct (pcr_noise_in_place_frame h h1 g1 r1 _ _ _ _ _ E Hsub Hr1 Hdl)
    as [Hsub' Hres].
  split; [intros l o Hl; eapply lookup_weaken; eassumption|].
  intros r' Hr'. destruct (Hres r' Hr') as [-> Hdl']. split; assumption.
Qed.

End Frame.

Lemma pcr_noise_copy_keeps_input_witness :
  let h : gmap nat Sequencing.obj :=
    <[ 0%nat := Sequencing.Csr 2 3 1 [0; 2; 1]%nat [0; 2; 3]%nat ]>
      {[ 1%nat := Sequencing.Ndarray (Np.mk_ndarray [3%nat] [2; 3; 1]) ]} in
  let out := Sequencing.pcr_noise 0%nat (Np.scalar (1 # 2)%Q) 2 true (h, 0 : Z) in
  (forall l o, h !! l = Some o -> fst (snd out) !! l = Some o) /\
  forall r', fst out = inr r' ->
    h !! r' = None /\
    forall nr nc dl indices indptr,
      fst (snd out) !! r' = Some (Sequencing.Csr nr nc dl indices indptr) ->
      h !! dl = None.
Proof.
  intros h out.
  apply (pcr_noise_copy_keeps_input 0%nat (Np.scalar (1 # 2)%Q) 2 h (0 : Z)
           (fst out) (fst (snd out)) (snd (snd out))).
  vm_compute. reflexivity.
Defined.

Lemma expit_open_unit (x : R) : (0 < Drug.expit x < 1)%R.
Proof.
  unfold Drug.expit. pose proof (exp_pos (- x)) as Hpos.
  assert (Hinv : (0 < / (1 + exp (- x)))%R) by (apply Rinv_0_lt_compat; lra).
  assert (Hone : ((1 + exp (- x)) * / (1 + exp (- x)) = 1)%R)
    by (apply Rinv_r; lra).
  unfold Rdiv. split; nra.
Qed.

(** In exact arithmetic every entry of [response] lies strictly between 0
    and 1, one row per sample and one column per dose. *)
Lemma response_exact_open_unit (latent_exp : list (list R)) (z_weights doses : list R)
  (out : list (list R)) :
  Drug.response latent_exp z_weights doses = inr out ->
  length out = length latent_exp /\
  Forall (fun row => length row = length doses /\
                     Forall (fun v => (0 < v < 1)%R) row) out.
Proof.
  unfold Drug.response. destruct (forallb _ _); [|discriminate].
  intros [= <-]. split; [apply length_map|].
  apply Forall_map, Forall_forall. intros row _. cbn. split; [apply length_map|].
  apply Forall_map, Forall_forall. intros d _. apply expit_open_unit.
Qed.

(** * Further properties of the code *)

(** ** [pcr_noise] in place: what is written where *)

Section InPlaceRun.
Context {G : Type} `{RandomStateLaws G}.
Implicit Types (h : gmap nat Sequencing.obj) (g : G).

(** A return of [pcr_noise] in place, read back: the rounds ran on one array
    [d] of the store (the dense array itself, or the [data] array of the
    sparse matrix), and the store afterwards is the one before with [d]
    amplified and, for a sparse matrix, [data] rebound to a new flat copy. *)
Lemma pcr_noise_in_place_run r pcr_betas n_cycles h g r' h' g' c :
  Sequencing.pcr_noise r pcr_betas n_cycles false (h, g) = (inr r', (h', g')) ->
  view h r = Some c -> well_formed h r ->
  r' = r /\
  exists d view_shape p a a',
    h !! d = Some (Sequencing.Ndarray a) /\
    length (Np.flat a) = Np.size_of view_shape /\
    (forall P : Q -> Prop, Forall P (Np.flat pcr_betas) -> Forall P (Np.flat p)) /\
    Sequencing.pcr_cycles (Z.to_nat n_cycles) d view_shape p (h, g)
      = (inr tt, (<[d:=Sequencing.Ndarray a']> h, g')) /\
    match c with
    | Dense a0 => a0 = a /\ d = r /\ h' = <[r:=Sequencing.Ndarray a']> h
    | Sparse m =>
        Np.flat a = Sp.data m /\
        h !! r = Some (Sequencing.Csr (Sp.nrows m) (Sp.ncols m) d
                         (Sp.indices m) (Sp.indptr m)) /\
        h' = <[r:=Sequencing.Csr (Sp.nrows m) (Sp.ncols m)
                    (fresh (dom (<[d:=Sequencing.Ndarray a']> h)))
                    (Sp.indices m) (Sp.indptr m)]>
               (<[fresh (dom (<[d:=Sequencing.Ndarray a']> h))
                    :=Sequencing.Ndarray
                        (Np.mk_ndarray [length (Np.flat a')] (Np.flat a'))]>
                  (<[d:=Sequencing.Ndarray a']> h))
    end.
Proof.
  intros E Hview Hwf. unfold Sequencing.pcr_noise in E.
  destruct (Sequencing.any_negative (Np.flat pcr_betas)); [discriminate|].
  apply bind_inr_inv in E. destruct E as (r0 & w0 & E0 & E).
  injection E0 as <- <-.
  apply bind_inr_inv in E. destruct E as (o & w1 & E1 & E).
  apply load_inv in E1. destruct E1 as [-> Ho].
  apply bind_inr_inv in E. destruct E as (n_features & w2 & E2 & E).
  apply shape1_inv in E2. subst w2.
  apply bind_inr_inv in E. destruct E as (betas & w3 & E3 & E).
  apply of_option_inv in E3. destruct E3 as [Hbetas ->].
  unfold view in Hview. unfold well_formed in Hwf. rewrite Ho in Hview, Hwf.
  destruct o as [a|nr nc dl indices indptr].
  - injection Hview as <-.
    apply bind_inr_inv in E. destruct E as ([] & w4 & E4 & E).
    injection E as <- ->.
    destruct (pcr_cycles_inv _ _ _ _ _ _ _ _ E4 Ho Hwf)
      as (a' & g1 & [= -> ->] & _).
    split; [reflexivity|].
    exists r, (Np.shape a), (Np.mk_ndarray [1%nat; n_features] betas), a, a'.
    repeat split; try assumption.
    intros P HP. cbn [Np.flat]. eapply broadcast_to_Forall; eassumption.
  - destruct (h !! dl) as [[a|]|] eqn:Hdl; try discriminate.
    injection Hview as <-.
    apply bind_inr_inv in E. destruct E as (a0 & w4 & E4 & E).
    apply load_array_inv in E4. destruct E4 as [-> Ha0].
    rewrite Hdl in Ha0. injection Ha0 as <-.
    apply bind_inr_inv in E. destruct E as (p & w5 & E5 & E).
    apply of_option_inv in E5. destruct E5 as [Hp ->].
    apply bind_inr_inv in E. destruct E as ([] & w6 & E6 & E).
    assert (Hlen : length (Np.flat a) = Np.size_of (1%nat :: Np.shape a)).
    { rewrite Hwf. cbn. lia. }
    destruct (pcr_cycles_inv _ _ _ _ _ _ _ _ E6 Hdl Hlen)
      as (a' & g1 & -> & _).
    apply bind_inr_inv in E. destruct E as (a1 & w7 & E7 & E).
    apply load_array_inv in E7. destruct E7 as [-> Ha1].
    rewrite lookup_insert_eq in Ha1. injection Ha1 as <-.
    cbn in E. injection E as <- <- <-.
    split; [reflexivity|].
    exists dl, (1%nat :: Np.shape a), (Np.mk_ndarray [1%nat; length p] p), a, a'.
    cbn [Sp.data Sp.nrows Sp.ncols Sp.indices Sp.indptr].
    repeat split; try assumption.
    intros P HP. cbn [Np.flat].
    pose proof (broadcast_to_Forall P _ _ _ Hbetas HP) as Hall.
    apply (sequence_map_inv (fun j => betas !! j) P _ _ Hp).
    intros j b Hb. rewrite Forall_forall in Hall.
    eapply Hall, list_elem_of_lookup_2, Hb.
Qed.

(** The matrix at the returned object after such a run. *)
Lemma view_after_run r h c d (a' : Np.ndarray Z) h' :
  view h r = Some c ->
  match c with
  | Dense a0 => d = r /\ h' = <[r:=Sequencing.Ndarray a']> h
  | Sparse m =>
      h' = <[r:=Sequencing.Csr (Sp.nrows m) (Sp.ncols m)
                  (fresh (dom (<[d:=Sequencing.Ndarray a']> h)))
                  (Sp.indices m) (Sp.indptr m)]>
             (<[fresh (dom (<[d:=Sequencing.Ndarray a']> h))
                  :=Sequencing.Ndarray
                      (Np.mk_ndarray [length (Np.flat a')] (Np.flat a'))]>
                (<[d:=Sequencing.Ndarray a']> h))
  end ->
  view h' r = Some (match c with
                    | Dense _ => Dense a'
                    | Sparse m => Sparse (Sp.mk_csr (Sp.nrows m) (Sp.ncols m)
                                            (Np.flat a') (Sp.indices m) (Sp.indptr m))
                    end).
Proof.
  intros Hview Hh'. destruct c as [a0|m].
  - destruct Hh' as [-> ->]. unfold view. rewrite lookup_insert_eq. reflexivity.
  - subst h'. unfold view. rewrite lookup_insert_eq.
    assert (Hfresh : fresh (dom (<[d:=Sequencing.Ndarray a']> h)) <> r).
    { intros Heq. pose proof (is_fresh (dom (<[d:=Sequencing.Ndarray a']> h))) as Hf.
      rewrite Heq in Hf. apply Hf. rewrite dom_insert_L.
      apply elem_of_union_r, elem_of_dom. unfold view in Hview.
      destruct (h !! r); [eexists; reflexivity|discriminate]. }
    rewrite lookup_insert_ne by (intros Heq; apply Hfresh; symmetry; exact Heq).
    rewrite lookup_insert_eq. reflexivity.
Qed.

End InPlaceRun.

(** ** [pcr_noise] at most doubles a count per round *)

Section Doubling.
Context {G : Type} `{RandomStateLaws G}.
Implicit Types (h : gmap nat Sequencing.obj) (g : G).


End Doubling.


(** ** Dense counts: zeros stay zeros, and only zeros *)

Section DenseZeros.
Context {G : Type} `{RandomStateLaws G}.
Implicit Types (h : gmap nat Sequencing.obj) (g : G).


End DenseZeros.


(** ** [copy=False]: what the caller's objects hold afterwards *)

Section InPlace.
Context {G : Type} `{RandomStateLaws G}.
Implicit Types (h : gmap nat Sequencing.obj) (g : G).



End InPlace.



(** ** What the rounds refuse *)

Section Refusals.
Context {G : Type} `{RandomStateLaws G}.
Implicit Types (h : gmap nat Sequencing.obj) (g : G).

(** A round whose draw is refused leaves the store and the generator as
    they were, and so do the rounds that start with it. *)
Lemma pcr_cycles_raise n d view_shape p h g a e :
  h !! d = Some (Sequencing.Ndarray a) ->
  NpRandom.binomial (Np.mk_ndarray view_shape (Np.flat a)) p view_shape g = (inl e, g) ->
  Sequencing.pcr_cycles (S n) d view_shape p (h, g) = (inl e, (h, g)).
Proof.
  intros Hd Eb. cbn [Sequencing.pcr_cycles].
  apply bind_raise. unfold Sequencing.pcr_cycle.
  rewrite (bind_ok _ _ _ _ _ (load_array_ok h g d a Hd)).
  apply bind_raise. unfold Sequencing.with_generator. cbn [fst snd].
  rewrite Eb. reflexivity.
Qed.

Lemma binomial_rejects_p (n : Np.ndarray Z) (p : Np.ndarray Q) (size : list nat) g :
  Exists (fun b => (1 < b)%Q) (Np.flat p) ->
  NpRandom.binomial n p size g
  = (inl (ValueError "p < 0, p > 1 or p contains NaNs"), g).
Proof.
  intros Hex. unfold NpRandom.binomial.
  destruct (forallb NpRandom.is_probability (Np.flat p)) eqn:Ep; [|reflexivity].
  exfalso. apply forallb_Forall in Ep.
  apply Exists_exists in Hex. destruct Hex as (b & Hb & Hlt).
  rewrite Forall_forall in Ep. apply Ep, is_probability_spec in Hb. lra.
Qed.

Lemma binomial_rejects_n (n : Np.ndarray Z) (p : Np.ndarray Q) (size : list nat) g :
  Forall (fun b => (0 <= b)%Q /\ (b <= 1)%Q) (Np.flat p) ->
  Exists (fun x => x < 0) (Np.flat n) ->
  NpRandom.binomial n p size g = (inl (ValueError "n < 0"), g).
Proof.
  intros Hp Hex. unfold NpRandom.binomial.
  rewrite (is_probability_all _ Hp). cbn [negb].
  destruct (existsb (fun x => x <? 0) (Np.flat n)) eqn:En; [reflexivity|].
  exfalso. apply Exists_exists in Hex. destruct Hex as (x & Hx & Hlt).
  apply list_elem_of_In in Hx.
  assert (Ht : existsb (fun x => x <? 0) (Np.flat n) = true).
  { apply existsb_exists. exists x. split; [exact Hx|]. apply Z.ltb_lt, Hlt. }
  congruence.
Qed.

(** The dense path up to the first round, when that round's draw is
    refused. *)
Lemma pcr_noise_dense_raise r pcr_betas betas n_cycles h g a nf e :
  h !! r = Some (Sequencing.Ndarray a) ->
  Np.shape a !! 1%nat = Some nf ->
  Forall (fun b => (0 <= b)%Q) (Np.flat pcr_betas) ->
  Np.broadcast_to pcr_betas [1%nat; nf] = Some betas ->
  0 < n_cycles ->
  (forall g0, NpRandom.binomial (Np.mk_ndarray (Np.shape a) (Np.flat a))
                (Np.mk_ndarray [1%nat; nf] betas) (Np.shape a) g0 = (inl e, g0)) ->
  forall copy, exists h',
    Sequencing.pcr_noise r pcr_betas n_cycles copy (h, g) = (inl e, (h', g)) /\
    h ⊆ h' /\ (copy = false -> h' = h).
Proof.
  intros Hr Hnf Hpos Hbetas Hn Hb copy.
  assert (Hin : forall h1 r1, h1 !! r1 = Some (Sequencing.Ndarray a) ->
            Sequencing.pcr_noise r1 pcr_betas n_cycles false (h1, g)
            = (inl e, (h1, g))).
  { intros h1 r1 Hr1. unfold Sequencing.pcr_noise.
    rewrite (any_negative_false _ Hpos).
    unfold bind at 1. cbn [ret].
    unfold bind at 1, Sequencing.load. cbn [fst]. rewrite Hr1.
    unfold bind at 1. cbn [Sequencing.shape1]. rewrite Hnf.
    cbn [of_option ret]. rewrite Hbetas. unfold bind at 1. cbn [of_option ret].
    apply bind_raise.
    destruct (Z.to_nat n_cycles) as [|n] eqn:En; [lia|].
    eapply pcr_cycles_raise; [exact Hr1|apply Hb]. }
  destruct copy.
  - assert (Hview : view h r = Some (Dense a)) by (unfold view; rewrite Hr; reflexivity).
    exists (<[fresh (dom h):=Sequencing.Ndarray a]> h).
    split; [|split; [apply insert_subseteq, fresh_lookup|discriminate]].
    rewrite pcr_noise_on_copy, (any_negative_false _ Hpos).
    assert (Ec : Sequencing.copy_obj r (h, g)
                 = (inr (fresh (dom h)), (<[fresh (dom h):=Sequencing.Ndarray a]> h, g))).
    { unfold Sequencing.copy_obj, bind, Sequencing.load. cbn [fst].
      rewrite Hr. reflexivity. }
    rewrite (bind_ok _ _ _ _ _ Ec). apply Hin, lookup_insert_eq.
  - exists h. split; [apply Hin, Hr|]. split; [reflexivity|]. reflexivity.
Qed.

(** X5: An efficiency above 1 on a dense matrix with at least one round: NumPy's
    binomial refuses it in the first round; nothing was drawn, and in place
    nothing was written. *)
Theorem pcr_noise_dense_rejects_efficiency_above_one
  r pcr_betas betas n_cycles copy h g a nf :
  h !! r = Some (Sequencing.Ndarray a) ->
  Np.shape a !! 1%nat = Some nf ->
  Forall (fun b => (0 <= b)%Q) (Np.flat pcr_betas) ->
  Np.broadcast_to pcr_betas [1%nat; nf] = Some betas ->
  Exists (fun b => (1 < b)%Q) betas ->
  0 < n_cycles ->
  exists h',
    Sequencing.pcr_noise r pcr_betas n_cycles copy (h, g)
      = (inl (ValueError "p < 0, p > 1 or p contains NaNs"), (h', g)) /\
    h ⊆ h' /\ (copy = false -> h' = h).
Proof.
  intros Hr Hnf Hpos Hbetas Hex Hn.
  eapply pcr_noise_dense_raise; try eassumption.
  intros g0. apply binomial_rejects_p. exact Hex.
Qed.

(** X6: A negative count in a dense matrix, efficiencies that are
    probabilities and at least one round: the draw is refused with
    [n < 0]; nothing was drawn, and in place nothing was written. *)
Theorem pcr_noise_dense_rejects_negative_counts
  r pcr_betas betas n_cycles copy h g a nf :
  h !! r = Some (Sequencing.Ndarray a) ->
  Np.shape a !! 1%nat = Some nf ->
  Forall (fun b => (0 <= b)%Q /\ (b <= 1)%Q) (Np.flat pcr_betas) ->
  Np.broadcast_to pcr_betas [1%nat; nf] = Some betas ->
  Exists (fun x => x < 0) (Np.flat a) ->
  0 < n_cycles ->
  exists h',
    Sequencing.pcr_noise r pcr_betas n_cycles copy (h, g)
      = (inl (ValueError "n < 0"), (h', g)) /\
    h ⊆ h' /\ (copy = false -> h' = h).
Proof.
  intros Hr Hnf Hprob Hbetas Hex Hn.
  pose proof Hprob as Hprob'. apply Forall_and in Hprob' as [Hpos _].
  eapply pcr_noise_dense_raise; try eassumption.
  intros g0. apply binomial_rejects_n; [|exact Hex].
  cbn [Np.flat]. eapply broadcast_to_Forall; eassumption.
Qed.

End Refusals.

Lemma pcr_noise_dense_rejects_efficiency_above_one_witness :
  let h : gmap nat Sequencing.obj :=
    {[ 0%nat := Sequencing.Ndarray (Np.mk_ndarray [1%nat; 2%nat] [2; 3]) ]} in
  exists h',
    Sequencing.pcr_noise 0%nat (Np.mk_ndarray [2%nat] [1 # 2; 3 # 2]%Q) 1 false
      (h, 0 : Z)
      = (inl (ValueError "p < 0, p > 1 or p contains NaNs"), (h', 0 : Z)) /\
    h ⊆ h' /\ (false = false -> h' = h).
Proof.
  intros h.
  apply (pcr_noise_dense_rejects_efficiency_above_one 0%nat
           (Np.mk_ndarray [2%nat] [1 # 2; 3 # 2]%Q) [1 # 2; 3 # 2]%Q 1 false h (0 : Z)
           (Np.mk_ndarray [1%nat; 2%nat] [2; 3]) 2%nat).
  - reflexivity.
  - reflexivity.
  - repeat constructor; discriminate.
  - vm_compute. reflexivity.
  - right. left. reflexivity.
  - lia.
Defined.

Lemma pcr_noise_dense_rejects_negative_counts_witness :
  let h : gmap nat Sequencing.obj :=
    {[ 0%nat := Sequencing.Ndarray (Np.mk_ndarray [1%nat; 2%nat] [2; -3]) ]} in
  exists h',
    Sequencing.pcr_noise 0%nat (Np.scalar (1 # 2)%Q) 1 true (h, 0 : Z)
      = (inl (ValueError "n < 0"), (h', 0 : Z)) /\
    h ⊆ h' /\ (true = false -> h' = h).
Proof.
  intros h.
  apply (pcr_noise_dense_rejects_negative_counts 0%nat
           (Np.scalar (1 # 2)%Q) [1 # 2; 1 # 2]%Q 1 true h (0 : Z)
           (Np.mk_ndarray [1%nat; 2%nat] [2; -3]) 2%nat).
  - reflexivity.
  - reflexivity.
  - repeat constructor; discriminate.
  - vm_compute. reflexivity.
  - right. left. reflexivity.
  - lia.
Defined.

(** ** Sparse counts: only the efficiencies of stored columns are used *)


Section StoredColumns.
Context {G : Type} `{RandomStateLaws G}.
Implicit Types (h : gmap nat Sequencing.obj) (g : G).



End StoredColumns.


(** ** No round to run *)

Section NoRounds.
Context {G : Type} `{RandomStateLaws G}.
Implicit Types (h : gmap nat Sequencing.obj) (g : G).

(** X8: For [n_cycles <= 0] the loop body never runs: [pcr_noise] returns a
    matrix equal to its input and draws nothing, whatever the (non-negative)
    efficiencies are. *)
Theorem pcr_noise_no_rounds r pcr_betas betas n_cycles copy h g c nf :
  n_cycles <= 0 ->
  view h r = Some c -> well_formed h r -> amplifiable c ->
  n_features c = Some nf ->
  Np.broadcast_to pcr_betas [1%nat; nf] = Some betas ->
  Forall (fun b => (0 <= b)%Q) (Np.flat pcr_betas) ->
  exists r' h',
    Sequencing.pcr_noise r pcr_betas n_cycles copy (h, g) = (inr r', (h', g)) /\
    view h' r' = Some c.
Proof.
  intros Hn Hview Hwf Hamp Hnf Hbetas Hpos.
  assert (Hz : Z.to_nat n_cycles = 0%nat) by lia.
  destruct (pcr_noise_returns r pcr_betas betas n_cycles copy h g c nf
              Hview Hwf Hamp Hnf Hbetas Hpos (or_introl Hz)) as (r' & h' & g' & E).
  destruct (pcr_noise_inv _ _ _ _ _ _ _ _ _ _ E Hview Hwf) as (c' & Hv' & _ & Hc).
  rewrite (Hc Hz) in Hv'.
  assert (Hg : g' = g).
  { destruct copy.
    - pose proof E as E'. rewrite pcr_noise_on_copy in E'.
      rewrite (any_negative_false _ Hpos) in E'.
      destruct (copy_obj_spec r h g c Hview Hwf) as (r1 & h1 & Ec & Hv1 & Hwf1 & _ & _).
      rewrite (bind_ok _ _ _ _ _ Ec) in E'.
      destruct (pcr_noise_in_place_run _ _ _ _ _ _ _ _ _ E' Hv1 Hwf1)
        as (_ & d & vs & p & a & a' & _ & _ & _ & Ecyc & _).
      rewrite Hz in Ecyc. cbn in Ecyc. unfold ret in Ecyc. congruence.
    - destruct (pcr_noise_in_place_run _ _ _ _ _ _ _ _ _ E Hview Hwf)
        as (_ & d & vs & p & a & a' & _ & _ & _ & Ecyc & _).
      rewrite Hz in Ecyc. cbn in Ecyc. unfold ret in Ecyc. congruence. }
  subst g'. exists r', h'. split; assumption.
Qed.

End NoRounds.

Lemma pcr_noise_no_rounds_witness :
  let h : gmap nat Sequencing.obj :=
    {[ 0%nat := Sequencing.Ndarray (Np.mk_ndarray [1%nat; 2%nat] [2; 3]) ]} in
  exists r' h',
    Sequencing.pcr_noise 0%nat (Np.scalar (7 # 2)%Q) (-4) true (h, 5 : Z)
      = (inr r', (h', 5 : Z)) /\
    view h' r' = Some (Dense (Np.mk_ndarray [1%nat; 2%nat] [2; 3])).
Proof.
  intros h.
  apply (pcr_noise_no_rounds 0%nat (Np.scalar (7 # 2)%Q) [7 # 2; 7 # 2]%Q
           (-4) true h (5 : Z) (Dense (Np.mk_ndarray [1%nat; 2%nat] [2; 3])) 2%nat).
  - lia.
  - reflexivity.
  - vm_compute. reflexivity.
  - split; [reflexivity|]. repeat constructor; lia.
  - reflexivity.
  - vm_compute. reflexivity.
  - repeat constructor; discriminate.
Defined.

(** ** Efficiencies 0 and 1: the rounds are no longer random *)

#[global] Instance lcg_binomial_degenerate : BinomialDegenerate Z.
Proof.
  split; intros n p g Hp; cbn; unfold Lcg.binomial; cbn [fst].
  - apply Qeq_bool_iff in Hp. rewrite Hp. reflexivity.
  - destruct (Qeq_bool p 0) eqn:E0.
    + apply Qeq_bool_iff in E0. rewrite E0 in Hp. discriminate.
    + apply Qeq_bool_iff in Hp. rewrite Hp. reflexivity.
Qed.


Lemma iter_id {A : Type} (n : nat) (x : A) : Nat.iter n (fun y => y) x = x.
Proof. induction n as [|n IH]; [reflexivity|]. rewrite Nat.iter_succ. exact IH. Qed.

Lemma Forall2_map_graph {A B : Type} (f : A -> B) (l : list A) :
  Forall2 (fun x y => y = f x) l (map f l).
Proof. induction l as [|x l IH]; constructor; [reflexivity|exact IH]. Qed.

(** Rounds whose draws are determined: every efficiency meets [Pp], and on
    a count that meets [I (S m)], with [m] rounds to follow, the count and
    its draw add up to [f] of the count, which meets [I m]. *)
Section Uniform.
Context {G : Type} `{RandomStateLaws G} `{!BinomialDegenerate G}.
Implicit Types (h : gmap nat Sequencing.obj) (g : G).
Variable f : Z -> Z.
Variable Pp : Q -> Prop.
Variable I : nat -> Z -> Prop.
Hypothesis Pp_prob : forall q, Pp q -> (0 <= q)%Q /\ (q <= 1)%Q.
Hypothesis I_nonneg : forall m x, I m x -> 0 <= x.
Hypothesis draw_f : forall m x q (g0 : G),
  Pp q -> I (S m) x ->
  add_int64 x (fst (draw_binomial x q g0)) = f x /\ I m (f x).

Lemma binomial_draws_exact (m : nat) (ns : list Z) (ps : list Q) g extra g' :
  Forall Pp ps -> length ns = length ps -> Forall (I (S m)) ns ->
  mapM (fun np => sample (draw_binomial (fst np) (snd np))) (zip ns ps) g
    = (inr extra, g') ->
  zip_with add_int64 ns extra = map f ns /\ Forall (I m) (map f ns).
Proof.
  intros Hps Hlen Hns E.
  destruct (mapM_ok (fun np => sample (draw_binomial (fst np) (snd np)))
              (fun np k => add_int64 (fst np) k = f (fst np) /\ I m (f (fst np)))
              (zip ns ps) g)
    as (out & g1 & E' & Hf).
  { intros [n q] Hin s0. apply list_elem_of_In in Hin.
    pose proof (elem_of_zip_l _ _ _ _ Hin) as Hn.
    pose proof (elem_of_zip_r _ _ _ _ Hin) as Hq.
    rewrite Forall_forall in Hps. rewrite Forall_forall in Hns.
    eexists _, _. split; [reflexivity|]. cbn [fst snd].
    apply draw_f; [apply Hps, Hq|apply Hns, Hn]. }
  rewrite E' in E. injection E as -> ->. clear E' Hps Hns.
  revert ps extra Hlen Hf. induction ns as [|n ns IH]; intros [|q ps] extra Hlen Hf;
    cbn in Hlen; try discriminate; inversion Hf as [|? k ? extra' Hk Htl]; subst.
  - split; [reflexivity|constructor].
  - cbn in Hk. destruct Hk as [Hk HI].
    destruct (IH ps extra') as [Ez HIs]; [lia|exact Htl|].
    cbn [zip_with map]. rewrite Hk, Ez. split; [reflexivity|].
    constructor; assumption.
Qed.

Lemma pcr_cycle_exact m d view_shape p h g a w' :
  Forall Pp (Np.flat p) -> Forall (I (S m)) (Np.flat a) ->
  Sequencing.pcr_cycle d view_shape p (h, g) = (inr tt, w') ->
  h !! d = Some (Sequencing.Ndarray a) ->
  length (Np.flat a) = Np.size_of view_shape ->
  Forall (I m) (map f (Np.flat a)) /\
  exists g',
    w' = (<[d:=Sequencing.Ndarray (Np.mk_ndarray (Np.shape a) (map f (Np.flat a)))]> h, g').
Proof.
  intros HP HI E Hd Hlen. unfold Sequencing.pcr_cycle in E.
  rewrite (bind_ok _ _ _ _ _ (load_array_ok h g d a Hd)) in E.
  apply bind_inr_inv in E. destruct E as (extra & [h1 g2] & Eb & Es).
  unfold Sequencing.with_generator in Eb. cbn [fst snd] in Eb.
  destruct (NpRandom.binomial (Np.mk_ndarray view_shape (Np.flat a)) p view_shape g)
    as [[e|extra'] g3] eqn:Ebin; cbn [fst snd] in Eb; [discriminate|].
  injection Eb as -> <- <-.
  unfold NpRandom.binomial in Ebin. cbn [Np.flat] in Ebin.
  destruct (negb (forallb NpRandom.is_probability (Np.flat p))); [discriminate|].
  destruct (existsb (fun x => x <? 0) (Np.flat a)); [discriminate|].
  rewrite (broadcast_to_id view_shape (Np.flat a) Hlen) in Ebin.
  destruct (Np.broadcast_to p view_shape) as [ps|] eqn:Bp; [|discriminate].
  pose proof (broadcast_to_Forall Pp _ _ _ Bp HP) as Hps.
  apply broadcast_to_length in Bp.
  apply (binomial_draws_exact m) in Ebin; [|exact Hps|congruence|exact HI].
  destruct Ebin as [Ebin HIs]. split; [exact HIs|].
  unfold Sequencing.store in Es. cbn [fst snd] in Es. injection Es as <-.
  exists g3. rewrite Ebin. reflexivity.
Qed.

Lemma pcr_cycles_exact n d view_shape p : forall h g a w',
  Forall Pp (Np.flat p) -> Forall (I n) (Np.flat a) ->
  Sequencing.pcr_cycles n d view_shape p (h, g) = (inr tt, w') ->
  h !! d = Some (Sequencing.Ndarray a) ->
  length (Np.flat a) = Np.size_of view_shape ->
  exists g',
    w' = (<[d:=Sequencing.Ndarray
                 (Np.mk_ndarray (Np.shape a) (map (Nat.iter n f) (Np.flat a)))]> h, g').
Proof.
  induction n as [|n IH]; intros h g a w' HP HI E Hd Hlen.
  - cbn in E. unfold ret in E. injection E as <-. exists g.
    rewrite map_id. destruct a as [sh fl]. cbn [Np.shape Np.flat].
    rewrite (insert_id h d _ Hd). reflexivity.
  - cbn [Sequencing.pcr_cycles] in E. apply bind_inr_inv in E.
    destruct E as ([] & w1 & E1 & E2).
    destruct (pcr_cycle_exact n _ _ _ _ _ _ _ HP HI E1 Hd Hlen) as (HI1 & g1 & ->).
    destruct (IH _ _ (Np.mk_ndarray (Np.shape a) (map f (Np.flat a))) _
                HP HI1 E2 (lookup_insert_eq _ _ _)) as (g2 & ->).
    { cbn [Np.flat]. rewrite length_map. exact Hlen. }
    exists g2. rewrite insert_insert_eq. cbn [Np.shape Np.flat].
    rewrite map_map. do 4 f_equal. apply map_ext. intros x.
    symmetry. apply Nat.iter_succ_r.
Qed.

(** Such rounds return, however many they are. *)
Lemma pcr_cycles_exact_return n d view_shape p ps : forall h g a,
  h !! d = Some (Sequencing.Ndarray a) ->
  length (Np.flat a) = Np.size_of view_shape ->
  Forall (I n) (Np.flat a) -> Forall Pp (Np.flat p) ->
  Np.broadcast_to p view_shape = Some ps ->
  exists a' g',
    Sequencing.pcr_cycles n d view_shape p (h, g)
      = (inr tt, (<[d:=Sequencing.Ndarray a']> h, g')).
Proof.
  induction n as [|n IH]; intros h g a Hd Hlen HI HP Bp.
  - exists a, g. rewrite (insert_id h d _ Hd). reflexivity.
  - assert (Hn0 : Forall (Z.le 0) (Np.flat a))
      by (eapply Forall_impl; [exact HI|]; apply I_nonneg).
    assert (Hprob : Forall (fun q => (0 <= q)%Q /\ (q <= 1)%Q) (Np.flat p))
      by (eapply Forall_impl; [exact HP|]; apply Pp_prob).
    destruct (pcr_cycle_returns d view_shape p ps h g a Hd Hlen Hn0 Hprob Bp)
      as (w1 & E1).
    destruct (pcr_cycle_exact n _ _ _ _ _ _ _ HP HI E1 Hd Hlen) as (HI1 & g1 & ->).
    destruct (IH (<[d:=Sequencing.Ndarray
                        (Np.mk_ndarray (Np.shape a) (map f (Np.flat a)))]> h) g1
                (Np.mk_ndarray (Np.shape a) (map f (Np.flat a)))
                (lookup_insert_eq _ _ _)) as (a2 & g2 & E2);
      [cbn [Np.flat]; rewrite length_map; exact Hlen|exact HI1|exact HP|exact Bp|].
    exists a2, g2. cbn [Sequencing.pcr_cycles]. rewrite (bind_ok _ _ _ _ _ E1).
    rewrite E2, insert_insert_eq. reflexivity.
Qed.

Lemma pcr_noise_in_place_exact r pcr_betas n_cycles h g r' h' g' c :
  Forall Pp (Np.flat pcr_betas) ->
  Forall (I (Z.to_nat n_cycles)) (entries c) ->
  Sequencing.pcr_noise r pcr_betas n_cycles false (h, g) = (inr r', (h', g')) ->
  view h r = Some c -> well_formed h r ->
  exists c', view h' r' = Some c' /\
             entrywise (fun x y => y = Nat.iter (Z.to_nat n_cycles) f x) c c'.
Proof.
  intros HP HI E Hview Hwf.
  destruct (pcr_noise_in_place_run _ _ _ _ _ _ _ _ _ E Hview Hwf)
    as (-> & d & vs & p & a & a' & Hd & Hlen & Hsel & Ecyc & Hc).
  assert (HIa : Forall (I (Z.to_nat n_cycles)) (Np.flat a)).
  { destruct c as [a0|m]; [destruct Hc as (-> & _); exact HI|].
    destruct Hc as (-> & _). exact HI. }
  destruct (pcr_cycles_exact _ _ _ _ _ _ _ _ (Hsel Pp HP) HIa Ecyc Hd Hlen) as (g1 & Ew).
  assert (Ha : a' = Np.mk_ndarray (Np.shape a)
                      (map (Nat.iter (Z.to_nat n_cycles) f) (Np.flat a))).
  { injection Ew as Eh _.
    match type of Eh with
    | _ = <[_:=?o]> _ =>
        assert (Hl : (<[d:=Sequencing.Ndarray a']> h) !! d = (<[d:=o]> h) !! d)
          by (rewrite Eh; reflexivity)
    end.
    rewrite !lookup_insert_eq in Hl. congruence. }
  pose proof (view_after_run r h c d a' h' Hview) as Hv.
  destruct c as [a0|m].
  - destruct Hc as (-> & -> & ->). eexists. split; [apply Hv; split; reflexivity|].
    rewrite Ha. split; [reflexivity|]. cbn [Np.flat]. apply Forall2_map_graph.
  - destruct Hc as (Hdata & _ & Hh'). eexists. split; [apply Hv, Hh'|].
    cbn. repeat split; try reflexivity.
    rewrite Ha. cbn [Np.flat]. rewrite Hdata. apply Forall2_map_graph.
Qed.

(** On such efficiencies and counts [pcr_noise] returns, and what it returns
    is the input with [f] applied [n_cycles] times to every entry. *)
Lemma pcr_noise_exact r pcr_betas betas n_cycles copy h g c nf :
  view h r = Some c -> well_formed h r -> amplifiable c ->
  n_features c = Some nf ->
  Np.broadcast_to pcr_betas [1%nat; nf] = Some betas ->
  Forall Pp (Np.flat pcr_betas) ->
  Forall (I (Z.to_nat n_cycles)) (entries c) ->
  exists r' h' g' c',
    Sequencing.pcr_noise r pcr_betas n_cycles copy (h, g) = (inr r', (h', g')) /\
    view h' r' = Some c' /\
    entrywise (fun x y => y = Nat.iter (Z.to_nat n_cycles) f x) c c'.
Proof.
  intros Hview Hwf Hamp Hnf Hbetas HP HI.
  assert (Hpos : Forall (fun b => (0 <= b)%Q) (Np.flat pcr_betas)).
  { eapply Forall_impl; [exact HP|]. intros b Hb. apply Pp_prob, Hb. }
  destruct (pcr_noise_returns_when r pcr_betas betas n_cycles copy h g c nf
              Hview Hwf Hamp Hnf Hbetas Hpos) as (r' & h' & g' & E).
  { intros h0 d view_shape p ps a Hd Hflat Hlen Hsel Bp.
    eapply pcr_cycles_exact_return; try eassumption.
    - rewrite Hflat. exact HI.
    - apply Hsel, HP. }
  exists r', h', g'.
  assert (Hex : exists c', view h' r' = Some c' /\
            entrywise (fun x y => y = Nat.iter (Z.to_nat n_cycles) f x) c c').
  { destruct copy.
    - pose proof E as E'. rewrite pcr_noise_on_copy in E'.
      rewrite (any_negative_false _ Hpos) in E'.
      destruct (copy_obj_spec r h g c Hview Hwf) as (r1 & h1 & Ec & Hv1 & Hwf1 & _ & _).
      rewrite (bind_ok _ _ _ _ _ Ec) in E'.
      eapply pcr_noise_in_place_exact; eassumption.
    - eapply pcr_noise_in_place_exact; eassumption. }
  destruct Hex as (c' & Hv' & He). exists c'. split; [exact E|]. split; assumption.
Qed.

End Uniform.

Section Degenerate.
Context {G : Type} `{RandomStateLaws G} `{!BinomialDegenerate G}.
Implicit Types (h : gmap nat Sequencing.obj) (g : G).


(** X10: With every efficiency 0 no round adds anything: on counts it can
    amplify, [pcr_noise] returns a matrix equal to its input, whatever
    [n_cycles] is. *)
Theorem pcr_noise_efficiency_zero_keeps_counts
  r pcr_betas betas n_cycles copy h g c nf :
  view h r = Some c -> well_formed h r -> amplifiable c ->
  n_features c = Some nf ->
  Np.broadcast_to pcr_betas [1%nat; nf] = Some betas ->
  Forall (fun b => (b == 0)%Q) (Np.flat pcr_betas) ->
  exists r' h' g' c',
    Sequencing.pcr_noise r pcr_betas n_cycles copy (h, g) = (inr r', (h', g')) /\
    view h' r' = Some c' /\
    entrywise eq c c'.
Proof.
  intros Hview Hwf Hamp Hnf Hbetas Hzero.
  destruct (pcr_noise_exact (fun x => x) (fun b => (b == 0)%Q) (fun _ x => 0 <= x))
    with (r := r) (pcr_betas := pcr_betas) (betas := betas) (n_cycles := n_cycles)
         (copy := copy) (h := h) (g := g) (c := c) (nf := nf)
    as (r' & h' & g' & c' & E & Hv' & He); try assumption.
  - intros q Hq. rewrite Hq. split; discriminate.
  - intros _ x Hx. exact Hx.
  - intros m x q g0 Hq Hx. rewrite (binomial_never x q g0 Hq), add_int64_zero.
    split; [reflexivity|exact Hx].
  - apply amplifiable_entries, Hamp.
  - exists r', h', g', c'. split; [exact E|]. split; [exact Hv'|].
    eapply entrywise_impl; [|exact He]. cbn. intros x y ->.
    rewrite iter_id. reflexivity.
Qed.

End Degenerate.


Lemma pcr_noise_efficiency_zero_keeps_counts_witness :
  let h : gmap nat Sequencing.obj :=
    {[ 0%nat := Sequencing.Ndarray (Np.mk_ndarray [1%nat; 2%nat] [2; 3]) ]} in
  exists r' h' g' c',
    Sequencing.pcr_noise 0%nat (Np.scalar (0 # 1)%Q) 5 true (h, 0 : Z)
      = (inr r', (h', g')) /\
    view h' r' = Some c' /\
    entrywise eq (Dense (Np.mk_ndarray [1%nat; 2%nat] [2; 3])) c'.
Proof.
  intros h.
  apply (pcr_noise_efficiency_zero_keeps_counts 0%nat (Np.scalar (0 # 1)%Q)
           [0 # 1; 0 # 1]%Q 5 true h (0 : Z)
           (Dense (Np.mk_ndarray [1%nat; 2%nat] [2; 3])) 2%nat).
  - reflexivity.
  - vm_compute. reflexivity.
  - split; [reflexivity|]. repeat constructor; lia.
  - reflexivity.
  - vm_compute. reflexivity.
  - repeat constructor.
Defined.

(** * Sparse output of [umi_counts] *)

(** ** One row: [sp.csr_matrix(row).toarray()] is [row] *)

(** The entries of a row from position [o] on. *)
Lemma entries_before (row : list Z) (o j : nat) :
  (j < o)%nat ->
  List.filter (fun e => Nat.eqb (fst e) j)
    (List.filter (fun jv => negb (Z.eqb (snd jv) 0))
       (imap (fun i v => ((o + i)%nat, v)) row)) = [].
Proof.
  revert o. induction row as [|x row IH]; intros o Hj; [reflexivity|].
  rewrite imap_cons. cbn [List.filter snd].
  assert (Etl : imap ((fun i v => ((o + i)%nat, v)) ∘ S) row
                = imap (fun i v => ((S o + i)%nat, v)) row).
  { apply imap_ext. intros i v _. cbn. f_equal. lia. }
  rewrite Etl.
  destruct (negb (x =? 0)); cbn [List.filter fst].
  - destruct (Nat.eqb_spec (o + 0) j) as [E|_]; [lia|]. apply IH. lia.
  - apply IH. lia.
Qed.

Lemma entries_at (row : list Z) (o j : nat) :
  (o <= j)%nat ->
  sumZ (map snd
          (List.filter (fun e => Nat.eqb (fst e) j)
             (List.filter (fun jv => negb (Z.eqb (snd jv) 0))
                (imap (fun i v => ((o + i)%nat, v)) row))))
  = default 0 (row !! (j - o)%nat).
Proof.
  revert o. induction row as [|x row IH]; intros o Hj; [reflexivity|].
  rewrite imap_cons.
  assert (Etl : imap ((fun i v => ((o + i)%nat, v)) ∘ S) row
                = imap (fun i v => ((S o + i)%nat, v)) row).
  { apply imap_ext. intros i v _. cbn. f_equal. lia. }
  rewrite Etl. cbn [List.filter snd].
  destruct (Nat.eq_dec o j) as [->|Hne].
  - replace (j - j)%nat with 0%nat by lia. cbn [lookup list_lookup default].
    destruct (Z.eqb_spec x 0) as [->|Hx]; cbn [negb List.filter fst].
    + rewrite entries_before by lia. reflexivity.
    + rewrite Nat.add_0_r, Nat.eqb_refl. cbn [map snd].
      rewrite entries_before by lia. cbn. lia.
  - replace (j - o)%nat with (S (j - S o)) by lia. cbn [lookup list_lookup].
    destruct (Z.eqb_spec x 0) as [->|Hx]; cbn [negb List.filter fst].
    + apply IH. lia.
    + destruct (Nat.eqb_spec (o + 0) j) as [E|_]; [lia|]. apply IH. lia.
Qed.

Lemma map_lookup_seq (row : list Z) :
  map (fun j => default 0 (row !! j)) (seq 0 (length row)) = row.
Proof.
  apply list_eq. intros i. rewrite list_lookup_fmap.
  destruct (row !! i) as [x|] eqn:Hi.
  - rewrite lookup_seq_lt by (eapply lookup_lt_Some; exact Hi).
    cbn. rewrite Hi. reflexivity.
  - rewrite lookup_seq_ge by (apply lookup_ge_None; exact Hi). reflexivity.
Qed.

(** The dense row of the entries stored for [row] is [row]. *)
Lemma todense_row_nonzero_entries (row : list Z) :
  todense_row (length row) (Sp.nonzero_entries row) = row.
Proof.
  unfold todense_row, Sp.nonzero_entries.
  transitivity (map (fun j => default 0 (row !! j)) (seq 0 (length row)));
    [|apply map_lookup_seq].
  apply map_ext. intros j.
  pose proof (entries_at row 0 j (Nat.le_0_l j)) as E.
  rewrite Nat.sub_0_r in E. exact E.
Qed.

Lemma nonzero_entries_in (row : list Z) (j : nat) (v : Z) :
  In (j, v) (Sp.nonzero_entries row) -> row !! j = Some v /\ v <> 0.
Proof.
  unfold Sp.nonzero_entries. intros Hin. apply filter_In in Hin.
  destruct Hin as [Hin Hnz]. apply list_elem_of_In in Hin.
  apply elem_of_lookup_imap in Hin. destruct Hin as (i & y & [= Hj Hv] & Hi).
  subst i y. split; [exact Hi|]. cbn in Hnz. destruct (Z.eqb_spec v 0); [discriminate|assumption].
Qed.

(** ** Stacking the rows *)

Lemma zip_tail_snoc {A : Type} (l : list A) (b x : A) :
  last l = Some b ->
  zip (l ++ [x]) (tail (l ++ [x])) = zip l (tail l) ++ [(b, x)].
Proof.
  induction l as [|a [|a' l'] IH]; intros Hb.
  - discriminate.
  - injection Hb as ->. reflexivity.
  - change (zip ((a :: a' :: l') ++ [x]) (tail ((a :: a' :: l') ++ [x])))
      with ((a, a') :: zip ((a' :: l') ++ [x]) (tail ((a' :: l') ++ [x]))).
    rewrite IH by exact Hb. reflexivity.
Qed.

Lemma elem_of_zip_tail (l : list nat) (lo hi : nat) :
  (lo, hi) ∈ zip l (tail l) -> lo ∈ l /\ hi ∈ l.
Proof.
  intros Hin. split.
  - eapply elem_of_zip_l, Hin.
  - apply elem_of_zip_r in Hin. destruct l as [|a l]; [exact Hin|].
    right. exact Hin.
Qed.

(** Appending the entries of one more row to a matrix whose [indptr] ends at
    its number of entries adds that row below the others. *)
Lemma todense_snoc nr nr' nc (data d2 : list Z) (idx i2 ptr : list nat) :
  length idx = length data -> length i2 = length d2 ->
  last ptr = Some (length data) ->
  Forall (fun p => (p <= length data)%nat) ptr ->
  todense (Sp.mk_csr nr' nc (data ++ d2) (idx ++ i2)
             (ptr ++ [(length data + length d2)%nat]))
  = todense (Sp.mk_csr nr nc data idx ptr) ++ [todense_row nc (zip i2 d2)].
Proof.
  intros Hidx Hi2 Hlast Hle. unfold todense.
  cbn [Sp.ncols Sp.indices Sp.data Sp.indptr].
  rewrite (zip_tail_snoc ptr _ _ Hlast), map_app.
  rewrite zip_with_app by exact Hidx.
  assert (HA : length (zip idx data) = length data)
    by (rewrite length_zip_with; lia).
  f_equal.
  - apply map_ext_in. intros [lo hi] Hin. cbn [fst snd].
    apply list_elem_of_In, elem_of_zip_tail in Hin. destruct Hin as [Hlo Hhi].
    rewrite Forall_forall in Hle.
    pose proof (Hle lo Hlo) as Hlo'. pose proof (Hle hi Hhi) as Hhi'.
    f_equal. rewrite drop_app_le by lia.
    apply take_app_le. rewrite length_drop. lia.
  - cbn [map fst snd]. do 2 f_equal.
    rewrite (drop_app_length' (zip idx data) (zip i2 d2) (length data) (eq_sym HA)).
    apply take_ge. rewrite length_zip_with. lia.
Qed.

Lemma entry_rows_snoc (ptr : list nat) (b x : nat) :
  last ptr = Some b ->
  length (Sp.entry_rows (ptr ++ [x])) = (length (Sp.entry_rows ptr) + (x - b))%nat.
Proof.
  intros Hlast. unfold Sp.entry_rows.
  rewrite (zip_tail_snoc ptr _ _ Hlast), imap_app, concat_app, length_app.
  cbn [imap concat fst snd]. rewrite app_nil_r, length_replicate. reflexivity.
Qed.

(** One step of [sp.vstack]. *)
Lemma stacked_snoc (acc : Sp.csr_matrix) (done : list (list Z)) (row : list Z) :
  stacked acc done -> length row = Sp.ncols acc -> Forall (Z.le 0) row ->
  stacked
    (Sp.mk_csr (Sp.nrows acc + 1) (Sp.ncols acc)
       (Sp.data acc ++ map snd (Sp.nonzero_entries row))
       (Sp.indices acc ++ map fst (Sp.nonzero_entries row))
       (Sp.indptr acc
        ++ [(length (Sp.data acc) + length (Sp.nonzero_entries row))%nat]))
    (done ++ [row]).
Proof.
  intros (Hnr & Hidx & Hlast & Hle & Hrows & Hcols & Hpos & Hdense) Hlen Hrow.
  unfold stacked. cbn [Sp.nrows Sp.ncols Sp.data Sp.indices Sp.indptr].
  assert (Hin : forall j v, In (j, v) (Sp.nonzero_entries row) ->
                            (j < Sp.ncols acc)%nat /\ 0 < v).
  { intros j v Hjv. apply nonzero_entries_in in Hjv. destruct Hjv as [Hj Hv].
    split; [rewrite <- Hlen; eapply lookup_lt_Some; exact Hj|].
    rewrite Forall_forall in Hrow.
    assert (0 <= v) by (eapply Hrow, list_elem_of_lookup_2; exact Hj). lia. }
  repeat split.
  - rewrite length_app. cbn. lia.
  - rewrite !length_app, !length_map. lia.
  - rewrite last_snoc, length_app, length_map. reflexivity.
  - apply Forall_app. split.
    + eapply Forall_impl; [exact Hle|]. cbn. intros p Hp. rewrite length_app. lia.
    + constructor; [|constructor]. rewrite length_app, length_map. lia.
  - rewrite (entry_rows_snoc _ _ _ Hlast), Hrows, length_app, length_map. lia.
  - apply Forall_app. split; [exact Hcols|].
    apply Forall_forall. intros j Hj. apply list_elem_of_fmap in Hj.
    destruct Hj as ([j' v] & -> & Hjv). apply list_elem_of_In in Hjv.
    apply (Hin j' v Hjv).
  - apply Forall_app. split; [exact Hpos|].
    apply Forall_forall. intros v Hv. apply list_elem_of_fmap in Hv.
    destruct Hv as ([j v'] & -> & Hjv). apply list_elem_of_In in Hjv.
    apply (Hin j v' Hjv).
  - replace (length (Sp.nonzero_entries row))
      with (length (map snd (Sp.nonzero_entries row))) by apply length_map.
    rewrite (todense_snoc (Sp.nrows acc)) by
      (try assumption; rewrite !length_map; reflexivity).
    f_equal.
    + destruct acc. exact Hdense.
    + rewrite zip_fst_snd, <- Hlen. f_equal. apply todense_row_nonzero_entries.
Qed.

Lemma vstack_from_stacked (rows : list (list Z)) :
  forall (acc : Sp.csr_matrix) (done : list (list Z)),
  stacked acc done ->
  Forall (fun row => length row = Sp.ncols acc /\ Forall (Z.le 0) row) rows ->
  exists m, Sp.vstack_from acc (map Sp.csr_of_row rows) = Some m /\
            stacked m (done ++ rows) /\ Sp.ncols m = Sp.ncols acc.
Proof.
  induction rows as [|row rows IH]; intros acc done Hacc Hrows.
  - exists acc. rewrite app_nil_r. split; [reflexivity|].
    split; [exact Hacc|reflexivity].
  - inversion Hrows as [|? ? [Hlen Hrow] Htl]; subst.
    cbn [map Sp.vstack_from Sp.csr_of_row Sp.ncols Sp.nrows Sp.data Sp.indices
         Sp.indptr tail].
    rewrite Hlen, Nat.eqb_refl.
    pose proof (stacked_snoc acc done row Hacc Hlen Hrow) as Hstep.
    destruct (IH _ _ Hstep Htl) as (m & Em & Hm & Hnc).
    exists m. split; [exact Em|]. split; [|exact Hnc].
    rewrite <- app_assoc in Hm. exact Hm.
Qed.

(** [sp.vstack] of the rows, each made a CSR matrix, stores the rows. *)
Lemma vstack_rows (nf : nat) (rows : list (list Z)) :
  rows <> [] ->
  Forall (fun row => length row = nf /\ Forall (Z.le 0) row) rows ->
  exists m, Sp.vstack (map Sp.csr_of_row rows) = Some m /\
            stacked m rows /\ Sp.ncols m = nf.
Proof.
  intros Hne Hrows. destruct rows as [|row rows]; [contradiction|].
  inversion Hrows as [|? ? [Hlen Hrow] Htl]; subst.
  cbn [map Sp.vstack].
  assert (Hempty : stacked (Sp.mk_csr 0 (length row) [] [] [0%nat]) []).
  { unfold stacked. cbn. repeat split; try reflexivity; repeat constructor. }
  pose proof (stacked_snoc _ [] row Hempty eq_refl Hrow) as Hfirst.
  destruct (vstack_from_stacked rows (Sp.csr_of_row row) [row] Hfirst Htl)
    as (m & Em & Hm & Hnc).
  exists m. split; [exact Em|]. split; [exact Hm|exact Hnc].
Qed.


(** * The cells of [umi_counts] *)

Lemma no_negative_repeats (repeats : list Z) :
  Forall (Z.le 0) repeats -> existsb (fun k => k <? 0) repeats = false.
Proof.
  induction 1 as [|k l Hk _ IH]; [reflexivity|].
  cbn [existsb]. rewrite IH. destruct (Z.ltb_spec k 0); [lia|reflexivity].
Qed.

Section UmiCells.
Context {G : Type} `{RandomStateLaws G}.

(** One cell: the counts drawn for it are non-negative, one per fragment,
    and add up to the library size. *)
Lemma cell_draw_counts (n : Z) (row : list Q) (g : G) :
  0 <= n -> Forall (fun x => (0 <= x)%Q) row -> (0 < sumQ row)%Q ->
  exists out g',
    NpRandom.multinomial n (Sequencing.normalize row) g = (inr out, g') /\
    length out = length row /\ Forall (Z.le 0) out /\ sumZ out = n.
Proof.
  intros Hn Hrow Hs.
  destruct (normalize_probabilities row Hrow Hs) as (-> & Hp & Hsum).
  set (ps := map (fun x => (x / sumQ row)%Q) row) in *.
  assert (Hne : ps <> []).
  { subst ps. destruct row; [cbn in Hs; lra|discriminate]. }
  destruct (multinomial_support n ps g Hn Hne Hp Hsum) as (Hlen & Hnn & Htot).
  exists (fst (draw_multinomial n ps g)), (snd (draw_multinomial n ps g)).
  split; [|split; [rewrite Hlen; subst ps; apply length_map|split; assumption]].
  unfold NpRandom.multinomial. rewrite sequence_map_Some.
  rewrite (is_probability_all ps Hp). cbn [negb].
  apply Qle_bool_iff in Hsum. rewrite Hsum. cbn [negb].
  destruct (Z.ltb_spec n 0); [lia|]. reflexivity.
Qed.

(** [umi_counts] up to the draws: the checks passed, the library sizes
    assigned and the fragments per gene broadcast. *)
Lemma umi_counts_unfold (raw_expression : Np.ndarray Q)
  (lib_size : option (Np.ndarray Z)) (fragments_per_gene : Np.ndarray Z)
  (sparse : bool) (n_genes : nat) (repeats sizes : list Z) (g g1 : G) :
  Forall (fun x => (0 <= x)%Q) (Np.flat raw_expression) ->
  length (Np.shape raw_expression) <> 1%nat ->
  Np.trailing (Np.shape raw_expression) = Some n_genes ->
  match lib_size with
  | None => do s <- Sequencing.library_size_default
                      (Np.leading (Np.shape raw_expression));
            ret (Np.flat s)
  | Some l => of_option (ValueError "operands could not be broadcast together")
                (Np.broadcast_to l (Np.leading (Np.shape raw_expression)))
  end g = (inr sizes, g1) ->
  Np.broadcast_to fragments_per_gene [n_genes] = Some repeats ->
  Sequencing.umi_counts raw_expression lib_size fragments_per_gene sparse g
  = (do fragment_expression <-
       Sequencing.np_repeat (Np.rows raw_expression n_genes) repeats;
     do cell_gene_umis <-
       mapM (fun np => NpRandom.multinomial (fst np) (snd np))
            (zip sizes (map Sequencing.normalize fragment_expression));
     if sparse then Sequencing.vstack_sparse cell_gene_umis
     else Sequencing.vstack_dense (Np.leading (Np.shape raw_expression))
            cell_gene_umis) g1.
Proof.
  intros Hpos Hdim Hlast Esizes Hrep. unfold Sequencing.umi_counts.
  rewrite (any_negative_false _ Hpos).
  destruct (Nat.eqb_spec (length (Np.shape raw_expression)) 1) as [E1|_];
    [contradiction|].
  rewrite Hlast. cbn [of_option]. unfold bind at 1. cbn [ret].
  rewrite (bind_ok _ _ _ _ _ Esizes).
  rewrite Hrep. cbn [of_option]. unfold bind at 1. cbn [ret].
  reflexivity.
Qed.

(** The library sizes [umi_counts] assigns: explicit ones as broadcast,
    default ones as drawn; never negative in the second case. *)
Lemma lib_sizes_assigned (n_cells : list nat) (lib_size : option (Np.ndarray Z)) (g : G) :
  (forall l, lib_size = Some l ->
     exists sizes, Np.broadcast_to l n_cells = Some sizes /\ Forall (Z.le 0) sizes) ->
  exists sizes g1,
    assigned_sizes n_cells lib_size g sizes /\
    match lib_size with
    | None => do s <- Sequencing.library_size_default n_cells; ret (Np.flat s)
    | Some l => of_option (ValueError "operands could not be broadcast together")
                  (Np.broadcast_to l n_cells)
    end g = (inr sizes, g1) /\
    length sizes = Np.size_of n_cells /\ Forall (Z.le 0) sizes /\
    (lib_size <> None -> g1 = g).
Proof.
  intros Hlib. destruct lib_size as [l|].
  - destruct (Hlib l eq_refl) as (sizes & Hb & Hs0).
    exists sizes, g. cbn. rewrite Hb. repeat split; try assumption.
    eapply broadcast_to_length, Hb.
  - destruct (truncnorm_rvs_returns (Fin (-1)) PosInf (15 / 2) (1 / 2) n_cells g)
      as (xs & g1 & E & Hl & _); [exact I|lra|].
    assert (El : Sequencing.library_size_default n_cells g
                 = (inr (Np.mk_ndarray n_cells
                           (map (fun x => astype_int (exp x)) xs)), g1)).
    { unfold Sequencing.library_size_default, Sequencing.library_size.
      rewrite (bind_ok _ _ _ _ _ E). reflexivity. }
    exists (map (fun x => astype_int (exp x)) xs), g1.
    split; [exists g1; exact El|]. split; [|split; [|split]].
    + rewrite (bind_ok _ _ _ _ _ El). reflexivity.
    + rewrite length_map. exact Hl.
    + apply Forall_map, Forall_forall. intros x _. cbn.
      rewrite astype_int_exp. apply Int_part_nonneg.
      pose proof (exp_pos x). lra.
    + intros Hne. contradiction.
Qed.

(** The expression rows after [np.repeat]: one column per fragment. *)
Lemma expanded_rows (raw_expression : Np.ndarray Q) (n_genes : nat) (repeats : list Z) :
  Np.wf raw_expression ->
  Np.shape raw_expression = Np.leading (Np.shape raw_expression) ++ [n_genes] ->
  Forall (fun x => (0 <= x)%Q) (Np.flat raw_expression) ->
  Forall (fun row => (0 < sumQ row)%Q) (Np.rows raw_expression n_genes) ->
  length repeats = n_genes ->
  Forall (Z.le 1) repeats ->
  Forall (fun row => length row = n_fragments_of repeats /\
                     Forall (fun x => (0 <= x)%Q) row /\ (0 < sumQ row)%Q)
    (map (fun row => Np.repeat_row row (map Z.to_nat repeats))
         (Np.rows raw_expression n_genes)).
Proof.
  intros Hwf Hshape Hpos Hrows Hreplen Hrep1.
  pose proof (rows_full raw_expression n_genes Hwf Hshape) as Hfull.
  pose proof (Forall_chunks _ n_genes
                (Np.size_of (Np.leading (Np.shape raw_expression))) _ Hpos) as Hnonneg.
  fold (Np.rows raw_expression n_genes) in Hnonneg.
  apply Forall_map.
  assert (Hall : Forall (fun row => length row = n_genes /\
                                    Forall (fun x => (0 <= x)%Q) row /\
                                    (0 < sumQ row)%Q) (Np.rows raw_expression n_genes))
    by (repeat (apply Forall_and; split); assumption).
  eapply Forall_impl; [exact Hall|]. cbn. intros row (Hl & Hr & Hs).
  split; [|split].
  - rewrite repeat_row_length, Hl. unfold n_fragments_of.
    rewrite take_ge by (rewrite length_map; lia). reflexivity.
  - apply repeat_row_nonneg, Hr.
  - eapply Qlt_le_trans; [exact Hs|]. apply repeat_row_sum_ge; [exact Hr| |].
    + apply Forall_map. eapply Forall_impl; [exact Hrep1|].
      cbn. intros k Hk. lia.
    + rewrite length_map, Hl. lia.
Qed.

(** On a non-negative [raw_expression] with at least two axes, every cell
    of positive total expression, at least one fragment for every gene and
    no negative library size, [umi_counts] draws one row of non-negative
    counts per cell, with one column per fragment and the library size as
    total, and stacks these rows in the layout asked for. *)
Lemma umi_counts_cells
  (raw_expression : Np.ndarray Q) (lib_size : option (Np.ndarray Z))
  (fragments_per_gene : Np.ndarray Z) (n_genes : nat) (repeats : list Z) (g : G) :
  Np.wf raw_expression ->
  length (Np.shape raw_expression) <> 1%nat ->
  Np.trailing (Np.shape raw_expression) = Some n_genes ->
  Forall (fun x => (0 <= x)%Q) (Np.flat raw_expression) ->
  Forall (fun row => (0 < sumQ row)%Q) (Np.rows raw_expression n_genes) ->
  Np.broadcast_to fragments_per_gene [n_genes] = Some repeats ->
  Forall (Z.le 1) repeats ->
  (forall l, lib_size = Some l ->
     exists sizes, Np.broadcast_to l (Np.leading (Np.shape raw_expression)) = Some sizes /\
                   Forall (Z.le 0) sizes) ->
  exists sizes outs g',
    assigned_sizes (Np.leading (Np.shape raw_expression)) lib_size g sizes /\
    length outs = Np.size_of (Np.leading (Np.shape raw_expression)) /\
    Forall (fun out => length out = n_fragments_of repeats /\ Forall (Z.le 0) out) outs /\
    Forall2 (fun out n => sumZ out = n) outs sizes /\
    forall sparse,
      Sequencing.umi_counts raw_expression lib_size fragments_per_gene sparse g
      = (if sparse then Sequencing.vstack_sparse outs
         else Sequencing.vstack_dense (Np.leading (Np.shape raw_expression)) outs) g'.
Proof.
  intros Hwf Hdim Hlast Hpos Hrows Hrep Hrep1 Hlib.
  destruct (lib_sizes_assigned _ lib_size g Hlib)
    as (sizes & g1 & Hassigned & Esizes & Hlen & Hs0 & _).
  destruct (shape_split (Np.shape raw_expression)) as (n & Hn & Hshape).
  { intros E. rewrite E in Hlast. discriminate. }
  rewrite Hlast in Hn. injection Hn as <-.
  pose proof (broadcast_to_length _ _ _ Hrep) as Hreplen. cbn in Hreplen.
  assert (Hreplen' : length repeats = n_genes) by lia.
  pose proof (expanded_rows raw_expression n_genes repeats Hwf Hshape Hpos Hrows
                Hreplen' Hrep1) as Hexp.
  set (expanded := map (fun row => Np.repeat_row row (map Z.to_nat repeats))
                       (Np.rows raw_expression n_genes)) in *.
  destruct (mapM_ok (fun np => NpRandom.multinomial (fst np) (snd np))
              (fun np out => (length out = n_fragments_of repeats /\
                              Forall (Z.le 0) out) /\ sumZ out = fst np)
              (zip sizes (map Sequencing.normalize expanded)) g1)
    as (outs & g2 & Eouts & Hf).
  { intros [n p] Hin s0. apply list_elem_of_In in Hin.
    pose proof (elem_of_zip_l _ _ _ _ Hin) as Hn.
    pose proof (elem_of_zip_r _ _ _ _ Hin) as Hp.
    apply list_elem_of_fmap in Hp. destruct Hp as (row & -> & Hrow).
    rewrite Forall_forall in Hs0. rewrite Forall_forall in Hexp.
    destruct (Hexp row Hrow) as (Hl & Hr & Hs).
    destruct (cell_draw_counts n row s0 (Hs0 n Hn) Hr Hs)
      as (out & s1 & E & Hlo & Hnn & Hso).
    exists out, s1. cbn [fst snd]. repeat split; [exact E|congruence|exact Hnn|exact Hso]. }
  apply (Forall2_zip_fst (fun n out => sumZ out = n)
           (fun out => length out = n_fragments_of repeats /\ Forall (Z.le 0) out))
    in Hf as [Hlens Hsums].
  2:{ subst expanded. rewrite !length_map. unfold Np.rows.
      rewrite length_chunks. exact Hlen. }
  exists sizes, outs, g2.
  split; [exact Hassigned|]. split; [|split; [exact Hlens|split; [exact Hsums|]]].
  - rewrite (Forall2_length _ _ _ Hsums). exact Hlen.
  - intros sparse.
    rewrite (umi_counts_unfold _ _ _ sparse n_genes repeats sizes g g1
               Hpos Hdim Hlast Esizes Hrep).
    unfold Sequencing.np_repeat.
    rewrite (no_negative_repeats repeats)
      by (eapply Forall_impl; [exact Hrep1|]; cbn; intros; lia).
    unfold bind at 1. cbn [ret]. fold expanded.
    rewrite (bind_ok _ _ _ _ _ Eouts). reflexivity.
Qed.

End UmiCells.

(** ** What [umi_counts] returns *)

Section UmiOutput.
Context {G : Type} `{RandomStateLaws G}.

Lemma vstack_dense_rows (n_cells : list nat) (nf : nat) (outs : list (list Z)) (g : G) :
  length outs = Np.size_of n_cells -> (0 < Np.size_of n_cells)%nat ->
  Forall (fun out => length out = nf) outs ->
  exists out,
    Sequencing.vstack_dense n_cells outs g = (inr (Dense out), g) /\
    Np.shape out = n_cells ++ [nf] /\ Np.flat out = concat outs /\
    Np.wf out /\ Np.rows out nf = outs.
Proof.
  intros Hlen Hcells Hlens.
  destruct outs as [|r outs]; [cbn in Hlen; lia|].
  assert (Hr : length r = nf) by (inversion Hlens; assumption).
  exists (Np.mk_ndarray (n_cells ++ [nf]) (concat (r :: outs))).
  cbn [Sequencing.vstack_dense]. rewrite Hr.
  repeat split.
  - unfold Np.wf. cbn [Np.shape Np.flat].
    rewrite (length_concat_uniform nf _ Hlens), size_of_app, Hlen. cbn. lia.
  - unfold Np.rows. cbn [Np.shape Np.flat]. unfold Np.leading.
    rewrite removelast_last, <- Hlen. apply chunks_concat, Hlens.
Qed.

(** X11: The dense output of [umi_counts]: a well-formed array of non-negative
    counts over the cell axes and one axis of as many columns as the genes
    have fragments in all. *)
Theorem umi_counts_dense_counts
  (raw_expression : Np.ndarray Q) (lib_size : option (Np.ndarray Z))
  (fragments_per_gene : Np.ndarray Z) (n_genes : nat) (repeats : list Z) (g : G) :
  Np.wf raw_expression ->
  length (Np.shape raw_expression) <> 1%nat ->
  Np.trailing (Np.shape raw_expression) = Some n_genes ->
  Forall (fun x => (0 <= x)%Q) (Np.flat raw_expression) ->
  (0 < Np.size_of (Np.leading (Np.shape raw_expression)))%nat ->
  Forall (fun row => (0 < sumQ row)%Q) (Np.rows raw_expression n_genes) ->
  Np.broadcast_to fragments_per_gene [n_genes] = Some repeats ->
  Forall (Z.le 1) repeats ->
  (forall l, lib_size = Some l ->
     exists sizes, Np.broadcast_to l (Np.leading (Np.shape raw_expression)) = Some sizes /\
                   Forall (Z.le 0) sizes) ->
  exists out g',
    Sequencing.umi_counts raw_expression lib_size fragments_per_gene false g
      = (inr (Dense out), g') /\
    Np.wf out /\
    Np.shape out = Np.leading (Np.shape raw_expression) ++ [n_fragments_of repeats] /\
    Forall (Z.le 0) (Np.flat out).
Proof.
  intros Hwf Hdim Hlast Hpos Hcells Hrows Hrep Hrep1 Hlib.
  destruct (umi_counts_cells raw_expression lib_size fragments_per_gene n_genes
              repeats g Hwf Hdim Hlast Hpos Hrows Hrep Hrep1 Hlib)
    as (sizes & outs & g' & _ & Hlen & Houts & _ & E).
  apply Forall_and in Houts as [Hlens Hnn].
  destruct (vstack_dense_rows _ _ outs g' Hlen Hcells Hlens)
    as (out & Ev & Hshape & Hflat & Hwfo & _).
  exists out, g'. rewrite (E false). split; [exact Ev|].
  split; [exact Hwfo|]. split; [exact Hshape|].
  rewrite Hflat. apply Forall_concat. exact Hnn.
Qed.

(** X12: With [sparse=True], [umi_counts] returns from the same generator state
    the CSR matrix of the counts it returns dense with [sparse=False]: one
    row per cell, one column per fragment, and [toarray()] gives the dense
    rows. *)
Theorem umi_counts_sparse_agrees_with_dense
  (raw_expression : Np.ndarray Q) (lib_size : option (Np.ndarray Z))
  (fragments_per_gene : Np.ndarray Z) (n_genes : nat) (repeats : list Z) (g : G) :
  Np.wf raw_expression ->
  length (Np.shape raw_expression) <> 1%nat ->
  Np.trailing (Np.shape raw_expression) = Some n_genes ->
  Forall (fun x => (0 <= x)%Q) (Np.flat raw_expression) ->
  (0 < Np.size_of (Np.leading (Np.shape raw_expression)))%nat ->
  Forall (fun row => (0 < sumQ row)%Q) (Np.rows raw_expression n_genes) ->
  Np.broadcast_to fragments_per_gene [n_genes] = Some repeats ->
  Forall (Z.le 1) repeats ->
  (forall l, lib_size = Some l ->
     exists sizes, Np.broadcast_to l (Np.leading (Np.shape raw_expression)) = Some sizes /\
                   Forall (Z.le 0) sizes) ->
  exists m out g',
    Sequencing.umi_counts raw_expression lib_size fragments_per_gene true g
      = (inr (Sparse m), g') /\
    Sequencing.umi_counts raw_expression lib_size fragments_per_gene false g
      = (inr (Dense out), g') /\
    Sp.nrows m = Np.size_of (Np.leading (Np.shape raw_expression)) /\
    Sp.ncols m = n_fragments_of repeats /\
    Forall (Z.lt 0) (Sp.data m) /\
    todense m = Np.rows out (n_fragments_of repeats).
Proof.
  intros Hwf Hdim Hlast Hpos Hcells Hrows Hrep Hrep1 Hlib.
  destruct (umi_counts_cells raw_expression lib_size fragments_per_gene n_genes
              repeats g Hwf Hdim Hlast Hpos Hrows Hrep Hrep1 Hlib)
    as (sizes & outs & g' & _ & Hlen & Houts & _ & E).
  pose proof Houts as Houts'. apply Forall_and in Houts' as [Hlens Hnn].
  destruct (vstack_dense_rows _ _ outs g' Hlen Hcells Hlens)
    as (out & Ev & _ & _ & _ & Hrows_out).
  destruct (vstack_rows (n_fragments_of repeats) outs) as (m & Em & Hm & Hnc).
  { intros ->. cbn in Hlen. lia. }
  { exact Houts. }
  exists m, out, g'. rewrite (E true), (E false).
  split; [unfold Sequencing.vstack_sparse; rewrite Em; reflexivity|].
  split; [exact Ev|].
  destruct Hm as (Hnr & _ & _ & _ & _ & _ & Hdata & Hdense).
  repeat split; try assumption; congruence.
Qed.


End UmiOutput.

Lemma umi_counts_dense_counts_witness :
  exists out g',
    Sequencing.umi_counts (Np.mk_ndarray [2%nat; 2%nat] [1; 3; 2; 2]%Q)
      (Some (Np.scalar 5)) (Np.mk_ndarray [2%nat] [2; 1]) false (0 : Z)
      = (inr (Dense out), g') /\
    Np.wf out /\
    Np.shape out = [2%nat] ++ [n_fragments_of [2; 1]] /\
    Forall (Z.le 0) (Np.flat out).
Proof.
  apply (umi_counts_dense_counts
           (Np.mk_ndarray [2%nat; 2%nat] [1; 3; 2; 2]%Q)
           (Some (Np.scalar 5)) (Np.mk_ndarray [2%nat] [2; 1]) 2 [2; 1] (0 : Z)).
  - reflexivity.
  - simpl. lia.
  - reflexivity.
  - repeat constructor; discriminate.
  - simpl. lia.
  - repeat constructor.
  - reflexivity.
  - repeat constructor; lia.
  - intros l [= <-]. exists [5; 5]. split; [reflexivity|repeat constructor; lia].
Defined.

Lemma umi_counts_sparse_agrees_with_dense_witness :
  exists m out g',
    Sequencing.umi_counts (Np.mk_ndarray [2%nat; 2%nat] [1; 3; 2; 2]%Q)
      (Some (Np.scalar 5)) (Np.mk_ndarray [2%nat] [2; 1]) true (0 : Z)
      = (inr (Sparse m), g') /\
    Sequencing.umi_counts (Np.mk_ndarray [2%nat; 2%nat] [1; 3; 2; 2]%Q)
      (Some (Np.scalar 5)) (Np.mk_ndarray [2%nat] [2; 1]) false (0 : Z)
      = (inr (Dense out), g') /\
    Sp.nrows m = Np.size_of [2%nat] /\
    Sp.ncols m = n_fragments_of [2; 1] /\
    Forall (Z.lt 0) (Sp.data m) /\
    todense m = Np.rows out (n_fragments_of [2; 1]).
Proof.
  apply (umi_counts_sparse_agrees_with_dense
           (Np.mk_ndarray [2%nat; 2%nat] [1; 3; 2; 2]%Q)
           (Some (Np.scalar 5)) (Np.mk_ndarray [2%nat] [2; 1]) 2 [2; 1] (0 : Z)).
  - reflexivity.
  - simpl. lia.
  - reflexivity.
  - repeat constructor; discriminate.
  - simpl. lia.
  - repeat constructor.
  - reflexivity.
  - repeat constructor; lia.
  - intros l [= <-]. exists [5; 5]. split; [reflexivity|repeat constructor; lia].
Defined.


(** The counts of that call: the dense rows, and the same rows read back
    from the sparse output. *)
Example umi_counts_sparse_run :
  exists m a,
    fst (Sequencing.umi_counts (Np.mk_ndarray [2%nat; 2%nat] [1; 3; 2; 2]%Q)
           (Some (Np.scalar 5)) (Np.mk_ndarray [2%nat] [2; 1]) true (0 : Z))
    = inr (Sparse m) /\
    fst (Sequencing.umi_counts (Np.mk_ndarray [2%nat; 2%nat] [1; 3; 2; 2]%Q)
           (Some (Np.scalar 5)) (Np.mk_ndarray [2%nat] [2; 1]) false (0 : Z))
    = inr (Dense a) /\
    todense m = Np.rows a 3 /\ map sumZ (todense m) = [5; 5].
Proof. eexists _, _. repeat split; vm_compute; reflexivity. Qed.

(** ** What [umi_counts] refuses after its own checks *)

(** A traversal whose steps return or raise [e], one of them raising,
    raises [e]. *)
Lemma mapM_raise {S A B : Type} (f : A -> M S B) (e : exn) (l : list A) :
  Forall (fun a => forall s, (exists b s', f a s = (inr b, s')) \/
                             (exists s', f a s = (inl e, s'))) l ->
  Exists (fun a => forall s, exists s', f a s = (inl e, s')) l ->
  forall s, exists s', mapM f l s = (inl e, s').
Proof.
  induction l as [|x l IH]; intros Hall Hex s.
  - inversion Hex.
  - inversion Hall as [|? ? Hx Htl]; subst. cbn [mapM].
    destruct (Hx s) as [(b & s1 & Eb)|(s1 & Eb)].
    + inversion Hex as [? ? Hhd|? ? Hin]; subst.
      * destruct (Hhd s) as (s2 & E2). rewrite E2 in Eb. discriminate.
      * destruct (IH Htl Hin s1) as (s2 & E2).
        exists s2. rewrite (bind_ok _ _ _ _ _ Eb). apply bind_raise. exact E2.
    + exists s1. apply bind_raise. exact Eb.
Qed.

Lemma Forall_zip_both {A B : Type} (P : A -> Prop) (Q : B -> Prop)
  (xs : list A) (ys : list B) :
  Forall P xs -> Forall Q ys -> Forall (fun xy => P (fst xy) /\ Q (snd xy)) (zip xs ys).
Proof.
  intros Hx. revert ys. induction Hx as [|x xs Hp _ IH]; intros ys Hy.
  - constructor.
  - destruct Hy as [|y ys Hq Hy]; [constructor|].
    cbn [zip_with]. constructor; [split; assumption|apply IH, Hy].
Qed.

Lemma Exists_zip_r {A B : Type} (Q : B -> Prop) (xs : list A) (ys : list B) :
  length xs = length ys -> Exists Q ys -> Exists (fun xy => Q (snd xy)) (zip xs ys).
Proof.
  intros Hlen Hex. revert xs Hlen.
  induction Hex as [y ys Hq|y ys _ IH]; intros [|x xs] Hlen; try discriminate.
  - left. exact Hq.
  - right. apply IH. cbn in Hlen. lia.
Qed.

Lemma Exists_zip_l {A B : Type} (P : A -> Prop) (xs : list A) (ys : list B) :
  length xs = length ys -> Exists P xs -> Exists (fun xy => P (fst xy)) (zip xs ys).
Proof.
  intros Hlen Hex. revert ys Hlen.
  induction Hex as [x xs Hp|x xs _ IH]; intros [|y ys] Hlen; try discriminate.
  - left. exact Hp.
  - right. apply IH. cbn in Hlen. lia.
Qed.

Lemma sumQ_zero_all (row : list Q) :
  Forall (fun x => (0 <= x)%Q) row -> (sumQ row == 0)%Q ->
  Forall (fun x => (x == 0)%Q) row.
Proof.
  induction 1 as [|x row Hx Hrow IH]; intros Hs; [constructor|].
  pose proof (sumQ_nonneg row Hrow) as Hnn.
  change (sumQ (x :: row)) with (x + sumQ row)%Q in Hs.
  constructor; [lra|]. apply IH. lra.
Qed.

Lemma sumQ_all_zero (row : list Q) :
  Forall (fun x => (x == 0)%Q) row -> (sumQ row == 0)%Q.
Proof.
  induction 1 as [|x row Hx _ IH]; [reflexivity|].
  change (sumQ (x :: row)) with (x + sumQ row)%Q. lra.
Qed.

Lemma repeat_row_all {A : Type} (P : A -> Prop) (row : list A) (repeats : list nat) :
  Forall P row -> Forall P (Np.repeat_row row repeats).
Proof.
  intros Hrow. revert repeats. unfold Np.repeat_row.
  induction Hrow as [|x row Hx _ IH]; intros [|k repeats]; cbn; try constructor.
  apply Forall_app. split; [apply Forall_replicate, Hx|apply IH].
Qed.

(** A cell without expression has none after [np.repeat] either. *)
Lemma repeat_row_zero (row : list Q) (repeats : list nat) :
  Forall (fun x => (0 <= x)%Q) row -> (sumQ row == 0)%Q ->
  (sumQ (Np.repeat_row row repeats) == 0)%Q.
Proof.
  intros Hrow Hs. apply sumQ_all_zero, repeat_row_all, sumQ_zero_all; assumption.
Qed.

(** The probabilities of a cell without expression are NaN, and the draw is
    refused whatever the library size. *)
Lemma cell_without_expression {G : Type} `{RandomState G} (n : Z) (row : list Q) (g : G) :
  row <> [] -> (sumQ row == 0)%Q ->
  NpRandom.multinomial n (Sequencing.normalize row) g
  = (inl (ValueError "pvals < 0, pvals > 1 or pvals contains NaNs"), g).
Proof.
  intros Hne Hs. unfold NpRandom.multinomial, Sequencing.normalize.
  apply Qeq_bool_iff in Hs. rewrite Hs.
  destruct row as [|x row]; [contradiction|]. reflexivity.
Qed.

(** A negative library size is refused once the probabilities passed. *)
Lemma cell_negative_size {G : Type} `{RandomState G} (n : Z) (row : list Q) (g : G) :
  n < 0 -> Forall (fun x => (0 <= x)%Q) row -> (0 < sumQ row)%Q ->
  NpRandom.multinomial n (Sequencing.normalize row) g = (inl (ValueError "n < 0"), g).
Proof.
  intros Hn Hrow Hs.
  destruct (normalize_probabilities row Hrow Hs) as (-> & Hp & Hsum).
  unfold NpRandom.multinomial. rewrite sequence_map_Some.
  rewrite (is_probability_all _ Hp). cbn [negb].
  apply Qle_bool_iff in Hsum. rewrite Hsum. cbn [negb].
  destruct (Z.ltb_spec n 0); [reflexivity|lia].
Qed.

Lemma Exists_map {A B : Type} (f : A -> B) (Q : B -> Prop) (l : list A) :
  Exists (fun a => Q (f a)) l -> Exists Q (map f l).
Proof. induction 1 as [a l Ha|a l _ IH]; [left; exact Ha|right; exact IH]. Qed.

Lemma n_fragments_of_ge (repeats : list Z) :
  Forall (Z.le 1) repeats -> (length repeats <= n_fragments_of repeats)%nat.
Proof.
  unfold n_fragments_of. induction 1 as [|k l Hk _ IH]; cbn; lia.
Qed.

Lemma some_negative_repeats (repeats : list Z) :
  Exists (fun k => k < 0) repeats -> existsb (fun k => k <? 0) repeats = true.
Proof.
  intros Hex. apply existsb_exists. apply Exists_exists in Hex.
  destruct Hex as (k & Hin & Hk). exists k.
  split; [apply list_elem_of_In, Hin|apply Z.ltb_lt, Hk].
Qed.

Section UmiRefusals.
Context {G : Type} `{RandomStateLaws G}.

(** Library sizes that broadcast are assigned, whatever their sign. *)
Lemma lib_sizes_returned (n_cells : list nat) (lib_size : option (Np.ndarray Z)) (g : G) :
  (forall l, lib_size = Some l ->
     exists sizes, Np.broadcast_to l n_cells = Some sizes) ->
  exists sizes g1,
    match lib_size with
    | None => do s <- Sequencing.library_size_default n_cells; ret (Np.flat s)
    | Some l => of_option (ValueError "operands could not be broadcast together")
                  (Np.broadcast_to l n_cells)
    end g = (inr sizes, g1) /\
    length sizes = Np.size_of n_cells /\
    (lib_size <> None -> g1 = g) /\
    (forall l, lib_size = Some l -> Np.broadcast_to l n_cells = Some sizes).
Proof.
  intros Hlib. destruct lib_size as [l|].
  - destruct (Hlib l eq_refl) as (sizes & Hb).
    exists sizes, g. cbn. rewrite Hb. repeat split.
    + eapply broadcast_to_length, Hb.
    + intros l' [= <-]. exact Hb.
  - destruct (lib_sizes_assigned n_cells None g) as (sizes & g1 & _ & E & Hl & _).
    { intros l [=]. }
    exists sizes, g1. repeat split; try assumption; [contradiction|intros l [=]].
Qed.

(** An error of one of the draws is the error of [umi_counts]. *)
Lemma umi_counts_raise_in_draws (raw_expression : Np.ndarray Q)
  (lib_size : option (Np.ndarray Z)) (fragments_per_gene : Np.ndarray Z)
  (sparse : bool) (n_genes : nat) (repeats sizes : list Z) (g g1 g' : G) (e : exn) :
  Forall (fun x => (0 <= x)%Q) (Np.flat raw_expression) ->
  length (Np.shape raw_expression) <> 1%nat ->
  Np.trailing (Np.shape raw_expression) = Some n_genes ->
  match lib_size with
  | None => do s <- Sequencing.library_size_default
                      (Np.leading (Np.shape raw_expression));
            ret (Np.flat s)
  | Some l => of_option (ValueError "operands could not be broadcast together")
                (Np.broadcast_to l (Np.leading (Np.shape raw_expression)))
  end g = (inr sizes, g1) ->
  Np.broadcast_to fragments_per_gene [n_genes] = Some repeats ->
  Forall (Z.le 0) repeats ->
  mapM (fun np => NpRandom.multinomial (fst np) (snd np))
       (zip sizes
          (map Sequencing.normalize
             (map (fun row => Np.repeat_row row (map Z.to_nat repeats))
                  (Np.rows raw_expression n_genes)))) g1 = (inl e, g') ->
  Sequencing.umi_counts raw_expression lib_size fragments_per_gene sparse g
  = (inl e, g').
Proof.
  intros Hpos Hdim Hlast Esizes Hrep Hrep0 Eouts.
  rewrite (umi_counts_unfold _ _ _ sparse n_genes repeats sizes g g1
             Hpos Hdim Hlast Esizes Hrep).
  unfold Sequencing.np_repeat. rewrite (no_negative_repeats repeats Hrep0).
  unfold bind at 1. cbn [ret]. apply bind_raise. exact Eouts.
Qed.

(** X14: One cell without expression is enough for [umi_counts] to fail: its
    probabilities are NaN and NumPy's multinomial refuses them. *)
Theorem umi_counts_rejects_cell_without_expression
  (raw_expression : Np.ndarray Q) (lib_size : option (Np.ndarray Z))
  (fragments_per_gene : Np.ndarray Z) (sparse : bool)
  (n_genes : nat) (repeats : list Z) (g : G) :
  Np.wf raw_expression ->
  length (Np.shape raw_expression) <> 1%nat ->
  Np.trailing (Np.shape raw_expression) = Some n_genes ->
  (0 < n_genes)%nat ->
  Forall (fun x => (0 <= x)%Q) (Np.flat raw_expression) ->
  Exists (fun row => (sumQ row == 0)%Q) (Np.rows raw_expression n_genes) ->
  Np.broadcast_to fragments_per_gene [n_genes] = Some repeats ->
  Forall (Z.le 1) repeats ->
  (forall l, lib_size = Some l ->
     exists sizes, Np.broadcast_to l (Np.leading (Np.shape raw_expression)) = Some sizes /\
                   Forall (Z.le 0) sizes) ->
  exists g',
    Sequencing.umi_counts raw_expression lib_size fragments_per_gene sparse g
    = (inl (ValueError "pvals < 0, pvals > 1 or pvals contains NaNs"), g').
Proof.
  intros Hwf Hdim Hlast Hgenes Hpos Hzero Hrep Hrep1 Hlib.
  destruct (lib_sizes_assigned _ lib_size g Hlib)
    as (sizes & g1 & _ & Esizes & Hlen & Hs0 & _).
  destruct (shape_split (Np.shape raw_expression)) as (n & Hn & Hshape).
  { intros E. rewrite E in Hlast. discriminate. }
  rewrite Hlast in Hn. injection Hn as <-.
  pose proof (broadcast_to_length _ _ _ Hrep) as Hreplen. cbn in Hreplen.
  pose proof (rows_full raw_expression n_genes Hwf Hshape) as Hfull.
  pose proof (Forall_chunks _ n_genes
                (Np.size_of (Np.leading (Np.shape raw_expression))) _ Hpos) as Hnonneg.
  fold (Np.rows raw_expression n_genes) in Hnonneg.
  pose proof (n_fragments_of_ge repeats Hrep1) as Hnf.
  set (reps := map Z.to_nat repeats) in *.
  assert (Hrowlen : forall row : list Q, length row = n_genes ->
                                length (Np.repeat_row row reps) = n_fragments_of repeats).
  { intros row Hl. rewrite repeat_row_length, Hl. unfold n_fragments_of.
    subst reps. rewrite take_ge by (rewrite length_map; lia). reflexivity. }
  destruct (mapM_raise (fun np => NpRandom.multinomial (fst np) (snd np))
              (ValueError "pvals < 0, pvals > 1 or pvals contains NaNs")
              (zip sizes (map Sequencing.normalize
                            (map (fun row => Np.repeat_row row reps)
                                 (Np.rows raw_expression n_genes))))) with (s := g1)
    as (g' & E).
  - apply Forall_forall. intros [n p] Hin s.
    pose proof (elem_of_zip_l _ _ _ _ Hin) as Hn.
    pose proof (elem_of_zip_r _ _ _ _ Hin) as Hp.
    apply list_elem_of_fmap in Hp. destruct Hp as (row' & -> & Hrow').
    apply list_elem_of_fmap in Hrow'. destruct Hrow' as (row & -> & Hrow).
    rewrite Forall_forall in Hs0. rewrite Forall_forall in Hfull.
    pose proof (proj1 (Forall_forall _ _) Hnonneg row Hrow) as Hrownn.
    pose proof (repeat_row_nonneg row reps Hrownn) as Hnn.
    cbn [fst snd].
    destruct (Qlt_le_dec 0 (sumQ (Np.repeat_row row reps))) as [Hs|Hs].
    + left. destruct (cell_draw_counts n _ s (Hs0 n Hn) Hnn Hs) as (out & s1 & Eo & _).
      exists out, s1. exact Eo.
    + right. exists s. apply cell_without_expression.
      * intros Hnil. pose proof (Hrowlen row (Hfull row Hrow)) as Hl.
        rewrite Hnil in Hl. cbn in Hl. lia.
      * pose proof (sumQ_nonneg _ Hnn). lra.
  - eapply Exists_impl;
      [apply (Exists_zip_r
                (fun p => forall n (s : G), exists s',
                   NpRandom.multinomial n p s
                   = (inl (ValueError "pvals < 0, pvals > 1 or pvals contains NaNs"), s')))
      |intros [n p] HQ s; apply HQ].
    { rewrite !length_map. unfold Np.rows. rewrite length_chunks. exact Hlen. }
    apply Exists_exists in Hzero. destruct Hzero as (row & Hrow & Hs).
    apply Exists_exists. exists (Sequencing.normalize (Np.repeat_row row reps)).
    split.
    { apply list_elem_of_fmap. eexists. split; [reflexivity|].
      apply list_elem_of_fmap. eexists. split; [reflexivity|exact Hrow]. }
    intros n s. exists s. rewrite Forall_forall in Hfull.
    pose proof (proj1 (Forall_forall _ _) Hnonneg row Hrow) as Hrownn.
    apply cell_without_expression.
    + intros Hnil. pose proof (Hrowlen row (Hfull row Hrow)) as Hl.
      rewrite Hnil in Hl. cbn in Hl. lia.
    + apply repeat_row_zero; [exact Hrownn|exact Hs].
  - exists g'.
    eapply umi_counts_raise_in_draws; try eassumption.
    eapply Forall_impl; [exact Hrep1|]. cbn. intros; lia.
Qed.

(** X15: A negative library size passed to [umi_counts] is refused by NumPy's
    multinomial, when every cell has expression. *)
Theorem umi_counts_rejects_negative_lib_size
  (raw_expression : Np.ndarray Q) (lib_size : Np.ndarray Z)
  (fragments_per_gene : Np.ndarray Z) (sparse : bool)
  (n_genes : nat) (repeats sizes : list Z) (g : G) :
  Np.wf raw_expression ->
  length (Np.shape raw_expression) <> 1%nat ->
  Np.trailing (Np.shape raw_expression) = Some n_genes ->
  Forall (fun x => (0 <= x)%Q) (Np.flat raw_expression) ->
  Forall (fun row => (0 < sumQ row)%Q) (Np.rows raw_expression n_genes) ->
  Np.broadcast_to fragments_per_gene [n_genes] = Some repeats ->
  Forall (Z.le 1) repeats ->
  Np.broadcast_to lib_size (Np.leading (Np.shape raw_expression)) = Some sizes ->
  Exists (fun n => n < 0) sizes ->
  exists g',
    Sequencing.umi_counts raw_expression (Some lib_size) fragments_per_gene sparse g
    = (inl (ValueError "n < 0"), g').
Proof.
  intros Hwf Hdim Hlast Hpos Hrows Hrep Hrep1 Hsizes Hneg.
  destruct (shape_split (Np.shape raw_expression)) as (n & Hn & Hshape).
  { intros E. rewrite E in Hlast. discriminate. }
  rewrite Hlast in Hn. injection Hn as <-.
  pose proof (broadcast_to_length _ _ _ Hrep) as Hreplen. cbn in Hreplen.
  pose proof (broadcast_to_length _ _ _ Hsizes) as Hlen.
  assert (Hreplen' : length repeats = n_genes) by lia.
  pose proof (expanded_rows raw_expression n_genes repeats Hwf Hshape Hpos Hrows
                Hreplen' Hrep1) as Hexp.
  set (expanded := map (fun row => Np.repeat_row row (map Z.to_nat repeats))
                       (Np.rows raw_expression n_genes)) in *.
  destruct (mapM_raise (fun np => NpRandom.multinomial (fst np) (snd np))
              (ValueError "n < 0")
              (zip sizes (map Sequencing.normalize expanded))) with (s := g)
    as (g' & E).
  - apply Forall_forall. intros [n p] Hin s.
    pose proof (elem_of_zip_r _ _ _ _ Hin) as Hp.
    apply list_elem_of_fmap in Hp. destruct Hp as (row & -> & Hrow).
    rewrite Forall_forall in Hexp. destruct (Hexp row Hrow) as (_ & Hnn & Hs).
    cbn [fst snd]. destruct (Z_lt_le_dec n 0) as [Hlt|Hge].
    + right. exists s. apply cell_negative_size; assumption.
    + left. destruct (cell_draw_counts n row s Hge Hnn Hs) as (out & s1 & Eo & _).
      exists out, s1. exact Eo.
  - assert (Hl : length sizes = length (map Sequencing.normalize expanded)).
    { subst expanded. rewrite !length_map. unfold Np.rows.
      rewrite length_chunks. exact Hlen. }
    assert (Hall : Forall (fun p => exists row, p = Sequencing.normalize row /\
                              Forall (fun x => (0 <= x)%Q) row /\ (0 < sumQ row)%Q)
                     (map Sequencing.normalize expanded)).
    { apply Forall_map. eapply Forall_impl; [exact Hexp|]. cbn.
      intros row (_ & Hnn & Hs). exists row. repeat split; assumption. }
    clear -Hneg Hl Hall. revert Hl Hall.
    generalize (map Sequencing.normalize expanded).
    induction Hneg as [n sizes Hn|n sizes _ IH]; intros ps Hl Hall;
      destruct ps as [|p ps]; try discriminate;
      inversion Hall as [|? ? (row & -> & Hnn & Hs) Htl]; subst.
    + left. intros s. exists s. apply cell_negative_size; assumption.
    + right. apply IH; [cbn in Hl; lia|exact Htl].
  - exists g'.
    eapply (umi_counts_raise_in_draws _ (Some lib_size) _ sparse n_genes repeats sizes g g);
      try eassumption.
    + cbn. rewrite Hsizes. reflexivity.
    + eapply Forall_impl; [exact Hrep1|]. cbn. intros; lia.
Qed.

(** X16: A negative number of fragments is refused by [np.repeat]; with explicit
    library sizes nothing was drawn before. *)
Theorem umi_counts_rejects_negative_fragments
  (raw_expression : Np.ndarray Q) (lib_size : option (Np.ndarray Z))
  (fragments_per_gene : Np.ndarray Z) (sparse : bool)
  (n_genes : nat) (repeats : list Z) (g : G) :
  Forall (fun x => (0 <= x)%Q) (Np.flat raw_expression) ->
  length (Np.shape raw_expression) <> 1%nat ->
  Np.trailing (Np.shape raw_expression) = Some n_genes ->
  (forall l, lib_size = Some l ->
     exists sizes, Np.broadcast_to l (Np.leading (Np.shape raw_expression)) = Some sizes) ->
  Np.broadcast_to fragments_per_gene [n_genes] = Some repeats ->
  Exists (fun k => k < 0) repeats ->
  exists g',
    Sequencing.umi_counts raw_expression lib_size fragments_per_gene sparse g
    = (inl (ValueError "repeats may not contain negative values."), g') /\
    (lib_size <> None -> g' = g).
Proof.
  intros Hpos Hdim Hlast Hlib Hrep Hneg.
  destruct (lib_sizes_returned _ lib_size g Hlib) as (sizes & g1 & Esizes & _ & Hg & _).
  exists g1. split; [|exact Hg].
  rewrite (umi_counts_unfold _ _ _ sparse n_genes repeats sizes g g1
             Hpos Hdim Hlast Esizes Hrep).
  unfold Sequencing.np_repeat. rewrite (some_negative_repeats repeats Hneg).
  reflexivity.
Qed.

(** X17: Without any cell there is nothing to stack: [np.vstack] and
    [sp.vstack] refuse the empty list, each in its own words. *)
Theorem umi_counts_rejects_no_cells
  (raw_expression : Np.ndarray Q) (lib_size : option (Np.ndarray Z))
  (fragments_per_gene : Np.ndarray Z) (sparse : bool)
  (n_genes : nat) (repeats : list Z) (g : G) :
  Forall (fun x => (0 <= x)%Q) (Np.flat raw_expression) ->
  length (Np.shape raw_expression) <> 1%nat ->
  Np.trailing (Np.shape raw_expression) = Some n_genes ->
  Np.size_of (Np.leading (Np.shape raw_expression)) = 0%nat ->
  (forall l, lib_size = Some l ->
     exists sizes, Np.broadcast_to l (Np.leading (Np.shape raw_expression)) = Some sizes) ->
  Np.broadcast_to fragments_per_gene [n_genes] = Some repeats ->
  Forall (Z.le 0) repeats ->
  exists g',
    Sequencing.umi_counts raw_expression lib_size fragments_per_gene sparse g
    = (inl (ValueError (if sparse then "blocks must be 2-D"
                        else "need at least one array to concatenate")), g').
Proof.
  intros Hpos Hdim Hlast Hcells Hlib Hrep Hrep0.
  destruct (lib_sizes_returned _ lib_size g Hlib) as (sizes & g1 & Esizes & Hlen & _).
  rewrite Hcells in Hlen. destruct sizes as [|? ?]; [|discriminate].
  exists g1.
  rewrite (umi_counts_unfold _ _ _ sparse n_genes repeats [] g g1
             Hpos Hdim Hlast Esizes Hrep).
  unfold Sequencing.np_repeat. rewrite (no_negative_repeats repeats Hrep0).
  unfold bind at 1. cbn [ret zip_with mapM]. unfold bind at 1.
  destruct sparse; reflexivity.
Qed.

End UmiRefusals.

Lemma umi_counts_rejects_cell_without_expression_witness :
  exists g',
    Sequencing.umi_counts (Np.mk_ndarray [2%nat; 2%nat] [1; 3; 0; 0]%Q)
      (Some (Np.scalar 5)) (Np.scalar 1) true (0 : Z)
    = (inl (ValueError "pvals < 0, pvals > 1 or pvals contains NaNs"), g').
Proof.
  apply (umi_counts_rejects_cell_without_expression
           (Np.mk_ndarray [2%nat; 2%nat] [1; 3; 0; 0]%Q)
           (Some (Np.scalar 5)) (Np.scalar 1) true 2 [1; 1] (0 : Z)).
  - reflexivity.
  - simpl. lia.
  - reflexivity.
  - lia.
  - repeat constructor; discriminate.
  - right. left. reflexivity.
  - reflexivity.
  - repeat constructor; lia.
  - intros l [= <-]. exists [5; 5]. split; [reflexivity|repeat constructor; lia].
Defined.

Lemma umi_counts_rejects_negative_lib_size_witness :
  exists g',
    Sequencing.umi_counts (Np.mk_ndarray [2%nat; 2%nat] [1; 3; 2; 2]%Q)
      (Some (Np.mk_ndarray [2%nat] [5; -1])) (Np.scalar 1) false (0 : Z)
    = (inl (ValueError "n < 0"), g').
Proof.
  apply (umi_counts_rejects_negative_lib_size
           (Np.mk_ndarray [2%nat; 2%nat] [1; 3; 2; 2]%Q)
           (Np.mk_ndarray [2%nat] [5; -1]) (Np.scalar 1) false 2 [1; 1] [5; -1] (0 : Z)).
  - reflexivity.
  - simpl. lia.
  - reflexivity.
  - repeat constructor; discriminate.
  - repeat constructor.
  - reflexivity.
  - repeat constructor; lia.
  - reflexivity.
  - right. left. lia.
Defined.

Lemma umi_counts_rejects_negative_fragments_witness :
  exists g',
    Sequencing.umi_counts (Np.mk_ndarray [2%nat; 2%nat] [1; 3; 2; 2]%Q)
      (Some (Np.scalar 5)) (Np.mk_ndarray [2%nat] [1; -1]) false (0 : Z)
    = (inl (ValueError "repeats may not contain negative values."), g') /\
    (Some (Np.scalar 5) <> None -> g' = (0 : Z)).
Proof.
  apply (umi_counts_rejects_negative_fragments
           (Np.mk_ndarray [2%nat; 2%nat] [1; 3; 2; 2]%Q)
           (Some (Np.scalar 5)) (Np.mk_ndarray [2%nat] [1; -1]) false 2 [1; -1] (0 : Z)).
  - repeat constructor; discriminate.
  - simpl. lia.
  - reflexivity.
  - intros l [= <-]. exists [5; 5]. reflexivity.
  - reflexivity.
  - right. left. lia.
Defined.

Lemma umi_counts_rejects_no_cells_witness :
  exists g',
    Sequencing.umi_counts (Np.mk_ndarray [0%nat; 2%nat] ([] : list Q))
      None (Np.scalar 1) true (0 : Z)
    = (inl (ValueError (if true then "blocks must be 2-D"
                        else "need at least one array to concatenate")), g').
Proof.
  apply (umi_counts_rejects_no_cells
           (Np.mk_ndarray [0%nat; 2%nat] ([] : list Q))
           None (Np.scalar 1) true 2 [1; 1] (0 : Z)).
  - constructor.
  - simpl. lia.
  - reflexivity.
  - reflexivity.
  - intros l [=].
  - reflexivity.
  - repeat constructor; lia.
Defined.

(** ** From [fragment_genes] to [umi_counts] *)

Section Fragments.
Context {G : Type} `{RandomStateLaws G}.



End Fragments.


(** * The default library sizes *)

Lemma exp_square_bound (x q q' : R) :
  (0 <= q)%R -> (q <= exp x)%R -> (q' <= q * q)%R -> (q' <= exp (2 * x))%R.
Proof.
  intros Hq Hx Hq'. replace (2 * x)%R with (x + x)%R by lra. rewrite exp_plus.
  apply Rle_trans with (q * q)%R; [exact Hq'|].
  apply Rmult_le_compat; assumption.
Qed.

(** [exp 7 = 1096.63...], from [1 + x < exp x] at [7 / 2 ^ 16] squared
    sixteen times. *)
Lemma exp_7_lower : (1096 <= exp 7)%R.
Proof.
  assert (H0 : (65543 / 65536 <= exp (7 / 65536))%R)
    by (pose proof (exp_ineq1 (7 / 65536)); lra).
  assert (H1 : (125026704306947 / 125000000000000 <= exp (7 / 32768))%R).
  { replace (7 / 32768)%R with (2 * (7 / 65536))%R by lra.
    apply (exp_square_bound _ (65543 / 65536)); [lra|exact H0|lra]. }
  clear H0.
  assert (H2 : (62526707159427 / 62500000000000 <= exp (7 / 16384))%R).
  { replace (7 / 16384)%R with (2 * (7 / 32768))%R by lra.
    apply (exp_square_bound _ (125026704306947 / 125000000000000)); [lra|exact H1|lra]. }
  clear H1.
  assert (H3 : (1000854811699389 / 1000000000000000 <= exp (7 / 8192))%R).
  { replace (7 / 8192)%R with (2 * (7 / 16384))%R by lra.
    apply (exp_square_bound _ (62526707159427 / 62500000000000)); [lra|exact H2|lra]. }
  clear H2.
  assert (H4 : (1001710354101819 / 1000000000000000 <= exp (7 / 4096))%R).
  { replace (7 / 4096)%R with (2 * (7 / 8192))%R by lra.
    apply (exp_square_bound _ (1000854811699389 / 1000000000000000)); [lra|exact H3|lra]. }
  clear H3.
  assert (H5 : (1003423633514791 / 1000000000000000 <= exp (7 / 2048))%R).
  { replace (7 / 2048)%R with (2 * (7 / 4096))%R by lra.
    apply (exp_square_bound _ (1001710354101819 / 1000000000000000)); [lra|exact H4|lra]. }
  clear H4.
  assert (H6 : (40274359531841 / 40000000000000 <= exp (7 / 1024))%R).
  { replace (7 / 1024)%R with (2 * (7 / 2048))%R by lra.
    apply (exp_square_bound _ (1003423633514791 / 1000000000000000)); [lra|exact H5|lra]. }
  clear H5.
  assert (H7 : (202753004462499 / 200000000000000 <= exp (7 / 512))%R).
  { replace (7 / 512)%R with (2 * (7 / 1024))%R by lra.
    apply (exp_square_bound _ (40274359531841 / 40000000000000)); [lra|exact H6|lra]. }
  clear H6.
  assert (H8 : (1027719520464253 / 1000000000000000 <= exp (7 / 256))%R).
  { replace (7 / 256)%R with (2 * (7 / 512))%R by lra.
    apply (exp_square_bound _ (202753004462499 / 200000000000000)); [lra|exact H7|lra]. }
  clear H7.
  assert (H9 : (528103706371637 / 500000000000000 <= exp (7 / 128))%R).
  { replace (7 / 128)%R with (2 * (7 / 256))%R by lra.
    apply (exp_square_bound _ (1027719520464253 / 1000000000000000)); [lra|exact H8|lra]. }
  clear H8.
  assert (H10 : (13944676234173 / 12500000000000 <= exp (7 / 64))%R).
  { replace (7 / 64)%R with (2 * (7 / 128))%R by lra.
    apply (exp_square_bound _ (528103706371637 / 500000000000000)); [lra|exact H9|lra]. }
  clear H9.
  assert (H11 : (1244505569765819 / 1000000000000000 <= exp (7 / 32))%R).
  { replace (7 / 32)%R with (2 * (7 / 64))%R by lra.
    apply (exp_square_bound _ (13944676234173 / 12500000000000)); [lra|exact H10|lra]. }
  clear H10.
  assert (H12 : (309758822635629 / 200000000000000 <= exp (7 / 16))%R).
  { replace (7 / 16)%R with (2 * (7 / 32))%R by lra.
    apply (exp_square_bound _ (1244505569765819 / 1000000000000000)); [lra|exact H11|lra]. }
  clear H11.
  assert (H13 : (599690801253819 / 250000000000000 <= exp (7 / 8))%R).
  { replace (7 / 8)%R with (2 * (7 / 16))%R by lra.
    apply (exp_square_bound _ (309758822635629 / 200000000000000)); [lra|exact H12|lra]. }
  clear H12.
  assert (H14 : (5754064913735159 / 1000000000000000 <= exp (7 / 4))%R).
  { replace (7 / 4)%R with (2 * (7 / 8))%R by lra.
    apply (exp_square_bound _ (599690801253819 / 250000000000000)); [lra|exact H13|lra]. }
  clear H13.
  assert (H15 : (16554631515739001 / 500000000000000 <= exp (7 / 2))%R).
  { replace (7 / 2)%R with (2 * (7 / 4))%R by lra.
    apply (exp_square_bound _ (5754064913735159 / 1000000000000000)); [lra|exact H14|lra]. }
  clear H14.
  assert (H16 : (548111649243797947 / 500000000000000 <= exp 7)%R).
  { replace 7%R with (2 * (7 / 2))%R by lra.
    apply (exp_square_bound _ (16554631515739001 / 500000000000000)); [lra|exact H15|lra]. }
  clear H15.
  lra.
Qed.

Lemma Int_part_at_least (r : R) (n : Z) : (IZR n <= r)%R -> n <= Int_part r.
Proof.
  intros Hr. destruct (base_Int_part r) as [_ Hlo].
  assert (Hlt : (IZR (n - 1) < IZR (Int_part r))%R) by (rewrite minus_IZR; lra).
  apply lt_IZR in Hlt. lia.
Qed.
Section DefaultSizes.
Context {G : Type} `{RandomStateLaws G}.

(** Whatever [library_size] returns with its defaults is at least 1096. *)
Lemma library_size_default_inv (n_cells : list nat) (g g' : G) (out : Np.ndarray Z) :
  Sequencing.library_size_default n_cells g = (inr out, g') ->
  Forall (Z.le 1096) (Np.flat out).
Proof.
  intros E.
  destruct (truncnorm_rvs_returns (Fin (-1)) PosInf (15 / 2) (1 / 2) n_cells g)
    as (xs & g1 & Et & _ & Hxs); [exact I|lra|].
  unfold Sequencing.library_size_default, Sequencing.library_size in E.
  rewrite (bind_ok _ _ _ _ _ Et) in E. injection E as <- _.
  cbn [Np.flat]. apply Forall_map. eapply Forall_impl; [exact Hxs|].
  cbn. intros x [Hlo _]. rewrite astype_int_exp.
  apply Int_part_at_least. eapply Rle_trans; [exact exp_7_lower|].
  apply exp_le. lra.
Qed.

(** X19: With its defaults ([loc=7.5], [scale=0.5], [lower_bound=-1], no upper
    bound) [library_size] returns, for any cell shape, one library size per
    cell, each at least [int(exp(7.0)) = 1096]. *)
Theorem library_size_default_at_least (n_cells : list nat) (g : G) :
  exists out g',
    Sequencing.library_size_default n_cells g = (inr out, g') /\
    Np.shape out = n_cells /\ Np.wf out /\
    Forall (Z.le 1096) (Np.flat out).
Proof.
  destruct (truncnorm_rvs_returns (Fin (-1)) PosInf (15 / 2) (1 / 2) n_cells g)
    as (xs & g1 & E & Hl & _); [exact I|lra|].
  assert (El : Sequencing.library_size_default n_cells g
               = (inr (Np.mk_ndarray n_cells (map (fun x => astype_int (exp x)) xs)), g1)).
  { unfold Sequencing.library_size_default, Sequencing.library_size.
    rewrite (bind_ok _ _ _ _ _ E). reflexivity. }
  eexists _, g1. split; [exact El|]. split; [reflexivity|]. split.
  - unfold Np.wf. cbn [Np.shape Np.flat]. rewrite length_map. exact Hl.
  - eapply library_size_default_inv, El.
Qed.

(** X20: Without [lib_size], [umi_counts] gives every cell the library size
    drawn for it by [library_size] with its defaults: every row of the dense
    output holds at least 1096 molecules. *)
Theorem umi_counts_default_rows_at_least
  (raw_expression : Np.ndarray Q) (fragments_per_gene : Np.ndarray Z)
  (n_genes : nat) (repeats : list Z) (g : G) :
  Np.wf raw_expression ->
  length (Np.shape raw_expression) <> 1%nat ->
  Np.trailing (Np.shape raw_expression) = Some n_genes ->
  Forall (fun x => (0 <= x)%Q) (Np.flat raw_expression) ->
  (0 < Np.size_of (Np.leading (Np.shape raw_expression)))%nat ->
  Forall (fun row => (0 < sumQ row)%Q) (Np.rows raw_expression n_genes) ->
  Np.broadcast_to fragments_per_gene [n_genes] = Some repeats ->
  Forall (Z.le 1) repeats ->
  exists out g',
    Sequencing.umi_counts raw_expression None fragments_per_gene false g
      = (inr (Dense out), g') /\
    Forall (fun row => 1096 <= sumZ row) (Np.rows out (n_fragments_of repeats)).
Proof.
  intros Hwf Hdim Hlast Hpos Hcells Hrows Hrep Hrep1.
  destruct (umi_counts_cells raw_expression None fragments_per_gene n_genes
              repeats g Hwf Hdim Hlast Hpos Hrows Hrep Hrep1)
    as (sizes & outs & g' & Hassigned & Hlen & Houts & Hsums & E).
  { intros l [=]. }
  apply Forall_and in Houts as [Hlens _].
  destruct (vstack_dense_rows _ _ outs g' Hlen Hcells Hlens)
    as (out & Ev & _ & _ & _ & Hrows_out).
  exists out, g'. rewrite (E false). split; [exact Ev|]. rewrite Hrows_out.
  destruct Hassigned as (g1 & El).
  pose proof (library_size_default_inv _ _ _ _ El) as Hbig. cbn [Np.flat] in Hbig.
  clear -Hsums Hbig. induction Hsums as [|row n outs sizes Hrow _ IH]; [constructor|].
  inversion Hbig as [|? ? Hn Htl]; subst. constructor; [lia|apply IH, Htl].
Qed.

End DefaultSizes.

Lemma library_size_default_at_least_witness :
  exists out g',
    Sequencing.library_size_default [2%nat; 3%nat] (0 : Z) = (inr out, g') /\
    Np.shape out = [2%nat; 3%nat] /\ Np.wf out /\
    Forall (Z.le 1096) (Np.flat out).
Proof. apply (library_size_default_at_least [2%nat; 3%nat] (0 : Z)). Defined.

Lemma umi_counts_default_rows_at_least_witness :
  exists out g',
    Sequencing.umi_counts (Np.mk_ndarray [2%nat; 2%nat] [1; 3; 2; 2]%Q)
      None (Np.scalar 1) false (0 : Z) = (inr (Dense out), g') /\
    Forall (fun row => 1096 <= sumZ row) (Np.rows out (n_fragments_of [1; 1])).
Proof.
  apply (umi_counts_default_rows_at_least
           (Np.mk_ndarray [2%nat; 2%nat] [1; 3; 2; 2]%Q) (Np.scalar 1) 2 [1; 1] (0 : Z)).
  - reflexivity.
  - simpl. lia.
  - reflexivity.
  - repeat constructor; discriminate.
  - simpl. lia.
  - repeat constructor.
  - reflexivity.
  - repeat constructor; lia.
Defined.

(** * simscity/drug.py *)

(** ** [doses] *)

Section DosesProperties.
Context {G : Type} `{NormalState G}.

Lemma length_linspace (start stop : R) (num : nat) :
  length (Doses.linspace start stop num) = num.
Proof.
  destruct num as [|[|num]]; try reflexivity.
  unfold Doses.linspace. rewrite length_map, length_seq. reflexivity.
Qed.

Lemma length_normal_draws (size : nat) (loc scale : R) (g : G) :
  length (fst (normal_draws size loc scale g)) = size.
Proof.
  revert g. induction size as [|n IH]; intros g; [reflexivity|].
  cbn [normal_draws fst length]. rewrite IH. reflexivity.
Qed.

(** For a scale that is not negative, [np.random.normal] returns its draws. *)
Lemma normal_draws_spec (size : nat) (scale : R) (g : G) :
  (0 <= scale)%R ->
  Doses.normal size scale g
  = (inr (fst (normal_draws size 0 scale g)), snd (normal_draws size 0 scale g)).
Proof.
  intros Hs. unfold Doses.normal.
  destruct (Rlt_dec scale 0) as [Hlt|_]; [lra|].
  revert g. induction size as [|n IH]; intros g; [reflexivity|].
  cbn [replicate mapM normal_draws fst snd].
  unfold bind at 1. unfold sample at 1. unfold bind at 1. rewrite IH. reflexivity.
Qed.

Lemma normal_returns (size : nat) (scale : R) (g : G) :
  (0 <= scale)%R ->
  exists noise g', Doses.normal size scale g = (inr noise, g') /\ length noise = size.
Proof.
  intros Hs. eexists _, _. split; [apply normal_draws_spec, Hs|].
  apply length_normal_draws.
Qed.

Lemma noise_scale_positive (n : nat) :
  (0 < n)%nat ->
  Z.of_nat n ^ 2 <> 0 /\ (0 <= 1 / IZR (Z.of_nat n ^ 2))%R.
Proof.
  intros Hn. split; [nia|].
  apply Rlt_le, Rdiv_lt_0_compat; [lra|]. apply IZR_lt. nia.
Qed.

(** X21: [doses] returns exactly when [n_conditions] is not zero: for
    [n_conditions = 0] it does not return an empty array, the noise scale
    [1.0 / (n_conditions**2)] divides by zero before anything is drawn. *)
Theorem doses_returns_iff_some_condition (scale : R) (n_conditions : nat) (g : G) :
  ((exists out g', Doses.doses scale n_conditions g = (inr out, g'))
   <-> (0 < n_conditions)%nat) /\
  (n_conditions = 0%nat ->
   Doses.doses scale n_conditions g = (inl ZeroDivisionError, g)).
Proof.
  split; [split|].
  - intros (out & g' & E). destruct n_conditions as [|n]; [|lia].
    unfold Doses.doses, Doses.float_div in E.
    change (Z.of_nat 0 ^ 2) with 0 in E. cbn [Z.eqb] in E. discriminate.
  - intros Hn. destruct (noise_scale_positive n_conditions Hn) as [Hne Hpos].
    destruct (normal_returns n_conditions _ g Hpos) as (noise & g' & E & _).
    unfold Doses.doses, Doses.float_div.
    destruct (Z.eqb_spec (Z.of_nat n_conditions ^ 2) 0) as [Ez|_]; [contradiction|].
    rewrite E. eexists _, _. reflexivity.
  - intros ->. unfold Doses.doses, Doses.float_div.
    change (Z.of_nat 0 ^ 2) with 0. cbn [Z.eqb]. reflexivity.
Qed.

(** X22: For [n_conditions >= 1], [doses] returns [n_conditions] thresholds:
    the evenly spaced values from [-3 * scale] to [3 * scale], the [i]-th of
    them moved by the [i]-th of the [n_conditions] draws the generator gives
    for a normal distribution of mean 0 and scale [1 / n_conditions ^ 2];
    the generator is left where those draws leave it. *)
Theorem doses_returns_thresholds (scale : R) (n_conditions : nat) (g : G) :
  (0 < n_conditions)%nat ->
  Doses.doses scale n_conditions g
  = (inr (zip_with Rplus
            (Doses.linspace (-3 * scale) (3 * scale) n_conditions)
            (fst (normal_draws n_conditions 0
                    (1 / IZR (Z.of_nat n_conditions ^ 2)) g))),
     snd (normal_draws n_conditions 0 (1 / IZR (Z.of_nat n_conditions ^ 2)) g)) /\
  length (zip_with Rplus
            (Doses.linspace (-3 * scale) (3 * scale) n_conditions)
            (fst (normal_draws n_conditions 0
                    (1 / IZR (Z.of_nat n_conditions ^ 2)) g)))
  = n_conditions.
Proof.
  intros Hn. destruct (noise_scale_positive n_conditions Hn) as [Hne Hpos].
  split.
  - unfold Doses.doses, Doses.float_div.
    destruct (Z.eqb_spec (Z.of_nat n_conditions ^ 2) 0) as [Ez|_]; [contradiction|].
    rewrite (normal_draws_spec _ _ g Hpos). reflexivity.
  - rewrite length_zip_with, length_linspace, length_normal_draws. lia.
Qed.

(** X23: The single threshold of [doses(scale, 1)] lies at [-3 * scale], the
    start of the range and not its middle, moved by one standard normal
    draw. *)
Theorem doses_single_condition (scale : R) (g : G) :
  Doses.doses scale 1 g
  = (inr [(-3 * scale + fst (draw_normal 0 1 g))%R], snd (draw_normal 0 1 g)).
Proof.
  unfold Doses.doses, Doses.float_div, Doses.normal.
  change (Z.of_nat 1 ^ 2) with 1. cbn [Z.eqb].
  replace (1 / 1)%R with 1%R by lra.
  destruct (Rlt_dec 1 0) as [Hlt|_]; [lra|]. reflexivity.
Qed.

End DosesProperties.

Lemma doses_returns_thresholds_witness :
  Doses.doses 2%R 3 (0 : Z)
  = (inr (zip_with Rplus (Doses.linspace (-3 * 2) (3 * 2) 3)
            (fst (normal_draws 3 0 (1 / IZR (Z.of_nat 3 ^ 2)) (0 : Z)))),
     snd (normal_draws 3 0 (1 / IZR (Z.of_nat 3 ^ 2)) (0 : Z))) /\
  length (zip_with Rplus (Doses.linspace (-3 * 2) (3 * 2) 3)
            (fst (normal_draws 3 0 (1 / IZR (Z.of_nat 3 ^ 2)) (0 : Z)))) = 3%nat.
Proof. apply (doses_returns_thresholds 2%R 3 (0 : Z)). lia. Defined.

(** ** [response] *)

Lemma expit_monotone (x y : R) : (x <= y)%R -> (Drug.expit x <= Drug.expit y)%R.
Proof.
  intros Hxy. unfold Drug.expit.
  pose proof (exp_pos (- x)) as Hx. pose proof (exp_pos (- y)) as Hy.
  assert (Hexp : (exp (- y) <= exp (- x))%R) by (apply exp_le; lra).
  unfold Rdiv. rewrite !Rmult_1_l.
  apply Rinv_le_contravar; lra.
Qed.

Lemma dot_zero_weights (row z_weights : list R) :
  Forall (fun w => w = 0%R) z_weights -> Drug.dot row z_weights = 0%R.
Proof.
  intros Hz. revert row. unfold Drug.dot.
  induction Hz as [|w z_weights -> _ IH]; intros [|x row]; cbn; try reflexivity.
  rewrite IH. lra.
Qed.

Lemma response_returns (latent_exp : list (list R)) (z_weights doses : list R) :
  Forall (fun row => length row = length z_weights) latent_exp ->
  Drug.response latent_exp z_weights doses
  = inr (map (fun row => map (fun d => Drug.expit (Drug.dot row z_weights + d)%R) doses)
             latent_exp).
Proof.
  intros Hrows. unfold Drug.response.
  replace (forallb _ latent_exp) with true; [reflexivity|].
  symmetry. apply forallb_forall. intros row Hin.
  rewrite Forall_forall in Hrows. apply Nat.eqb_eq, Hrows, list_elem_of_In, Hin.
Qed.

(** X24: On samples as long as the weighting, [response] returns one row per
    sample and one column per dose, and along every row the outcome does
    not fall when the dose threshold rises. *)
Theorem response_monotone_in_dose
  (latent_exp : list (list R)) (z_weights doses : list R) :
  Forall (fun row => length row = length z_weights) latent_exp ->
  exists out,
    Drug.response latent_exp z_weights doses = inr out /\
    length out = length latent_exp /\
    Forall (fun row =>
              length row = length doses /\
              forall j k d1 d2 v1 v2,
                doses !! j = Some d1 -> doses !! k = Some d2 ->
                row !! j = Some v1 -> row !! k = Some v2 ->
                (d1 <= d2)%R -> (v1 <= v2)%R) out.
Proof.
  intros Hrows. eexists. split; [apply response_returns, Hrows|].
  split; [apply length_map|].
  apply Forall_map, Forall_forall. intros row _. cbn.
  split; [apply length_map|].
  intros j k d1 d2 v1 v2 Hj Hk Hv1 Hv2 Hd.
  rewrite list_lookup_fmap, Hj in Hv1. rewrite list_lookup_fmap, Hk in Hv2.
  cbn in Hv1, Hv2. injection Hv1 as <-. injection Hv2 as <-.
  apply expit_monotone. lra.
Qed.

(** X25: A drug that weights no program ([z_weights] all zero) meets the same
    outcome in every sample: [expit] of the dose thresholds. *)
Theorem response_zero_weights
  (latent_exp : list (list R)) (z_weights doses : list R) :
  Forall (fun row => length row = length z_weights) latent_exp ->
  Forall (fun w => w = 0%R) z_weights ->
  Drug.response latent_exp z_weights doses
  = inr (replicate (length latent_exp) (map Drug.expit doses)).
Proof.
  intros Hrows Hz. rewrite (response_returns _ _ _ Hrows). f_equal.
  clear Hrows. induction latent_exp as [|row latent_exp IH]; [reflexivity|].
  cbn [map length replicate]. rewrite IH. f_equal.
  apply map_ext. intros d. rewrite (dot_zero_weights _ _ Hz). f_equal. lra.
Qed.

Lemma response_monotone_in_dose_witness :
  exists out,
    Drug.response [[1; 2]; [0; 3]]%R [1; -1]%R [-1; 0; 1]%R = inr out /\
    length out = 2%nat /\
    Forall (fun row =>
              length row = 3%nat /\
              forall j k d1 d2 v1 v2,
                [-1; 0; 1]%R !! j = Some d1 -> [-1; 0; 1]%R !! k = Some d2 ->
                row !! j = Some v1 -> row !! k = Some v2 ->
                (d1 <= d2)%R -> (v1 <= v2)%R) out.
Proof.
  apply (response_monotone_in_dose [[1; 2]; [0; 3]]%R [1; -1]%R [-1; 0; 1]%R).
  repeat constructor.
Defined.

Lemma response_zero_weights_witness :
  Drug.response [[1; 2]; [0; 3]]%R [0; 0]%R [-1; 1]%R
  = inr (replicate 2 (map Drug.expit [-1; 1]%R)).
Proof.
  apply (response_zero_weights [[1; 2]; [0; 3]]%R [0; 0]%R [-1; 1]%R);
    repeat constructor.
Defined.

(** * Further edges *)

(** ** [pcr_noise] on an array without a second axis *)

Section OneAxis.
Context {G : Type} `{RandomState G}.
Implicit Types (h : gmap nat Sequencing.obj) (g : G).

(** X26: On a dense array with fewer than two axes [pcr_noise] fails at
    [read_counts.shape[1]] with an [IndexError], whatever the non-negative
    efficiencies and [n_cycles] are; nothing has been drawn, and with
    [copy=False] nothing has been written. *)
Theorem pcr_noise_rejects_one_axis r pcr_betas n_cycles copy h g a :
  h !! r = Some (Sequencing.Ndarray a) ->
  (length (Np.shape a) <= 1)%nat ->
  Forall (fun b => (0 <= b)%Q) (Np.flat pcr_betas) ->
  exists h',
    Sequencing.pcr_noise r pcr_betas n_cycles copy (h, g)
      = (inl (IndexError "tuple index out of range"), (h', g)) /\
    h ⊆ h' /\ (copy = false -> h' = h).
Proof.
  intros Hr Hdim Hpos.
  assert (Hnone : Np.shape a !! 1%nat = None).
  { apply lookup_ge_None. exact Hdim. }
  unfold Sequencing.pcr_noise. rewrite (any_negative_false _ Hpos).
  destruct copy.
  - exists (<[fresh (dom h):=Sequencing.Ndarray a]> h).
    split; [|split; [apply insert_subseteq, not_elem_of_dom, is_fresh|discriminate]].
    assert (Ec : Sequencing.copy_obj r (h, g)
                 = (inr (fresh (dom h)), (<[fresh (dom h):=Sequencing.Ndarray a]> h, g))).
    { unfold Sequencing.copy_obj, bind, Sequencing.load. cbn [fst].
      rewrite Hr. reflexivity. }
    rewrite (bind_ok _ _ _ _ _ Ec).
    unfold bind at 1, Sequencing.load. cbn [fst]. rewrite lookup_insert_eq.
    unfold bind at 1. cbn [Sequencing.shape1]. rewrite Hnone. reflexivity.
  - exists h. split; [|split; reflexivity].
    unfold bind at 1. cbn [ret].
    unfold bind at 1, Sequencing.load. cbn [fst]. rewrite Hr.
    unfold bind at 1. cbn [Sequencing.shape1]. rewrite Hnone. reflexivity.
Qed.

End OneAxis.

Lemma pcr_noise_rejects_one_axis_witness :
  let h : gmap nat Sequencing.obj :=
    {[ 0%nat := Sequencing.Ndarray (Np.mk_ndarray [3%nat] [2; 3; 1]) ]} in
  exists h',
    Sequencing.pcr_noise 0%nat (Np.scalar (1 # 2)%Q) 2 false (h, 0 : Z)
      = (inl (IndexError "tuple index out of range"), (h', 0 : Z)) /\
    h ⊆ h' /\ (false = false -> h' = h).
Proof.
  intros h.
  apply (pcr_noise_rejects_one_axis 0%nat (Np.scalar (1 # 2)%Q) 2 false h (0 : Z)
           (Np.mk_ndarray [3%nat] [2; 3; 1])).
  - reflexivity.
  - simpl. lia.
  - repeat constructor; discriminate.
Defined.

(** ** [library_size] without spread *)

Section ZeroScale.
Context {G : Type} `{RandomState G}.


End ZeroScale.



(** ** [umi_counts] with one fragment per gene *)

Lemma concat_replicate_singleton {A : Type} (n : nat) (x : A) :
  concat (replicate n [x]) = replicate n x.
Proof. induction n as [|n IH]; [reflexivity|]. cbn. rewrite IH. reflexivity. Qed.

Lemma broadcast_scalar {A : Type} (x : A) (n : nat) :
  Np.broadcast_to (Np.scalar x) [n] = Some (replicate n x).
Proof.
  unfold Np.broadcast_to, Np.scalar. cbn [Np.shape Np.flat length Nat.leb Nat.sub
    replicate app].
  rewrite (broadcast_aligned_row [] n [x] eq_refl), concat_replicate_singleton.
  reflexivity.
Qed.

Lemma n_fragments_of_ones (n : nat) : n_fragments_of (replicate n 1) = n.
Proof.
  unfold n_fragments_of. induction n as [|n IH]; [reflexivity|].
  cbn [replicate map sum_list]. rewrite IH. cbn. reflexivity.
Qed.

Section OneFragment.
Context {G : Type} `{RandomStateLaws G}.

(** X28: With the default [fragments_per_gene = 1] every gene is its own
    fragment: the dense output of [umi_counts] has the shape of
    [raw_expression]. *)
Theorem umi_counts_one_fragment_keeps_shape
  (raw_expression : Np.ndarray Q) (lib_size : option (Np.ndarray Z))
  (n_genes : nat) (g : G) :
  Np.wf raw_expression ->
  length (Np.shape raw_expression) <> 1%nat ->
  Np.trailing (Np.shape raw_expression) = Some n_genes ->
  Forall (fun x => (0 <= x)%Q) (Np.flat raw_expression) ->
  (0 < Np.size_of (Np.leading (Np.shape raw_expression)))%nat ->
  Forall (fun row => (0 < sumQ row)%Q) (Np.rows raw_expression n_genes) ->
  (forall l, lib_size = Some l ->
     exists sizes, Np.broadcast_to l (Np.leading (Np.shape raw_expression)) = Some sizes /\
                   Forall (Z.le 0) sizes) ->
  exists out g',
    Sequencing.umi_counts raw_expression lib_size (Np.scalar 1) false g
      = (inr (Dense out), g') /\
    Np.shape out = Np.shape raw_expression.
Proof.
  intros Hwf Hdim Hlast Hpos Hcells Hrows Hlib.
  destruct (umi_counts_cells raw_expression lib_size (Np.scalar 1) n_genes
              (replicate n_genes 1) g Hwf Hdim Hlast Hpos Hrows
              (broadcast_scalar 1 n_genes))
    as (sizes & outs & g' & _ & Hlen & Houts & _ & E).
  { apply Forall_replicate. lia. }
  { exact Hlib. }
  apply Forall_and in Houts as [Hlens _].
  destruct (vstack_dense_rows _ _ outs g' Hlen Hcells Hlens)
    as (out & Ev & Hshape & _).
  exists out, g'. rewrite (E false). split; [exact Ev|].
  rewrite Hshape, n_fragments_of_ones.
  destruct (shape_split (Np.shape raw_expression)) as (n & Hn & Hs).
  { intros E0. rewrite E0 in Hlast. discriminate. }
  rewrite Hlast in Hn. injection Hn as <-. symmetry. exact Hs.
Qed.

End OneFragment.

Lemma umi_counts_one_fragment_keeps_shape_witness :
  exists out g',
    Sequencing.umi_counts (Np.mk_ndarray [2%nat; 2%nat] [1; 3; 2; 2]%Q)
      (Some (Np.scalar 5)) (Np.scalar 1) false (0 : Z) = (inr (Dense out), g') /\
    Np.shape out = [2%nat; 2%nat].
Proof.
  apply (umi_counts_one_fragment_keeps_shape
           (Np.mk_ndarray [2%nat; 2%nat] [1; 3; 2; 2]%Q) (Some (Np.scalar 5)) 2 (0 : Z)).
  - reflexivity.
  - simpl. lia.
  - reflexivity.
  - repeat constructor; discriminate.
  - simpl. lia.
  - repeat constructor.
  - intros l [= <-]. exists [5; 5]. split; [reflexivity|repeat constructor; lia].
Defined.
